(** * WiiUtils: title installation and online system update

    A shallow embedding of [Source/Core/Core/WiiUtils.cpp]:
    [InstallWAD], [SystemUpdater::ShouldInstallTitle] and the
    [OnlineSystemUpdater] ([ParseTitlesResponse], [GetSystemTitles],
    [DoOnlineUpdate], [InstallTitleFromNUS], [DownloadTMD],
    [DownloadTicket], [DownloadContent]).

    The emulated IOS (ES device), the HTTP client, the user prompt, the
    progress callback and the XML library are collaborators of that file.
    They are taken as parameters: every theorem holds for whatever they
    answer.  Each call to a collaborator is recorded in a call log, so that
    statements about which calls are made, and in which order, can be
    written down. *)

From Stdlib Require Import ZArith List String Ascii Bool Lia.
From Stdlib Require Import Strings.Byte DecimalString.
From stdpp Require Import gmap.
Import ListNotations.
Local Open Scope Z_scope.
Set Warnings "-register-all".

(** ** Integers and byte buffers *)

(** [u16], [u32], [u64] and [ReturnCode] values are integers; a narrowing
    cast is written out with [wrap]. *)
Definition wrap (bits : Z) (x : Z) : Z := x mod 2 ^ bits.

Definition bytes := list byte.

(** A raw read or an iterator range outside a buffer is undefined behaviour
    in the source, and a throwing library call that nobody catches ends the
    program; the embedding makes both a visible [Fault]. *)
Inductive partial (A : Type) : Type :=
| Ok (a : A)
| Fault.
Arguments Ok {A} a.
Arguments Fault {A}.

Definition read_u8 (buf : bytes) (off : nat) : partial nat :=
  match nth_error buf off with
  | Some b => Ok (Byte.to_nat b)
  | None => Fault
  end.

(** [Common::swap16] on a byte pointer: the big-endian 16-bit value there. *)
Definition swap16 (buf : bytes) (off : nat) : partial nat :=
  match read_u8 buf off, read_u8 buf (S off) with
  | Ok hi, Ok lo => Ok (256 * hi + lo)%nat
  | _, _ => Fault
  end.

(** [std::vector<u8>(first, last)] for two iterators into [buf]. *)
Definition vec_range (buf : bytes) (first last : nat) : partial bytes :=
  if ((first <=? last)%nat && (last <=? length buf)%nat)%bool
  then Ok (firstn (last - first) (skipn first buf))
  else Fault.

(** ** Title metadata *)

(** [IOS::ES::Content]; the functions at hand read [id] and [index]. *)
Record Content : Type := mkContent {
  content_id : Z;
  content_index : Z;
  content_type : Z;
  content_size : Z;
  content_sha1 : bytes
}.

(** [IOS::ES::TMDReader] wraps the bytes it was built from; the default
    constructed reader holds none. *)
Record TMDReader : Type := mkTMD { GetBytes : bytes }.

Definition empty_TMD : TMDReader := mkTMD [].

Inductive Region : Type := NTSC_J | NTSC_U | PAL | NTSC_K | UNKNOWN_REGION.

(** A parsed XML document as the code walks it with pugixml: an element has
    a name, its character data and its child elements in document order.
    The document node is an element without a name. *)
Inductive xml_node : Type :=
| XmlNode (name : string) (text : string) (children : list xml_node).

(** What [WiiUtils.cpp] takes from headers that are not part of the sources
    at hand ([Core/IOS/ES/Formats.h], [Core/IOS/Device.h],
    [Core/CommonTitles.h], [<string>], pugixml): structure sizes and
    offsets, constants, the accessors of a metadata reader, and the text
    conversions. *)
Record Platform : Type := mkPlatform {
  sizeof_TMDHeader : nat;
  offsetof_num_contents : nat;
  sizeof_Content : nat;
  sizeof_Ticket : nat;
  IOSC_FAIL_CHECKVALUE : Z;
  BOOT2 : Z;
  SYSTEM_MENU : Z;
  GetIOSId : TMDReader -> Z;
  GetTitleId : TMDReader -> Z;
  GetTitleVersion : TMDReader -> Z;
  GetRegion : TMDReader -> Region;
  GetContents : TMDReader -> list Content;
  (** [IOS::ES::IsTitleType(id, IOS::ES::TitleType::System)] *)
  IsSystemTitle : Z -> bool;
  (** [std::stoull(s, nullptr, 16)]; [None] when it throws *)
  stoull16 : string -> option Z;
  (** [xml_text::as_int] and [xml_text::as_uint] *)
  as_int : string -> Z;
  as_uint : string -> Z;
  (** [xml_document::load_buffer]; [None] when the parse fails *)
  load_buffer : bytes -> option xml_node;
  (** the request template with the two leaf fields set, as [doc.save]
      writes it *)
  save_request : string -> string -> string
}.

Section Metadata.
Variable P : Platform.

(** Modelled from the spec: [TMDReader::GetNumContents] is declared in
    Formats.h; the count is the big-endian 16-bit field at a known offset
    of the fixed header.  A buffer too short to hold the field has no
    declared contents. *)
Definition GetNumContents (t : TMDReader) : nat :=
  match swap16 (GetBytes t) (offsetof_num_contents P) with
  | Ok n => n
  | Fault => 0%nat
  end.

(** Modelled from the spec: [TMDReader::IsValid] is declared in
    Formats.h; decoding fails if the byte length is smaller than the fixed
    header, or if the declared content count times the entry size plus the
    header size exceeds the supplied length. *)
Definition IsValid (t : TMDReader) : bool :=
  ((sizeof_TMDHeader P <=? length (GetBytes t))%nat &&
   (sizeof_TMDHeader P + sizeof_Content P * GetNumContents t
      <=? length (GetBytes t))%nat)%bool.

(** The decoding half of [OnlineSystemUpdater::DownloadTMD]: everything
    after the HTTP response has arrived. *)
Definition SplitTMD (response : bytes) : partial (TMDReader * bytes) :=
  (* Too small to contain both the TMD and a cert chain. *)
  if (length response <=? sizeof_TMDHeader P)%nat then Ok (empty_TMD, [])
  else
    match swap16 response (offsetof_num_contents P) with
    | Fault => Fault
    | Ok num_contents =>
        let tmd_size :=
          (sizeof_TMDHeader P + sizeof_Content P * num_contents)%nat in
        if (length response <=? tmd_size)%nat then Ok (empty_TMD, [])
        else
          match vec_range response 0 tmd_size,
                vec_range response tmd_size (length response) with
          | Ok tmd, Ok certs => Ok (mkTMD tmd, certs)
          | _, _ => Fault
          end
    end.

(** The decoding half of [OnlineSystemUpdater::DownloadTicket]. *)
Definition SplitTicket (response : bytes) : partial (bytes * bytes) :=
  (* Too small to contain both the ticket and a cert chain. *)
  if (length response <=? sizeof_Ticket P)%nat then Ok ([], [])
  else
    match vec_range response 0 (sizeof_Ticket P),
          vec_range response (sizeof_Ticket P) (length response) with
    | Ok ticket, Ok certs => Ok (ticket, certs)
    | _, _ => Fault
    end.
End Metadata.

(** ** Text *)

Definition hex_digit (d : Z) : ascii :=
  nth (Z.to_nat d) (list_ascii_of_string "0123456789abcdef") "0"%char.

(** [%0<width>x] for a value that fits [width] digits, as every [u64] does
    with 16 and every [u32] with 8. *)
Fixpoint hex_fixed (width : nat) (x : Z) : string :=
  match width with
  | O => EmptyString
  | S w => (hex_fixed w (x / 16) ++ String (hex_digit (x mod 16)) EmptyString)%string
  end.

(** [%u] and [PRIu64]. *)
Definition decimal (x : Z) : string :=
  NilZero.string_of_uint (N.to_uint (Z.to_N x)).

Definition starts_with (p s : string) : bool := String.prefix p s.

(** Modelled from the spec: [ReplaceAll] of Common/StringUtil is not part of
    the sources at hand; every occurrence of [src], found from left to
    right, is replaced by [dest], and the search goes on after the
    replacement.  [fuel] bounds the scan by the length of the text. *)
Fixpoint replace_scan (fuel : nat) (s src dest : string) : string :=
  match fuel with
  | O => s
  | S fuel' =>
      match s with
      | EmptyString => EmptyString
      | String c rest =>
          if starts_with src s
          then (dest ++ replace_scan fuel'
                  (String.substring (String.length src)
                     (String.length s - String.length src) s) src dest)%string
          else String c (replace_scan fuel' rest src dest)
      end
  end.

Definition ReplaceAll (result src dest : string) : string :=
  if (String.eqb src dest || String.eqb src EmptyString)%bool then result
  else replace_scan (String.length result) result src dest.

(** ** Results *)

Inductive UpdateResult : Type :=
| Succeeded | AlreadyUpToDate | Cancelled
| ServerFailed | DownloadFailed | ImportFailed.

Definition is_Succeeded (r : UpdateResult) : bool :=
  match r with Succeeded => true | _ => false end.

(** [SystemUpdater::TitleInfo] *)
Record TitleInfo : Type := mkTitle { id : Z; version : Z }.

(** [OnlineSystemUpdater::Response]; [return {}] gives the empty one. *)
Record Response : Type := mkResponse {
  content_prefix_url : string;
  titles : list TitleInfo
}.

Definition empty_Response : Response := mkResponse EmptyString [].

(** [DiscIO::WiiWAD] as the decoder hands it over. *)
Record WiiWAD : Type := mkWAD {
  wad_IsValid : bool;
  wad_GetTMD : TMDReader;
  wad_GetTicket : bytes;
  wad_GetCertificateChain : bytes;
  wad_GetContent : Z -> bytes
}.

(** ** Collaborators and the call log *)

(** One entry per call that leaves [WiiUtils.cpp], with what was passed and
    what came back. *)
Inductive Event : Type :=
| EvImportTicket (ticket certs : bytes) (checks : bool) (ret : Z)
| EvImportTitleInit (tmd certs : bytes) (checks : bool) (ret : Z)
| EvImportContentBegin (title_id cid : Z) (ret : Z)
| EvImportContentData (data : bytes) (ret : Z)
| EvImportContentEnd (ret : Z)
| EvImportTitleDone (ret : Z)
| EvImportTitleCancel (ret : Z)
| EvHttpGet (url : string) (answered : bool)
| EvHttpPost (url : string) (payload : string) (answered : bool)
| EvAskYesNo (answer : bool)
| EvPanicAlert (message : string)
| EvCallback (processed total : nat) (title_id : Z) (answer : bool)
| EvClearCache.

(** The collaborators, over whatever state [St] they keep between calls (the
    NAND, the import context an [ImportTitleInit] has filled in, the network,
    the person at the screen).  The ES calls that check signatures are given
    the value of the signature-check setting they read; no collaborator
    writes that setting.  [ES_DeleteTicket] is part of the ES interface and
    is listed because no function below calls it. *)
Record Env (St : Type) : Type := mkEnv {
  ES_ImportTicket : bytes -> bytes -> bool -> St -> Z * St;
  ES_ImportTitleInit : bytes -> bytes -> bool -> St -> Z * St;
  ES_ImportContentBegin : Z -> Z -> St -> Z * St;
  ES_ImportContentData : bytes -> St -> Z * St;
  ES_ImportContentEnd : St -> Z * St;
  ES_ImportTitleDone : St -> Z * St;
  ES_ImportTitleCancel : St -> Z * St;
  ES_DeleteTicket : bytes -> St -> Z * St;
  ES_FindInstalledTMD : Z -> St -> TMDReader;
  ES_GetStoredContentsFromTMD : TMDReader -> St -> list Content;
  ES_GetDeviceId : St -> Z * Z;
  Http_Get : string -> St -> option bytes * St;
  Http_Post : string -> string -> St -> option bytes * St;
  AskYesNoT : St -> bool * St;
  update_callback : nat -> nat -> Z -> St -> bool * St
}.
Arguments ES_ImportTicket {St}.
Arguments ES_ImportTitleInit {St}.
Arguments ES_ImportContentBegin {St}.
Arguments ES_ImportContentData {St}.
Arguments ES_ImportContentEnd {St}.
Arguments ES_ImportTitleDone {St}.
Arguments ES_ImportTitleCancel {St}.
Arguments ES_DeleteTicket {St}.
Arguments ES_FindInstalledTMD {St}.
Arguments ES_GetStoredContentsFromTMD {St}.
Arguments ES_GetDeviceId {St}.
Arguments Http_Get {St}.
Arguments Http_Post {St}.
Arguments AskYesNoT {St}.
Arguments update_callback {St}.

(** What a run can see and change: the collaborators' state, the
    signature-check setting [SConfig::GetInstance().m_enable_signature_checks],
    and the call log, oldest call first. *)
Record World (St : Type) : Type := mkWorld {
  ext : St;
  m_enable_signature_checks : bool;
  calls : list Event
}.
Arguments mkWorld {St}.
Arguments ext {St}.
Arguments m_enable_signature_checks {St}.
Arguments calls {St}.

(** A run returns a value in a new world, or is cut off by the bound on the
    loop or recursion depth, or crashes (a [Fault]). *)
Inductive Res (St A : Type) : Type :=
| Ret (a : A) (w : World St)
| OutOfFuel
| Crash.
Arguments Ret {St A}.
Arguments OutOfFuel {St A}.
Arguments Crash {St A}.

Definition M (St A : Type) : Type := World St -> Res St A.

Definition ret {St A} (a : A) : M St A := fun w => Ret a w.

Definition bind {St A B} (c : M St A) (k : A -> M St B) : M St B :=
  fun w =>
    match c w with
    | Ret a w' => k a w'
    | OutOfFuel => OutOfFuel
    | Crash => Crash
    end.

Notation "'let*' x ':=' c 'in' k" := (bind c (fun x => k))
  (at level 10, x pattern, c at level 100, k at level 200).

Definition out_of_fuel {St A} : M St A := fun _ => OutOfFuel.

Definition lift_partial {St A} (p : partial A) : M St A :=
  fun w => match p with Ok a => Ret a w | Fault => Crash end.

(** A call that changes the collaborators' state and is logged. *)
Definition call {St A} (f : St -> A * St) (ev : A -> Event) : M St A :=
  fun w =>
    let '(a, s) := f (ext w) in
    Ret a (mkWorld s (m_enable_signature_checks w) (calls w ++ [ev a])).

(** A [const] query of the collaborators' state. *)
Definition query {St A} (f : St -> A) : M St A := fun w => Ret (f (ext w)) w.

Definition emit {St} (e : Event) : M St unit :=
  fun w => Ret tt (mkWorld (ext w) (m_enable_signature_checks w) (calls w ++ [e])).

Definition get_checks {St} : M St bool :=
  fun w => Ret (m_enable_signature_checks w) w.

Definition set_checks {St} (b : bool) : M St unit :=
  fun w => Ret tt (mkWorld (ext w) b (calls w)).

Section Primitives.
Context {St : Type} (E : Env St).

Definition ImportTicket (ticket certs : bytes) : M St Z :=
  let* checks := get_checks in
  call (ES_ImportTicket E ticket certs checks) (EvImportTicket ticket certs checks).

Definition ImportTitleInit (tmd certs : bytes) : M St Z :=
  let* checks := get_checks in
  call (ES_ImportTitleInit E tmd certs checks) (EvImportTitleInit tmd certs checks).

Definition ImportContentBegin (title_id cid : Z) : M St Z :=
  call (ES_ImportContentBegin E title_id cid) (EvImportContentBegin title_id cid).

Definition ImportContentData (data : bytes) : M St Z :=
  call (ES_ImportContentData E data) (EvImportContentData data).

Definition ImportContentEnd : M St Z :=
  call (ES_ImportContentEnd E) EvImportContentEnd.

Definition ImportTitleDone : M St Z :=
  call (ES_ImportTitleDone E) EvImportTitleDone.

Definition ImportTitleCancel : M St Z :=
  call (ES_ImportTitleCancel E) EvImportTitleCancel.

Definition FindInstalledTMD (title_id : Z) : M St TMDReader :=
  query (ES_FindInstalledTMD E title_id).

Definition GetStoredContentsFromTMD (tmd : TMDReader) : M St (list Content) :=
  query (ES_GetStoredContentsFromTMD E tmd).

Definition HttpGet (url : string) : M St (option bytes) :=
  call (Http_Get E url)
       (fun r => EvHttpGet url (match r with Some _ => true | None => false end)).

Definition HttpPost (url payload : string) : M St (option bytes) :=
  call (Http_Post E url payload)
       (fun r => EvHttpPost url payload (match r with Some _ => true | None => false end)).

Definition AskYesNo : M St bool := call (AskYesNoT E) EvAskYesNo.

Definition PanicAlertT (message : string) : M St unit := emit (EvPanicAlert message).

Definition m_update_callback (processed total : nat) (title_id : Z) : M St bool :=
  call (update_callback E processed total title_id) (EvCallback processed total title_id).

Definition ClearCache : M St unit := emit EvClearCache.
End Primitives.

(** ** The program *)

Definition url_tmd (prefix_url : string) (title : TitleInfo) : string :=
  if version title =? 0
  then (prefix_url ++ "/" ++ hex_fixed 16 (id title) ++ "/tmd")%string
  else (prefix_url ++ "/" ++ hex_fixed 16 (id title) ++ "/tmd."
          ++ decimal (version title))%string.

Definition url_cetk (prefix_url : string) (title : TitleInfo) : string :=
  (prefix_url ++ "/" ++ hex_fixed 16 (id title) ++ "/cetk")%string.

Definition url_content (prefix_url : string) (title : TitleInfo) (cid : Z) : string :=
  (prefix_url ++ "/" ++ hex_fixed 16 (id title) ++ "/" ++ hex_fixed 8 cid)%string.

Definition NUS_URL : string := "http://nus.shop.wii.com/nus/services/NetUpdateSOAP".

(** [std::find_if] over the stored contents, comparing content ids. *)
Definition is_already_installed (stored_contents : list Content) (content : Content) : bool :=
  existsb (fun stored_content => content_id stored_content =? content_id content)
          stored_contents.

(** [doc.select_node("//name").node()]: the first element of that name in
    document order, if any. *)
Fixpoint select_node (name : string) (n : xml_node) : option xml_node :=
  match n with
  | XmlNode nm _ kids =>
      if String.eqb nm name then Some n
      else
        (fix first_in (l : list xml_node) : option xml_node :=
           match l with
           | [] => None
           | k :: l' =>
               match select_node name k with
               | Some r => Some r
               | None => first_in l'
               end
           end) kids
  end.

Definition node_name (n : xml_node) : string :=
  match n with XmlNode nm _ _ => nm end.

Definition node_children (n : xml_node) : list xml_node :=
  match n with XmlNode _ _ kids => kids end.

(** [node.children(name)] *)
Definition children_named (name : string) (n : xml_node) : list xml_node :=
  List.filter (fun k => String.eqb (node_name k) name) (node_children n).

(** [node.child(name).text().as_string()]: the text of the first child of
    that name, empty when there is none. *)
Definition child_text (name : string) (n : xml_node) : string :=
  match children_named name n with
  | XmlNode _ txt _ :: _ => txt
  | [] => EmptyString
  end.

Section Program.
Context {St : Type} (P : Platform) (E : Env St).

(** The [while] loop of [InstallWAD] (lines 57-70).  [true]: the loop was
    left with the ticket imported and the title import initialised;
    [false]: [InstallWAD] returns [false] from inside the loop.  [fuel]
    bounds the number of iterations. *)
Fixpoint import_loop (fuel : nat) (wad : WiiWAD) (checks_enabled : bool) : M St bool :=
  match fuel with
  | O => out_of_fuel
  | S fuel' =>
      let* r := ImportTicket E (wad_GetTicket wad) (wad_GetCertificateChain wad) in
      let* r := (if r <? 0 then ret r
                 else ImportTitleInit E (GetBytes (wad_GetTMD wad))
                                      (wad_GetCertificateChain wad)) in
      if r <? 0 then
        if (checks_enabled && (r =? IOSC_FAIL_CHECKVALUE P))%bool then
          let* yes := AskYesNo E in
          if yes then
            let* _ := set_checks false in
            import_loop fuel' wad checks_enabled
          else
            let* _ := set_checks checks_enabled in
            let* _ := PanicAlertT "WAD installation failed: Could not initialise title import." in
            ret false
        else
          let* _ := set_checks checks_enabled in
          let* _ := PanicAlertT "WAD installation failed: Could not initialise title import." in
          ret false
      else ret true
  end.

(** The lambda of [InstallWAD] (lines 73-88). *)
Fixpoint wad_contents (wad : WiiWAD) (title_id : Z) (contents : list Content) : M St bool :=
  match contents with
  | [] => ret true
  | content :: rest =>
      let data := wad_GetContent wad (content_index content) in
      let* r := ImportContentBegin E title_id (content_id content) in
      let* r := (if r <? 0 then ret r else ImportContentData E data) in
      let* r := (if r <? 0 then ret r else ImportContentEnd E) in
      if r <? 0 then
        let* _ := PanicAlertT ("WAD installation failed: Could not import content "
                                 ++ hex_fixed 8 (content_id content) ++ ".") in
        ret false
      else wad_contents wad title_id rest
  end.

Definition InstallWAD (fuel : nat) (wad : WiiWAD) : M St bool :=
  if negb (wad_IsValid wad) then
    let* _ := PanicAlertT "WAD installation failed: The selected file is not a valid WAD." in
    ret false
  else
    let tmd := wad_GetTMD wad in
    let* checks_enabled := get_checks in
    let* entered := import_loop fuel wad checks_enabled in
    if negb entered then ret false
    else
      let* _ := set_checks checks_enabled in
      let* contents_imported := wad_contents wad (GetTitleId P tmd) (GetContents P tmd) in
      let* r := (if contents_imported then ImportTitleDone E else ImportTitleCancel E) in
      if r <? 0 then
        let* _ := PanicAlertT "WAD installation failed: Could not finalise title import." in
        ret false
      else
        let* _ := ClearCache in
        ret true.

Definition region_name (region : Region) : string :=
  match region with
  | NTSC_J => "JPN"
  | NTSC_U => "USA"
  | PAL => "EUR"
  | NTSC_K => "KOR"
  | UNKNOWN_REGION => "EUR"
  end.

Definition GetDeviceRegion : M St string :=
  let* tmd := FindInstalledTMD E (SYSTEM_MENU P) in
  if IsValid P tmd then ret (region_name (GetRegion P tmd)) else ret EmptyString.

Definition GetDeviceId : M St string :=
  let* r := query (ES_GetDeviceId E) in
  let '(code, ios_device_id) := r in
  if code <? 0 then ret EmptyString
  else ret (decimal (Z.lor (Z.shiftl 1 32) ios_device_id)).

Definition ShouldInstallTitle (title : TitleInfo) : M St bool :=
  let* installed_tmd := FindInstalledTMD E (id title) in
  let* stored := GetStoredContentsFromTMD E installed_tmd in
  ret (negb (IsValid P installed_tmd
             && (version title <=? GetTitleVersion P installed_tmd)
             && (length stored =? GetNumContents P installed_tmd)%nat)).

(** The loop over the [TitleVersion] nodes (lines 230-235). *)
Fixpoint parse_titles (nodes : list xml_node) : partial (list TitleInfo) :=
  match nodes with
  | [] => Ok []
  | title_node :: rest =>
      match stoull16 P (child_text "TitleId" title_node) with
      | None => Fault
      | Some title_id =>
          let title_version := wrap 16 (as_uint P (child_text "Version" title_node)) in
          match parse_titles rest with
          | Ok l => Ok (mkTitle title_id title_version :: l)
          | Fault => Fault
          end
      end
  end.

Definition ParseTitlesResponse (response : bytes) : partial Response :=
  match load_buffer P response with
  | None => Ok empty_Response
  | Some doc =>
      match select_node "GetSystemUpdateResponse" doc with
      | None => Ok empty_Response
      | Some node =>
          let code := as_int P (child_text "ErrorCode" node) in
          if negb (code =? 0) then Ok empty_Response
          else
            let url := ReplaceAll (child_text "ContentPrefixURL" node) "https://" "http://" in
            if String.eqb url EmptyString then Ok empty_Response
            else
              match parse_titles (children_named "TitleVersion" node) with
              | Ok l => Ok (mkResponse url l)
              | Fault => Fault
              end
      end
  end.

Definition GetSystemTitles (m_requested_region : string) : M St Response :=
  let* device_id := GetDeviceId in
  let* region := (if String.eqb m_requested_region EmptyString then GetDeviceRegion
                  else ret m_requested_region) in
  let request := save_request P device_id region in
  let* response := HttpPost E NUS_URL request in
  match response with
  | None => ret empty_Response
  | Some body => lift_partial (ParseTitlesResponse body)
  end.

Definition DownloadTMD (prefix_url : string) (title : TitleInfo) : M St (TMDReader * bytes) :=
  let* response := HttpGet E (url_tmd prefix_url title) in
  match response with
  | None => ret (empty_TMD, [])
  | Some body => lift_partial (SplitTMD P body)
  end.

Definition DownloadTicket (prefix_url : string) (title : TitleInfo) : M St (bytes * bytes) :=
  let* response := HttpGet E (url_cetk prefix_url title) in
  match response with
  | None => ret ([], [])
  | Some body => lift_partial (SplitTicket P body)
  end.

Definition DownloadContent (prefix_url : string) (title : TitleInfo) (cid : Z)
  : M St (option bytes) :=
  HttpGet E (url_content prefix_url title cid).
End Program.

Section Updater.
Context {St : Type} (P : Platform) (E : Env St).

(** The lambda of [InstallTitleFromNUS] (lines 389-422). *)
Fixpoint nus_contents (prefix_url : string) (title : TitleInfo)
    (stored_contents : list Content) (contents : list Content) : M St UpdateResult :=
  match contents with
  | [] => ret Succeeded
  | content :: rest =>
      (* Do skip what is already installed on the NAND. *)
      if is_already_installed stored_contents content
      then nus_contents prefix_url title stored_contents rest
      else
        let* r := ImportContentBegin E (id title) (content_id content) in
        if r <? 0 then ret ImportFailed
        else
          let* data := DownloadContent E prefix_url title (content_id content) in
          match data with
          | None => ret DownloadFailed
          | Some data =>
              let* r := ImportContentData E data in
              let* r := (if r <? 0 then ret r else ImportContentEnd E) in
              if r <? 0 then ret ImportFailed
              else nus_contents prefix_url title stored_contents rest
          end
  end.

(** Lines 379-436 of [InstallTitleFromNUS]: initialise the title import,
    import the contents, finalise. *)
Definition nus_import (prefix_url : string) (title : TitleInfo)
    (tmd : TMDReader * bytes) (updated_titles : gset Z) : M St (UpdateResult * gset Z) :=
  let* r := ImportTitleInit E (GetBytes (fst tmd)) (snd tmd) in
  if r <? 0 then ret (ImportFailed, updated_titles)
  else
    let* stored_contents := GetStoredContentsFromTMD E (fst tmd) in
    let* import_result :=
      nus_contents prefix_url title stored_contents (GetContents P (fst tmd)) in
    let all_contents_imported := is_Succeeded import_result in
    let* r := (if all_contents_imported then ImportTitleDone E
               else ImportTitleCancel E) in
    if r <? 0 then ret (ImportFailed, updated_titles)
    else if negb all_contents_imported then ret (import_result, updated_titles)
    else ret (Succeeded, {[id title]} ∪ updated_titles).

(** Lines 363-377: download and import any required system title first.
    [self] is [InstallTitleFromNUS] itself; where the code does not call
    it, the result is [Succeeded] with the set unchanged, which is what
    lets line 379 go on. *)
Definition nus_required_ios (self : TitleInfo -> gset Z -> M St (UpdateResult * gset Z))
    (tmd : TMDReader) (updated_titles : gset Z) : M St (UpdateResult * gset Z) :=
  let ios_id := GetIOSId P tmd in
  if (negb (ios_id =? 0) && IsSystemTitle P ios_id)%bool then
    let* installed := FindInstalledTMD E ios_id in
    if negb (IsValid P installed) then self (mkTitle ios_id 0) updated_titles
    else ret (Succeeded, updated_titles)
  else ret (Succeeded, updated_titles).

(** Lines 355-436: what follows a successful ticket import. *)
Definition nus_after_ticket (self : TitleInfo -> gset Z -> M St (UpdateResult * gset Z))
    (prefix_url : string) (title : TitleInfo) (updated_titles : gset Z)
  : M St (UpdateResult * gset Z) :=
  let* tmd := DownloadTMD P E prefix_url title in
  if negb (IsValid P (fst tmd)) then ret (DownloadFailed, updated_titles)
  else
    let* required := nus_required_ios self (fst tmd) updated_titles in
    let '(res, updated_titles) := required in
    if negb (is_Succeeded res) then ret (res, updated_titles)
    else nus_import prefix_url title tmd updated_titles.

(** [OnlineSystemUpdater::InstallTitleFromNUS].  The set behind the
    [updated_titles] pointer is passed in and handed back; [fuel] bounds the
    depth of the recursion. *)
Fixpoint InstallTitleFromNUS (fuel : nat) (prefix_url : string) (title : TitleInfo)
    (updated_titles : gset Z) : M St (UpdateResult * gset Z) :=
  match fuel with
  | O => out_of_fuel
  | S fuel' =>
      (* We currently don't support boot2 updates at all. *)
      if id title =? BOOT2 P then ret (Succeeded, updated_titles)
      else
        let* should := ShouldInstallTitle P E title in
        if (negb should || bool_decide (id title ∈ updated_titles))%bool
        then ret (Succeeded, updated_titles)
        else
          let* ticket := DownloadTicket P E prefix_url title in
          if (match fst ticket with [] => true | _ => false end
              || match snd ticket with [] => true | _ => false end)%bool
          then ret (DownloadFailed, updated_titles)
          else
            let* r := ImportTicket E (fst ticket) (snd ticket) in
            if r <? 0 then ret (ImportFailed, updated_titles)
            else
              nus_after_ticket (InstallTitleFromNUS fuel' prefix_url)
                               prefix_url title updated_titles
  end.

(** The [for] loop of [DoOnlineUpdate] (lines 301-314).  [Some r]: the
    function returns [r] from inside the loop; [None]: the loop is over. *)
Fixpoint update_loop (fuel : nat) (prefix_url : string) (total : nat)
    (remaining : list TitleInfo) (processed : nat) (updated_titles : gset Z)
  : M St (option UpdateResult * gset Z) :=
  match remaining with
  | [] => ret (None, updated_titles)
  | title :: rest =>
      let* go_on := m_update_callback E processed total (id title) in
      if negb go_on then ret (Some Cancelled, updated_titles)
      else
        let* installed := InstallTitleFromNUS fuel prefix_url title updated_titles in
        let '(res, updated_titles) := installed in
        if negb (is_Succeeded res) then ret (Some res, updated_titles)
        else
          let* _ := m_update_callback E (S processed) total (id title) in
          update_loop fuel prefix_url total rest (S processed) updated_titles
  end.

(** [OnlineSystemUpdater::DoOnlineUpdate] *)
Definition OnlineSystemUpdater_DoOnlineUpdate (fuel : nat) (m_requested_region : string)
  : M St UpdateResult :=
  let* info := GetSystemTitles P E m_requested_region in
  match titles info with
  | [] => ret ServerFailed
  | _ :: _ =>
      let* done := update_loop fuel (content_prefix_url info) (length (titles info))
                               (titles info) 0%nat ∅ in
      match fst done with
      | Some res => ret res
      | None =>
          if bool_decide (snd done = ∅) then ret AlreadyUpToDate else ret Succeeded
      end
  end.

(** [WiiUtils::DoOnlineUpdate] *)
Definition DoOnlineUpdate (fuel : nat) (region : string) : M St UpdateResult :=
  let* result := OnlineSystemUpdater_DoOnlineUpdate fuel region in
  let* _ := ClearCache in
  ret result.
End Updater.

(** ** The console's layout and a simulated environment

    Used by the examples: an instance of [Platform] with the sizes, offsets
    and constants of the console, and collaborators simple enough to run. *)
Module Wii.

Definition byte_of (z : Z) : byte :=
  match Byte.of_N (Z.to_N (z mod 256)) with
  | Some b => b
  | None => x00
  end.

(** [width] bytes, most significant first. *)
Fixpoint be (width : nat) (z : Z) : bytes :=
  match width with
  | O => []
  | S w => be w (z / 256) ++ [byte_of z]
  end.

Definition be_read (buf : bytes) (off width : nat) : Z :=
  fold_left (fun acc b => 256 * acc + Z.of_N (Byte.to_N b))
            (firstn width (skipn off buf)) 0.

Definition zeros (n : nat) : bytes := repeat x00 n.

Definition HEADER : nat := 484.
Definition ENTRY : nat := 36.

Definition read_content (buf : bytes) (i : nat) : Content :=
  let off := (HEADER + ENTRY * i)%nat in
  mkContent (be_read buf off 4) (be_read buf (off + 4) 2) (be_read buf (off + 6) 2)
            (be_read buf (off + 8) 8) (firstn 20 (skipn (off + 16) buf)).

Definition read_region (t : TMDReader) : Region :=
  match be_read (GetBytes t) 412 2 with
  | 0 => NTSC_J
  | 1 => NTSC_U
  | 2 => PAL
  | 4 => NTSC_K
  | _ => UNKNOWN_REGION
  end.

Definition hex_value (c : ascii) : option Z :=
  let n := Z.of_nat (nat_of_ascii c) in
  if (48 <=? n) && (n <=? 57) then Some (n - 48)
  else if (97 <=? n) && (n <=? 102) then Some (n - 87)
  else if (65 <=? n) && (n <=? 70) then Some (n - 55)
  else None.

Fixpoint digits (base : Z) (acc : option Z) (s : string) : option Z :=
  match s with
  | EmptyString => acc
  | String c rest =>
      match hex_value c with
      | Some d =>
          if d <? base
          then digits base (Some (base * match acc with Some a => a | None => 0 end + d)) rest
          else acc
      | None => acc
      end
  end.

(** The leading hexadecimal digits of a text; no digit, or a value beyond 64
    bits, throws.  (White space, signs and a [0x] prefix do not occur in the
    examples.) *)
Definition hex_text (s : string) : option Z :=
  match digits 16 None s with
  | Some v => if v <? 2 ^ 64 then Some v else None
  | None => None
  end.

Definition decimal_text (s : string) : Z :=
  match digits 10 None s with
  | Some v => v
  | None => 0
  end.

Definition request_text (device_id region : string) : string :=
  ("<DeviceId>" ++ device_id ++ "</DeviceId><RegionId>" ++ region ++ "</RegionId>")%string.

(** [parser] stands for pugixml's. *)
Definition platform (parser : bytes -> option xml_node) : Platform :=
  mkPlatform HEADER 478 ENTRY 676 (-2011) 4294967297 4294967298
    (fun t => be_read (GetBytes t) 388 8)
    (fun t => be_read (GetBytes t) 396 8)
    (fun t => be_read (GetBytes t) 476 2)
    read_region
    (fun t => map (read_content (GetBytes t))
                  (seq 0 (Z.to_nat (be_read (GetBytes t) 478 2))))
    (fun title_id => Z.shiftr title_id 32 =? 1)
    hex_text decimal_text decimal_text
    parser request_text.

Definition wii : Platform := platform (fun _ => None).

(** A metadata blob: required IOS, title id, title version and one entry per
    content id. *)
Definition make_tmd (ios_id title_id title_version : Z) (cids : list Z) : bytes :=
  zeros 388 ++ be 8 ios_id ++ be 8 title_id ++ zeros 72 ++ be 2 title_version ++
  be 2 (Z.of_nat (length cids)) ++ zeros 4 ++
  concat (map (fun ic => be 4 (snd ic) ++ be 2 (Z.of_nat (fst ic)) ++ zeros 30)
              (combine (seq 0 (length cids)) cids)).

(** The simulated collaborators. *)
Record Sim : Type := mkSim {
  tickets : list bytes;
  installed : list (Z * TMDReader);
  stored : list Z;
  importing : option TMDReader;
  written : list Z;
  current : Z;
  server : list (string * bytes);
  answers : list bool;
  progress : list bool
}.

Definition blank : Sim := mkSim [] [] [] None [] 0 [] [] [].

Definition with_nand (s : Sim) tk ins sto imp wr cur : Sim :=
  mkSim tk ins sto imp wr cur (server s) (answers s) (progress s).

(** A certificate chain that starts with a zero byte is not signed by the
    vendor.  A lenient ES accepts it when signature checks are off; a strict
    one never does. *)
Definition unsigned (certs : bytes) : bool :=
  match certs with
  | x00 :: _ => true
  | _ => false
  end.

Definition refuses (lenient : bool) (certs : bytes) (checks : bool) : bool :=
  ((checks || negb lenient) && unsigned certs)%bool.

Definition sim_ImportTicket (lenient : bool) (ticket certs : bytes) (checks : bool) (s : Sim)
  : Z * Sim :=
  if refuses lenient certs checks then (-2011, s)
  else (0, with_nand s (ticket :: tickets s) (installed s) (stored s)
                     (importing s) (written s) (current s)).

Definition sim_ImportTitleInit (lenient : bool) (tmd certs : bytes) (checks : bool) (s : Sim)
  : Z * Sim :=
  if refuses lenient certs checks then (-2011, s)
  else (0, with_nand s (tickets s) (installed s) (stored s)
                     (Some (mkTMD tmd)) [] (current s)).

Definition sim_ImportContentBegin (title_id cid : Z) (s : Sim) : Z * Sim :=
  match importing s with
  | None => (-1017, s)
  | Some _ => (0, with_nand s (tickets s) (installed s) (stored s)
                           (importing s) (written s) cid)
  end.

Definition sim_ImportContentData (data : bytes) (s : Sim) : Z * Sim :=
  match data with
  | [] => (-1017, s)
  | _ :: _ => (0, s)
  end.

Definition sim_ImportContentEnd (s : Sim) : Z * Sim :=
  (0, with_nand s (tickets s) (installed s) (stored s)
                (importing s) (current s :: written s) (current s)).

Definition sim_ImportTitleDone (s : Sim) : Z * Sim :=
  match importing s with
  | None => (-1017, s)
  | Some tmd =>
      (0, with_nand s (tickets s)
            ((GetTitleId wii tmd, tmd) :: installed s)
            (written s ++ stored s) None [] (current s))
  end.

Definition sim_ImportTitleCancel (s : Sim) : Z * Sim :=
  (0, with_nand s (tickets s) (installed s) (stored s) None [] (current s)).

Fixpoint same_bytes (a b : bytes) : bool :=
  match a, b with
  | [], [] => true
  | x :: a', y :: b' => (Byte.eqb x y && same_bytes a' b')%bool
  | _, _ => false
  end.

Definition sim_DeleteTicket (ticket : bytes) (s : Sim) : Z * Sim :=
  (0, with_nand s (List.filter (fun t => negb (same_bytes t ticket)) (tickets s))
                (installed s) (stored s) (importing s) (written s) (current s)).

Definition sim_FindInstalledTMD (title_id : Z) (s : Sim) : TMDReader :=
  match find (fun e => fst e =? title_id) (installed s) with
  | Some e => snd e
  | None => empty_TMD
  end.

Definition sim_present (s : Sim) (c : Content) : bool :=
  existsb (Z.eqb (content_id c)) (stored s).

Definition sim_GetStoredContentsFromTMD (tmd : TMDReader) (s : Sim) : list Content :=
  List.filter (sim_present s) (GetContents wii tmd).

Definition sim_Get (url : string) (s : Sim) : option bytes * Sim :=
  (option_map snd (find (fun e => String.eqb (fst e) url) (server s)), s).

Definition sim_AskYesNo (s : Sim) : bool * Sim :=
  match answers s with
  | [] => (false, s)
  | a :: rest =>
      (a, mkSim (tickets s) (installed s) (stored s) (importing s) (written s)
                (current s) (server s) rest (progress s))
  end.

Definition sim_callback (processed total : nat) (title_id : Z) (s : Sim) : bool * Sim :=
  match progress s with
  | [] => (true, s)
  | a :: rest =>
      (a, mkSim (tickets s) (installed s) (stored s) (importing s) (written s)
                (current s) (server s) (answers s) rest)
  end.

Definition env (lenient : bool) : Env Sim :=
  mkEnv Sim (sim_ImportTicket lenient) (sim_ImportTitleInit lenient) sim_ImportContentBegin
        sim_ImportContentData sim_ImportContentEnd sim_ImportTitleDone
        sim_ImportTitleCancel sim_DeleteTicket sim_FindInstalledTMD
        sim_GetStoredContentsFromTMD (fun _ => (0, 305419896))
        sim_Get (fun url _ => sim_Get url) sim_AskYesNo sim_callback.

Definition start (s : Sim) (checks : bool) : World Sim := mkWorld s checks [].

End Wii.


(** ** Sample inputs *)
Module Examples.
Import Wii.

(** The simulated collaborators with a lenient and with a strict ES. *)
Definition lenient : Env Sim := env true.
Definition strict : Env Sim := env false.

(** An application title with two contents and no required system title. *)
Definition APP : Z := 281479271677957.
Definition app_tmd : bytes := make_tmd 0 APP 3 [7; 9].

(** A system title (IOS 58) with one content, and an application that
    requires it. *)
Definition IOS58 : Z := 4294967354.
Definition ios_tmd : bytes := make_tmd 0 IOS58 6 [1].
Definition GAME : Z := 281479271677958.
Definition game_tmd : bytes := make_tmd IOS58 GAME 2 [5].

(** An application whose metadata names a required title that is not a
    system title. *)
Definition ODD : Z := 281479271677959.
Definition odd_tmd : bytes := make_tmd APP ODD 1 [4].

Definition signed : bytes := [x01].
Definition not_signed : bytes := [x00].
Definition a_ticket : bytes := repeat x02 676.

Definition wad (certs : bytes) : WiiWAD :=
  mkWAD true (mkTMD app_tmd) a_ticket certs (fun index => [byte_of index; x2a]).

Definition PREFIX : string := "http://ccs.example/ccs/download".

(** What the update server holds for a title. *)
Definition served (title_id : Z) (tmd_name : string) (tmd : bytes) (cids : list Z)
  : list (string * bytes) :=
  [ ((PREFIX ++ "/" ++ hex_fixed 16 title_id ++ "/cetk")%string, a_ticket ++ signed);
    ((PREFIX ++ "/" ++ hex_fixed 16 title_id ++ "/" ++ tmd_name)%string, tmd ++ signed) ]
  ++ map (fun cid => ((PREFIX ++ "/" ++ hex_fixed 16 title_id ++ "/" ++ hex_fixed 8 cid)%string,
                      [byte_of cid; x2a])) cids.

(** A catalog response as the parser hands it over: one title, the content
    prefix given with the encrypted scheme. *)
Definition catalog_of (error_code : string) (title_nodes : list xml_node) : xml_node :=
  XmlNode "" "" [
    XmlNode "soapenv:Envelope" "" [
      XmlNode "soapenv:Body" "" [
        XmlNode "GetSystemUpdateResponse" "" ([
          XmlNode "Version" "1.0" [];
          XmlNode "ErrorCode" error_code [];
          XmlNode "ContentPrefixURL" "https://ccs.example/ccs/download" [];
          XmlNode "UncachedContentPrefixURL" "https://ccs.example/ccs/download" []]
          ++ title_nodes)]]].

Definition title_node (title_id title_version : string) : xml_node :=
  XmlNode "TitleVersion" "" [
    XmlNode "TitleId" title_id [];
    XmlNode "Version" title_version [];
    XmlNode "FsSize" "262144" []].

Definition catalog : xml_node := catalog_of "0" [title_node "0001000100000005" "3"].

(** The platform with a parser that yields that catalog. *)
Definition wii_catalog : Platform := platform (fun _ => Some catalog).

Definition server : list (string * bytes) :=
  (NUS_URL, [x3c]) ::
  served APP "tmd.3" app_tmd [7; 9] ++
  served IOS58 "tmd" ios_tmd [1] ++
  served GAME "tmd.2" game_tmd [5] ++
  served ODD "tmd.1" odd_tmd [4].

(** An empty NAND in front of that server. *)
Definition nand : Sim := mkSim [] [] [] None [] 0 server [] [].

(** The same with a user who answers the prompts as listed. *)
Definition nand_asked (user : list bool) : Sim :=
  mkSim [] [] [] None [] 0 server user [].

(** The same with content 7 already in place. *)
Definition nand_with_7 : Sim := mkSim [] [] [7] None [] 0 server [] [].

(** A NAND that holds the application at version 3 with both contents. *)
Definition nand_up_to_date : Sim :=
  mkSim [] [(APP, mkTMD app_tmd)] [7; 9] None [] 0 server [] [].

(** The same with a progress callback that answers as listed. *)
Definition nand_progress (answers_given : list bool) : Sim :=
  mkSim [] [] [] None [] 0 server [] answers_given.

(** A package whose second content cannot be imported. *)
Definition wad_broken : WiiWAD :=
  mkWAD true (mkTMD app_tmd) a_ticket signed (fun index => if index =? 1 then [] else [x2a]).

(** The runs of the examples. *)
Definition run_wad_broken : Res Sim bool :=
  InstallWAD wii lenient 1 wad_broken (start nand true).

Definition run_game : Res Sim (UpdateResult * gset Z) :=
  InstallTitleFromNUS wii lenient 2 PREFIX (mkTitle GAME 2) ∅ (start nand true).

Definition run_odd : Res Sim (UpdateResult * gset Z) :=
  InstallTitleFromNUS wii lenient 2 PREFIX (mkTitle ODD 1) ∅ (start nand true).

Definition run_wad_retry : Res Sim bool :=
  InstallWAD wii lenient 2 (wad not_signed) (start (nand_asked [true]) true).

Definition run_wad_strict : Res Sim bool :=
  InstallWAD wii strict 3 (wad not_signed) (start (nand_asked [true; true]) true).

Definition run_wad_with_7 : Res Sim bool :=
  InstallWAD wii lenient 1 (wad signed) (start nand_with_7 true).

(** The same NAND once a title import of the application has been
    initialised. *)
Definition nand_importing : Sim :=
  mkSim [] [] [7] (Some (mkTMD app_tmd)) [] 0 server [] [].

Definition stored_with_7 : list Content :=
  sim_GetStoredContentsFromTMD (mkTMD app_tmd) nand_with_7.

Definition run_nus_contents_with_7 : Res Sim UpdateResult :=
  nus_contents lenient PREFIX (mkTitle APP 3) stored_with_7
               (GetContents wii (mkTMD app_tmd)) (start nand_importing true).

Definition run_wad_contents_with_7 : Res Sim bool :=
  wad_contents lenient (wad signed) APP (GetContents wii (mkTMD app_tmd))
               (start nand_importing true).

Definition two_titles : list TitleInfo := [mkTitle APP 3; mkTitle GAME 2].

Definition run_loop_cancelled : Res Sim (option UpdateResult * gset Z) :=
  update_loop wii lenient 2 PREFIX 2 two_titles 0 ∅
              (start (nand_progress [true; false; false]) true).

Definition run_up_to_date : Res Sim UpdateResult :=
  OnlineSystemUpdater_DoOnlineUpdate wii_catalog lenient 2 EmptyString
                                     (start nand_up_to_date true).

Definition run_fresh : Res Sim UpdateResult :=
  OnlineSystemUpdater_DoOnlineUpdate wii_catalog lenient 2 EmptyString (start nand true).

(** The world a run returns to, for naming the worlds between the steps of
    an example. *)
Definition after {St A} (run : Res St A) (otherwise : World St) : World St :=
  match run with
  | Ret _ w => w
  | _ => otherwise
  end.

End Examples.
(** ** Vocabulary of the properties *)

(** Where the title-import context stands after a sequence of calls.  A
    successful [ImportTitleInit] opens it, [ImportTitleDone] and
    [ImportTitleCancel] settle it.  Opening a context while one is open, and
    settling when none is open (so also settling twice), is [Broken], for
    good. *)
Inductive ctx : Type := Closed | Open | Broken.

Definition ctx_step (c : ctx) (e : Event) : ctx :=
  match e, c with
  | EvImportTitleInit _ _ _ r, Closed => if r <? 0 then Closed else Open
  | EvImportTitleInit _ _ _ _, Open => Broken
  | EvImportTitleDone _, Open => Closed
  | EvImportTitleCancel _, Open => Closed
  | EvImportTitleDone _, Closed => Broken
  | EvImportTitleCancel _, Closed => Broken
  | _, c => c
  end.

Definition ctx_run (c : ctx) (log : list Event) : ctx := fold_left ctx_step log c.

(** How many contexts a log opens, and how many commits and cancels it
    holds. *)
Definition opens (e : Event) : bool :=
  match e with
  | EvImportTitleInit _ _ _ r => negb (r <? 0)
  | _ => false
  end.

Definition settles (e : Event) : bool :=
  match e with
  | EvImportTitleDone _ | EvImportTitleCancel _ => true
  | _ => false
  end.

Definition count (p : Event -> bool) (log : list Event) : nat :=
  length (List.filter p log).

(** [wp c Q w]: if [c] returns from [w], the value and the world it returns
    satisfy [Q]. *)
Definition wp {St A} (c : M St A) (Q : A -> World St -> Prop) (w : World St) : Prop :=
  match c w with
  | Ret a w' => Q a w'
  | OutOfFuel => True
  | Crash => True
  end.


(** [w'] has the log of [w] followed by calls that satisfy [Phi]. *)
Definition grows {St} (w w' : World St) (Phi : list Event -> Prop) : Prop :=
  exists evs, calls w' = calls w ++ evs /\ Phi evs.

(** The content phase as the specification words it, for the update
    planner: the entries are taken in list order; an entry already present in
    secure storage is skipped without a call; any other entry is imported by
    begin-content, the download of its bytes, content-data and end-content;
    the first failure ends the phase, with nothing done for the entries after
    it.  [nus_content_log stored contents log r]: [log] is such a phase over
    [contents], and [r] is its result. *)
Inductive nus_content_log (prefix_url : string) (title : TitleInfo) (stored : list Content)
  : list Content -> list Event -> UpdateResult -> Prop :=
| ncl_done :
    nus_content_log prefix_url title stored [] [] Succeeded
| ncl_skip c rest log r :
    is_already_installed stored c = true ->
    nus_content_log prefix_url title stored rest log r ->
    nus_content_log prefix_url title stored (c :: rest) log r
| ncl_begin_failed c rest r1 :
    is_already_installed stored c = false ->
    r1 < 0 ->
    nus_content_log prefix_url title stored (c :: rest)
      [EvImportContentBegin (id title) (content_id c) r1] ImportFailed
| ncl_download_failed c rest r1 :
    is_already_installed stored c = false ->
    0 <= r1 ->
    nus_content_log prefix_url title stored (c :: rest)
      [EvImportContentBegin (id title) (content_id c) r1;
       EvHttpGet (url_content prefix_url title (content_id c)) false] DownloadFailed
| ncl_data_failed c rest r1 data r2 :
    is_already_installed stored c = false ->
    0 <= r1 -> r2 < 0 ->
    nus_content_log prefix_url title stored (c :: rest)
      [EvImportContentBegin (id title) (content_id c) r1;
       EvHttpGet (url_content prefix_url title (content_id c)) true;
       EvImportContentData data r2] ImportFailed
| ncl_end_failed c rest r1 data r2 r3 :
    is_already_installed stored c = false ->
    0 <= r1 -> 0 <= r2 -> r3 < 0 ->
    nus_content_log prefix_url title stored (c :: rest)
      [EvImportContentBegin (id title) (content_id c) r1;
       EvHttpGet (url_content prefix_url title (content_id c)) true;
       EvImportContentData data r2;
       EvImportContentEnd r3] ImportFailed
| ncl_imported c rest r1 data r2 r3 log r :
    is_already_installed stored c = false ->
    0 <= r1 -> 0 <= r2 -> 0 <= r3 ->
    nus_content_log prefix_url title stored rest log r ->
    nus_content_log prefix_url title stored (c :: rest)
      (EvImportContentBegin (id title) (content_id c) r1 ::
       EvHttpGet (url_content prefix_url title (content_id c)) true ::
       EvImportContentData data r2 ::
       EvImportContentEnd r3 :: log) r.

(** The same for the direct package install, as the code has it: no entry is
    skipped, the bytes of an entry come from the package, and a failure is
    reported to the user. *)
Definition wad_content_alert (c : Content) : Event :=
  EvPanicAlert ("WAD installation failed: Could not import content "
                  ++ hex_fixed 8 (content_id c) ++ ".").

Inductive wad_content_log (wad : WiiWAD) (title_id : Z)
  : list Content -> list Event -> bool -> Prop :=
| wcl_done :
    wad_content_log wad title_id [] [] true
| wcl_begin_failed c rest r1 :
    r1 < 0 ->
    wad_content_log wad title_id (c :: rest)
      [EvImportContentBegin title_id (content_id c) r1; wad_content_alert c] false
| wcl_data_failed c rest r1 r2 :
    0 <= r1 -> r2 < 0 ->
    wad_content_log wad title_id (c :: rest)
      [EvImportContentBegin title_id (content_id c) r1;
       EvImportContentData (wad_GetContent wad (content_index c)) r2;
       wad_content_alert c] false
| wcl_end_failed c rest r1 r2 r3 :
    0 <= r1 -> 0 <= r2 -> r3 < 0 ->
    wad_content_log wad title_id (c :: rest)
      [EvImportContentBegin title_id (content_id c) r1;
       EvImportContentData (wad_GetContent wad (content_index c)) r2;
       EvImportContentEnd r3;
       wad_content_alert c] false
| wcl_imported c rest r1 r2 r3 log b :
    0 <= r1 -> 0 <= r2 -> 0 <= r3 ->
    wad_content_log wad title_id rest log b ->
    wad_content_log wad title_id (c :: rest)
      (EvImportContentBegin title_id (content_id c) r1 ::
       EvImportContentData (wad_GetContent wad (content_index c)) r2 ::
       EvImportContentEnd r3 :: log) b.

(** The claim that an install makes no begin-content call for an entry that
    secure storage already holds. *)
Definition skips_stored (stored : list Content) (log : list Event) : Prop :=
  forall c title_id r,
    In c stored -> ~ In (EvImportContentBegin title_id (content_id c) r) log.

(** The call that settles a context: commit after a content phase that
    succeeded, cancel otherwise. *)
Definition settle_event (r : UpdateResult) (rf : Z) : Event :=
  if is_Succeeded r then EvImportTitleDone rf else EvImportTitleCancel rf.

(** The log of lines 379-436 of [InstallTitleFromNUS]: a title-init; if it
    succeeded, a content phase and one settling call.  The result is the one
    of the content phase unless the settling call fails. *)
Inductive nus_import_log (prefix_url : string) (title : TitleInfo)
    (contents : list Content) (tmd certs : bytes) (checks : bool)
  : list Event -> UpdateResult -> Prop :=
| nil_init_failed r0 :
    r0 < 0 ->
    nus_import_log prefix_url title contents tmd certs checks
      [EvImportTitleInit tmd certs checks r0] ImportFailed
| nil_settled r0 stored clog r rf :
    0 <= r0 ->
    nus_content_log prefix_url title stored contents clog r ->
    nus_import_log prefix_url title contents tmd certs checks
      (EvImportTitleInit tmd certs checks r0 :: clog ++ [settle_event r rf])
      (if rf <? 0 then ImportFailed else r).

(** The log of one call of [InstallTitleFromNUS], the install of a required
    system title included. *)
Inductive nus_log (P : Platform) (prefix_url : string) (checks : bool)
  : TitleInfo -> list Event -> UpdateResult -> Prop :=
| nl_nothing title :
    nus_log P prefix_url checks title [] Succeeded
| nl_no_ticket title answered :
    nus_log P prefix_url checks title
      [EvHttpGet (url_cetk prefix_url title) answered] DownloadFailed
| nl_ticket_refused title ticket certs r :
    r < 0 ->
    nus_log P prefix_url checks title
      [EvHttpGet (url_cetk prefix_url title) true;
       EvImportTicket ticket certs checks r] ImportFailed
| nl_no_tmd title ticket certs r answered :
    0 <= r ->
    nus_log P prefix_url checks title
      [EvHttpGet (url_cetk prefix_url title) true;
       EvImportTicket ticket certs checks r;
       EvHttpGet (url_tmd prefix_url title) answered] DownloadFailed
| nl_required_failed title ticket certs r answered tmd ioslog res :
    0 <= r ->
    nus_log P prefix_url checks (mkTitle (GetIOSId P tmd) 0) ioslog res ->
    res <> Succeeded ->
    nus_log P prefix_url checks title
      ([EvHttpGet (url_cetk prefix_url title) true;
        EvImportTicket ticket certs checks r;
        EvHttpGet (url_tmd prefix_url title) answered] ++ ioslog) res
| nl_import title ticket certs r answered tmd tmd_certs ioslog ilog res :
    0 <= r ->
    nus_log P prefix_url checks (mkTitle (GetIOSId P tmd) 0) ioslog Succeeded ->
    nus_import_log prefix_url title (GetContents P tmd) (GetBytes tmd) tmd_certs checks
                   ilog res ->
    nus_log P prefix_url checks title
      ([EvHttpGet (url_cetk prefix_url title) true;
        EvImportTicket ticket certs checks r;
        EvHttpGet (url_tmd prefix_url title) answered] ++ ioslog ++ ilog) res.

(** [a] is what the collaborator [f] answers in some state. *)
Definition answers {St A} (f : St -> A * St) (a : A) : Prop :=
  exists s, fst (f s) = a.

(** The log of one pass through the condition of the [while] loop of
    [InstallWAD], and the return code the loop body then looks at. *)
Inductive attempt_log {St} (E : Env St) (wad : WiiWAD) (checks : bool)
  : list Event -> Z -> Prop :=
| al_ticket_refused r :
    r < 0 ->
    answers (ES_ImportTicket E (wad_GetTicket wad) (wad_GetCertificateChain wad) checks) r ->
    attempt_log E wad checks
      [EvImportTicket (wad_GetTicket wad) (wad_GetCertificateChain wad) checks r] r
| al_ticket_imported r1 r :
    0 <= r1 ->
    answers (ES_ImportTitleInit E (GetBytes (wad_GetTMD wad))
                                (wad_GetCertificateChain wad) checks) r ->
    attempt_log E wad checks
      [EvImportTicket (wad_GetTicket wad) (wad_GetCertificateChain wad) checks r1;
       EvImportTitleInit (GetBytes (wad_GetTMD wad)) (wad_GetCertificateChain wad)
                         checks r] r.

Definition alert_initialise : Event :=
  EvPanicAlert "WAD installation failed: Could not initialise title import.".

Definition alert_finalise : Event :=
  EvPanicAlert "WAD installation failed: Could not finalise title import.".

Definition alert_invalid : Event :=
  EvPanicAlert "WAD installation failed: The selected file is not a valid WAD.".

(** The log of the loop.  [checks_enabled] is the setting at entry of
    [InstallWAD], [checks] the setting when this pass starts.  The loop goes
    round again only after the signature error, with checks enabled at entry
    and a prompt that the user confirmed, and then runs with checks off. *)
Inductive wad_loop_log {St} (P : Platform) (E : Env St) (wad : WiiWAD) (checks_enabled : bool)
  : bool -> list Event -> bool -> Prop :=
| wl_entered checks log r :
    attempt_log E wad checks log r -> 0 <= r ->
    wad_loop_log P E wad checks_enabled checks log true
| wl_failed checks log r :
    attempt_log E wad checks log r -> r < 0 ->
    (checks_enabled && (r =? IOSC_FAIL_CHECKVALUE P))%bool = false ->
    wad_loop_log P E wad checks_enabled checks (log ++ [alert_initialise]) false
| wl_declined checks log r :
    attempt_log E wad checks log r -> r < 0 ->
    checks_enabled = true -> r = IOSC_FAIL_CHECKVALUE P ->
    wad_loop_log P E wad checks_enabled checks
      (log ++ [EvAskYesNo false; alert_initialise]) false
| wl_retry checks log r rest b :
    attempt_log E wad checks log r -> r < 0 ->
    checks_enabled = true -> r = IOSC_FAIL_CHECKVALUE P ->
    wad_loop_log P E wad checks_enabled false rest b ->
    wad_loop_log P E wad checks_enabled checks (log ++ EvAskYesNo true :: rest) b.

Definition wad_settle_event (contents_imported : bool) (rf : Z) : Event :=
  if contents_imported then EvImportTitleDone rf else EvImportTitleCancel rf.

(** The log of [InstallWAD] and the value it returns. *)
Inductive wad_log {St} (P : Platform) (E : Env St) (wad : WiiWAD) (checks_enabled : bool)
  : list Event -> bool -> Prop :=
| wg_invalid :
    wad_IsValid wad = false ->
    wad_log P E wad checks_enabled [alert_invalid] false
| wg_not_initialised log :
    wad_IsValid wad = true ->
    wad_loop_log P E wad checks_enabled checks_enabled log false ->
    wad_log P E wad checks_enabled log false
| wg_settled log clog contents_imported rf :
    wad_IsValid wad = true ->
    wad_loop_log P E wad checks_enabled checks_enabled log true ->
    wad_content_log wad (GetTitleId P (wad_GetTMD wad)) (GetContents P (wad_GetTMD wad))
                    clog contents_imported ->
    wad_log P E wad checks_enabled
      (log ++ clog ++ [wad_settle_event contents_imported rf;
                       if rf <? 0 then alert_finalise else EvClearCache])
      (negb (rf <? 0)).

(** Counting calls in a log. *)
Definition is_ticket_import (e : Event) : bool :=
  match e with EvImportTicket _ _ _ _ => true | _ => false end.

Definition is_confirmation (e : Event) : bool :=
  match e with EvAskYesNo true => true | _ => false end.

Definition is_prompt (e : Event) : bool :=
  match e with EvAskYesNo _ => true | _ => false end.

Definition failed_import (e : Event) : bool :=
  match e with
  | EvImportTicket _ _ _ r => r <? 0
  | EvImportTitleInit _ _ _ r => r <? 0
  | _ => false
  end.

Definition runs_unchecked (e : Event) : Prop :=
  match e with
  | EvImportTicket _ _ checks _ => checks = false
  | EvImportTitleInit _ _ checks _ => checks = false
  | _ => True
  end.

(** The claim that the ticket import is retried at most once. *)
Definition retries_at_most_once (log : list Event) : Prop :=
  (count is_ticket_import log <= 2)%nat.

(** Secure storage never reports the signature error while signature checks
    are off. *)
Definition honours_policy {St} (P : Platform) (E : Env St) : Prop :=
  forall a b s,
    fst (ES_ImportTicket E a b false s) <> IOSC_FAIL_CHECKVALUE P /\
    fst (ES_ImportTitleInit E a b false s) <> IOSC_FAIL_CHECKVALUE P.

(** What follows the first confirmed prompt of a log. *)
Fixpoint after_first_confirmation (log : list Event) : list Event :=
  match log with
  | [] => []
  | e :: rest => if is_confirmation e then rest else after_first_confirmation rest
  end.

(** Whatever calls follow a confirmed prompt run with checks off. *)
Definition unchecked_after_confirmation (log : list Event) : Prop :=
  Forall runs_unchecked (after_first_confirmation log).

(** Nothing is called after a failed ticket import or title-init. *)
Fixpoint failed_import_is_last (log : list Event) : Prop :=
  match log with
  | [] => True
  | e :: rest => (failed_import e = true -> rest = []) /\ failed_import_is_last rest
  end.

(** The first call of an install of title [title_id] at version 0 from the
    update server is the download of its ticket. *)
Definition fetches_ticket_of (prefix_url : string) (title_id : Z) (e : Event) : bool :=
  match e with
  | EvHttpGet url _ => String.eqb url (url_cetk prefix_url (mkTitle title_id 0))
  | _ => false
  end.

(** The claim that the install of a required title is started somewhere in
    a log. *)
Definition installs_required (prefix_url : string) (ios_id : Z) (log : list Event) : Prop :=
  (0 < count (fetches_ticket_of prefix_url ios_id) log)%nat.

Definition starts_with_title_init (tmd certs : bytes) (log : list Event) : Prop :=
  exists checks r rest, log = EvImportTitleInit tmd certs checks r :: rest.

(** The log of the [for] loop of [DoOnlineUpdate] from the title counted
    [processed] on, and how the loop ends: [None] when every title has been
    handled.  Each title starts with a progress callback; a refusal ends the
    loop there with [Cancelled], before any call for the title; a title that
    was handled is followed by one more callback, whatever it answers. *)
Inductive loop_log (P : Platform) (prefix_url : string) (checks : bool) (total : nat)
  : list TitleInfo -> nat -> list Event -> option UpdateResult -> Prop :=
| ll_done processed :
    loop_log P prefix_url checks total [] processed [] None
| ll_cancelled title rest processed :
    loop_log P prefix_url checks total (title :: rest) processed
      [EvCallback processed total (id title) false] (Some Cancelled)
| ll_failed title rest processed ilog res :
    nus_log P prefix_url checks title ilog res ->
    res <> Succeeded ->
    loop_log P prefix_url checks total (title :: rest) processed
      (EvCallback processed total (id title) true :: ilog) (Some res)
| ll_next title rest processed ilog answer log out :
    nus_log P prefix_url checks title ilog Succeeded ->
    loop_log P prefix_url checks total rest (S processed) log out ->
    loop_log P prefix_url checks total (title :: rest) processed
      (EvCallback processed total (id title) true :: ilog ++
       EvCallback (S processed) total (id title) answer :: log) out.

(** The claim that the decoder returns the empty result when the expected
    root node is present. *)
Definition empty_when_root_present (P : Platform) (response : bytes) : Prop :=
  forall doc node,
    load_buffer P response = Some doc ->
    select_node "GetSystemUpdateResponse" doc = Some node ->
    ParseTitlesResponse P response = Ok empty_Response.

(** A [TitleVersion] node and the title it stands for: the id is what
    [std::stoull] makes of the text of [TitleId] in base 16, the version what
    [as_uint] makes of the text of [Version], cut to 16 bits. *)
Definition decodes_to (P : Platform) (title_node : xml_node) (t : TitleInfo) : Prop :=
  stoull16 P (child_text "TitleId" title_node) = Some (id t) /\
  version t = wrap 16 (as_uint P (child_text "Version" title_node)).

(** How the result of an update run comes about. *)
Definition run_explained {St} (P : Platform) (E : Env St) (fuel : nat) (region : string)
    (w : World St) (r : UpdateResult) (w' : World St) : Prop :=
  exists info w0,
    GetSystemTitles P E region w = Ret info w0 /\
    match titles info with
    | [] => r = ServerFailed /\ w' = w0
    | _ :: _ =>
        exists out,
          update_loop P E fuel (content_prefix_url info) (length (titles info))
                      (titles info) 0 ∅ w0 = Ret out w' /\
          match fst out with
          | Some res =>
              r = res /\ (res = Cancelled \/ res = DownloadFailed \/ res = ImportFailed)
          | None =>
              (snd out = ∅ /\ r = AlreadyUpToDate) \/ (snd out <> ∅ /\ r = Succeeded)
          end
    end.

(** [c] keeps [I]: from a world where [I] holds it returns, if it returns,
    to a world where [I] holds. *)
Definition invariant {St A} (I : World St -> Prop) (c : M St A) : Prop :=
  forall w, I w -> wp c (fun _ w' => I w') w.

(** [T ticket s]: secure storage, in state [s], holds [ticket].  The log
    and the storage agree when every ticket whose import the log records as
    successful is held. *)
Definition tickets_kept {St} (T : bytes -> St -> Prop) (w : World St) : Prop :=
  forall ticket certs checks r,
    In (EvImportTicket ticket certs checks r) (calls w) -> 0 <= r -> T ticket (ext w).

(** What is asked of the collaborators: a successful ticket import leaves
    the ticket in storage, and a held ticket stays through a ticket import,
    the title-import calls (init, content begin, data and end, done, cancel),
    a download and a prompt.  Nothing is asked of [ES_DeleteTicket]. *)
Record keeps_tickets {St} (E : Env St) (T : bytes -> St -> Prop) : Prop := {
  kt_imported : forall ticket certs checks s,
      0 <= fst (ES_ImportTicket E ticket certs checks s) ->
      T ticket (snd (ES_ImportTicket E ticket certs checks s));
  kt_ticket : forall t ticket certs checks s,
      T t s -> T t (snd (ES_ImportTicket E ticket certs checks s));
  kt_init : forall t tmd certs checks s,
      T t s -> T t (snd (ES_ImportTitleInit E tmd certs checks s));
  kt_begin : forall t title_id cid s,
      T t s -> T t (snd (ES_ImportContentBegin E title_id cid s));
  kt_data : forall t data s, T t s -> T t (snd (ES_ImportContentData E data s));
  kt_end : forall t s, T t s -> T t (snd (ES_ImportContentEnd E s));
  kt_done : forall t s, T t s -> T t (snd (ES_ImportTitleDone E s));
  kt_cancel : forall t s, T t s -> T t (snd (ES_ImportTitleCancel E s));
  kt_get : forall t url s, T t s -> T t (snd (Http_Get E url s));
  kt_ask : forall t s, T t s -> T t (snd (AskYesNoT E s))
}.

From Stdlib Require DecimalN.

(** ** Vocabulary of the further properties *)

(** A call on secure storage that returned an error. *)
Definition failed_es (e : Event) : bool :=
  match e with
  | EvImportTicket _ _ _ r => r <? 0
  | EvImportTitleInit _ _ _ r => r <? 0
  | EvImportContentBegin _ _ r => r <? 0
  | EvImportContentData _ r => r <? 0
  | EvImportContentEnd r => r <? 0
  | EvImportTitleDone r => r <? 0
  | EvImportTitleCancel r => r <? 0
  | _ => false
  end.

(** A download that got no answer. *)
Definition unanswered (e : Event) : bool :=
  match e with
  | EvHttpGet _ answered => negb answered
  | _ => false
  end.

Definition is_cancel (e : Event) : bool :=
  match e with EvImportTitleCancel _ => true | _ => false end.

(** A title import that was committed. *)
Definition commits (e : Event) : bool :=
  match e with EvImportTitleDone r => negb (r <? 0) | _ => false end.

Definition is_done (e : Event) : bool :=
  match e with EvImportTitleDone _ => true | _ => false end.

Definition is_cache_clear (e : Event) : bool :=
  match e with EvClearCache => true | _ => false end.

Definition is_alert (e : Event) : bool :=
  match e with EvPanicAlert _ => true | _ => false end.

Definition is_post (e : Event) : bool :=
  match e with EvHttpPost _ _ _ => true | _ => false end.

(** The content ids of the begin-content calls of a log, in order. *)
Definition begun (log : list Event) : list Z :=
  flat_map (fun e => match e with EvImportContentBegin _ cid _ => [cid] | _ => [] end) log.

(** The arguments of the progress callbacks of a log, in order. *)
Definition callback_args (log : list Event) : list (nat * nat * Z) :=
  flat_map (fun e => match e with
                     | EvCallback processed total title_id _ => [(processed, total, title_id)]
                     | _ => []
                     end) log.

(** What the loop of the update run tells the callback when it handles
    every title: each title twice, before with the number of titles handled
    so far and after with one more. *)
Fixpoint expected_callbacks (total : nat) (remaining : list TitleInfo) (processed : nat)
  : list (nat * nat * Z) :=
  match remaining with
  | [] => []
  | title :: rest =>
      (processed, total, id title) :: (S processed, total, id title)
      :: expected_callbacks total rest (S processed)
  end.

(** Begin-content calls never carry this title id. *)
Definition never_begins (title_id : Z) (e : Event) : Prop :=
  match e with
  | EvImportContentBegin t _ _ => t <> title_id
  | _ => True
  end.

(** How the set of updated titles follows the log of a run: it only grows,
    it is unchanged when the log holds no committed import, and it is not
    empty when the log holds one. *)
Definition tracks (before after : gset Z) (log : list Event) : Prop :=
  before ⊆ after /\
  (count commits log = 0%nat -> after = before) /\
  (count commits log <> 0%nat -> after <> ∅).

(** A call of the content phase that returned an error. *)
Definition failed_content (e : Event) : bool :=
  match e with
  | EvImportContentBegin _ _ r => r <? 0
  | EvImportContentData _ r => r <? 0
  | EvImportContentEnd r => r <? 0
  | _ => false
  end.

(** The data of the content-data calls of a log, in order. *)
Definition written (log : list Event) : list bytes :=
  flat_map (fun e => match e with EvImportContentData data _ => [data] | _ => [] end) log.

(** The entries of a content list that secure storage does not hold yet. *)
Definition missing (stored_contents contents : list Content) : list Content :=
  List.filter (fun c => negb (is_already_installed stored_contents c)) contents.

(** A system title that is not installed and whose metadata, as the server
    hands it out for version 0, names the title itself as the system title it
    requires.  [Inv] is what stays true of the collaborators' state while the
    server keeps answering and secure storage keeps accepting the ticket. *)
Record requires_itself {St} (P : Platform) (E : Env St) (prefix_url : string)
    (title_id : Z) (Inv : St -> Prop) : Prop := {
  ri_not_boot2 : title_id <> BOOT2 P;
  ri_system : title_id <> 0 /\ IsSystemTitle P title_id = true;
  ri_missing : forall s, Inv s -> IsValid P (ES_FindInstalledTMD E title_id s) = false;
  ri_ticket : forall s, Inv s ->
    exists body ticket certs s',
      Http_Get E (url_cetk prefix_url (mkTitle title_id 0)) s = (Some body, s') /\
      SplitTicket P body = Ok (ticket, certs) /\
      ticket <> [] /\ certs <> [] /\
      forall checks,
        0 <= fst (ES_ImportTicket E ticket certs checks s') /\
        Inv (snd (ES_ImportTicket E ticket certs checks s'));
  ri_tmd : forall s, Inv s ->
    exists body tmd s',
      Http_Get E (url_tmd prefix_url (mkTitle title_id 0)) s = (Some body, s') /\
      SplitTMD P body = Ok tmd /\
      IsValid P (fst tmd) = true /\
      GetIOSId P (fst tmd) = title_id /\
      Inv s'
}.

(** A server that hands out, for a system title, metadata that requires
    that very title, and a console that does not have it. *)
Definition loop_tmd : bytes := Wii.make_tmd Examples.IOS58 Examples.IOS58 0 [1].

Definition loop_server : list (string * bytes) :=
  Examples.served Examples.IOS58 "tmd" loop_tmd [1].

Definition loop_nand : Wii.Sim := Wii.mkSim [] [] [] None [] 0 loop_server [] [].

Definition loop_state (s : Wii.Sim) : Prop :=
  Wii.server s = loop_server /\ Wii.installed s = [].

(** A catalog whose one title has an id that is not hexadecimal. *)
Definition garbled_catalog : Platform :=
  Wii.platform (fun _ => Some (Examples.catalog_of "0" [Examples.title_node "xyz" "3"])).
(** * Properties *)

(** ** Reasoning about runs *)

Lemma wp_elim {St A} (c : M St A) (Q : A -> World St -> Prop) w a w' :
  wp c Q w -> c w = Ret a w' -> Q a w'.
Proof. unfold wp. intros H Heq. now rewrite Heq in H. Qed.

Lemma wp_intro {St A} (c : M St A) (Q : A -> World St -> Prop) w :
  (forall a w', c w = Ret a w' -> Q a w') -> wp c Q w.
Proof. unfold wp. intros H. destruct (c w); auto. Qed.

Lemma wp_conseq {St A} (c : M St A) (Q Q' : A -> World St -> Prop) w :
  wp c Q w -> (forall a w', Q a w' -> Q' a w') -> wp c Q' w.
Proof. unfold wp. intros H HQ. destruct (c w); auto. Qed.

Lemma wp_bind {St A B} (c : M St A) (k : A -> M St B) (Q : B -> World St -> Prop) w :
  wp c (fun a w' => wp (k a) Q w') w -> wp (bind c k) Q w.
Proof. unfold wp, bind. destruct (c w); auto. Qed.

Lemma wp_ret {St A} (a : A) (Q : A -> World St -> Prop) w :
  Q a w -> wp (ret a) Q w.
Proof. auto. Qed.

Lemma wp_call {St A} (f : St -> A * St) (ev : A -> Event) (Q : A -> World St -> Prop) w :
  (forall a s, f (ext w) = (a, s) ->
     Q a (mkWorld s (m_enable_signature_checks w) (calls w ++ [ev a]))) ->
  wp (call f ev) Q w.
Proof. unfold wp, call. intros H. destruct (f (ext w)) as [a s]. now apply H. Qed.

Lemma wp_query {St A} (f : St -> A) (Q : A -> World St -> Prop) w :
  Q (f (ext w)) w -> wp (query f) Q w.
Proof. auto. Qed.

Lemma wp_emit {St} (e : Event) (Q : unit -> World St -> Prop) w :
  Q tt (mkWorld (ext w) (m_enable_signature_checks w) (calls w ++ [e])) ->
  wp (emit e) Q w.
Proof. auto. Qed.

Lemma wp_get_checks {St} (Q : bool -> World St -> Prop) w :
  Q (m_enable_signature_checks w) w -> wp get_checks Q w.
Proof. auto. Qed.

Lemma wp_set_checks {St} (b : bool) (Q : unit -> World St -> Prop) w :
  Q tt (mkWorld (ext w) b (calls w)) -> wp (set_checks b) Q w.
Proof. auto. Qed.

Lemma wp_out_of_fuel {St A} (Q : A -> World St -> Prop) w :
  wp (@out_of_fuel St A) Q w.
Proof. exact I. Qed.

Lemma wp_lift_partial {St A} (p : partial A) (Q : A -> World St -> Prop) w :
  (forall a, p = Ok a -> Q a w) -> wp (lift_partial p) Q w.
Proof. unfold wp, lift_partial. destruct p; auto. Qed.

(** One step of forward execution of the goal. *)
Ltac wp_prim :=
  lazymatch goal with
  | |- wp (bind _ _) _ _ => apply wp_bind
  | |- wp (ret _) _ _ => apply wp_ret
  | |- wp (call _ _) _ _ =>
      apply wp_call; cbn [ext m_enable_signature_checks calls]; intros ? ? ?
  | |- wp (query _) _ _ => apply wp_query
  | |- wp (emit _) _ _ => apply wp_emit
  | |- wp get_checks _ _ => apply wp_get_checks
  | |- wp (set_checks _) _ _ => apply wp_set_checks
  | |- wp out_of_fuel _ _ => apply wp_out_of_fuel
  | |- wp (lift_partial _) _ _ => apply wp_lift_partial; intros ? ?
  | |- wp (ImportTicket _ _ _) _ _ => unfold ImportTicket
  | |- wp (ImportTitleInit _ _ _) _ _ => unfold ImportTitleInit
  | |- wp (ImportContentBegin _ _ _) _ _ => unfold ImportContentBegin
  | |- wp (ImportContentData _ _) _ _ => unfold ImportContentData
  | |- wp (ImportContentEnd _) _ _ => unfold ImportContentEnd
  | |- wp (ImportTitleDone _) _ _ => unfold ImportTitleDone
  | |- wp (ImportTitleCancel _) _ _ => unfold ImportTitleCancel
  | |- wp (FindInstalledTMD _ _) _ _ => unfold FindInstalledTMD
  | |- wp (GetStoredContentsFromTMD _ _) _ _ => unfold GetStoredContentsFromTMD
  | |- wp (HttpGet _ _) _ _ => unfold HttpGet
  | |- wp (HttpPost _ _ _) _ _ => unfold HttpPost
  | |- wp (AskYesNo _) _ _ => unfold AskYesNo
  | |- wp (PanicAlertT _) _ _ => unfold PanicAlertT
  | |- wp (m_update_callback _ _ _ _) _ _ => unfold m_update_callback
  | |- wp ClearCache _ _ => unfold ClearCache
  | |- wp (DownloadContent _ _ _ _) _ _ => unfold DownloadContent
  | |- wp (DownloadTMD _ _ _ _) _ _ => unfold DownloadTMD
  | |- wp (DownloadTicket _ _ _ _) _ _ => unfold DownloadTicket
  | |- wp (ShouldInstallTitle _ _ _) _ _ => unfold ShouldInstallTitle
  end; cbv beta; cbn [ext m_enable_signature_checks calls fst snd].

Ltac wp_branch :=
  lazymatch goal with
  | |- wp (if ?b then _ else _) _ _ => destruct b eqn:?
  | |- wp (match ?x with Some _ => _ | None => _ end) _ _ => destruct x eqn:?
  | |- wp (let '(_, _) := ?x in _) _ _ => destruct x eqn:?
  end; try congruence; try discriminate.

(** Uses a proved [wp] fact about the command at the head of the goal. *)
Ltac wp_use L :=
  eapply wp_conseq; [apply L|];
  cbv beta; cbn [ext m_enable_signature_checks calls fst snd].

Ltac wp_steps := repeat (wp_prim || wp_branch).

(** The log only grows. *)
Lemma app_snoc_assoc {A} (l evs : list A) (e : A) : (l ++ evs) ++ [e] = l ++ (evs ++ [e]).
Proof. now rewrite <- app_assoc. Qed.

Lemma ctx_run_app (c : ctx) (l1 l2 : list Event) :
  ctx_run c (l1 ++ l2) = ctx_run (ctx_run c l1) l2.
Proof. apply fold_left_app. Qed.

Lemma ctx_run_Broken (l : list Event) : ctx_run Broken l = Broken.
Proof. induction l as [|e l IH]; [reflexivity|]. destruct e; exact IH. Qed.

(** ** Metadata decoding stays inside the buffer *)

Lemma read_u8_in_bounds (buf : bytes) (off : nat) :
  (off < length buf)%nat -> exists n, read_u8 buf off = Ok n.
Proof.
  intros Hlt. unfold read_u8.
  destruct (nth_error buf off) as [b|] eqn:Hn.
  - eauto.
  - apply nth_error_None in Hn. lia.
Qed.

Lemma swap16_in_bounds (buf : bytes) (off : nat) :
  (off + 2 <= length buf)%nat -> exists n, swap16 buf off = Ok n.
Proof.
  intros Hle. unfold swap16.
  destruct (read_u8_in_bounds buf off) as [hi ->]; [lia|].
  destruct (read_u8_in_bounds buf (S off)) as [lo ->]; [lia|].
  eauto.
Qed.

Lemma vec_range_in_bounds (buf : bytes) (first last : nat) :
  (first <= last <= length buf)%nat ->
  vec_range buf first last = Ok (firstn (last - first) (skipn first buf)).
Proof.
  intros [H1 H2]. unfold vec_range.
  apply Nat.leb_le in H1, H2. now rewrite H1, H2.
Qed.

(** No response makes the decoding read or copy outside the response. *)
Lemma SplitTMD_in_bounds (P : Platform) (response : bytes) :
  (offsetof_num_contents P + 2 <= sizeof_TMDHeader P)%nat ->
  exists r, SplitTMD P response = Ok r.
Proof.
  intros Hoff. unfold SplitTMD.
  destruct (length response <=? sizeof_TMDHeader P)%nat eqn:Hshort; [eauto|].
  apply Nat.leb_gt in Hshort.
  destruct (swap16_in_bounds response (offsetof_num_contents P)) as [n ->]; [lia|].
  destruct (length response <=? _)%nat eqn:Hover; [eauto|].
  apply Nat.leb_gt in Hover.
  rewrite !vec_range_in_bounds by lia. eauto.
Qed.

Lemma SplitTicket_in_bounds (P : Platform) (response : bytes) :
  exists r, SplitTicket P response = Ok r.
Proof.
  unfold SplitTicket.
  destruct (length response <=? sizeof_Ticket P)%nat eqn:Hshort; [eauto|].
  apply Nat.leb_gt in Hshort.
  rewrite !vec_range_in_bounds by lia. eauto.
Qed.

(** What a successful split looks like: the metadata is exactly the header
    and the declared entries, the rest is a non-empty certificate chain. *)
Lemma SplitTMD_accepts (P : Platform) (response : bytes) :
  (offsetof_num_contents P + 2 <= sizeof_TMDHeader P)%nat ->
  (sizeof_TMDHeader P + sizeof_Content P * GetNumContents P (mkTMD response)
     < length response)%nat ->
  let tmd_size :=
    (sizeof_TMDHeader P + sizeof_Content P * GetNumContents P (mkTMD response))%nat in
  SplitTMD P response = Ok (mkTMD (firstn tmd_size response), skipn tmd_size response).
Proof.
  intros Hoff Hlen. cbv zeta. unfold SplitTMD, GetNumContents in *. simpl GetBytes in *.
  destruct (length response <=? sizeof_TMDHeader P)%nat eqn:Hshort.
  { apply Nat.leb_le in Hshort. lia. }
  apply Nat.leb_gt in Hshort.
  destruct (swap16_in_bounds response (offsetof_num_contents P)) as [n Hn]; [lia|].
  rewrite Hn in *.
  destruct (length response <=? _)%nat eqn:Hover.
  { apply Nat.leb_le in Hover. lia. }
  rewrite !vec_range_in_bounds by lia.
  rewrite Nat.sub_0_r. simpl skipn at 1.
  rewrite firstn_all2 with (n := (length response - _)%nat); [reflexivity|].
  rewrite length_skipn. lia.
Qed.

(** C9.  A downloaded metadata buffer that is not longer than the fixed
    header, or that is not longer than the header plus its declared content
    count times the entry size, is decoded to the empty reader and an empty
    certificate chain; that reader is invalid; and the decoding does not
    fault, that is, it reads nothing outside the buffer.  The layout only has
    to place the count field inside the header. *)
Theorem DownloadTMD_rejects_truncated {St : Type} (P : Platform) (E : Env St)
    (prefix_url : string) (title : TitleInfo) (w : World St) (response : bytes) :
  (offsetof_num_contents P + 2 <= sizeof_TMDHeader P)%nat ->
  fst (Http_Get E (url_tmd prefix_url title) (ext w)) = Some response ->
  (length response <= sizeof_TMDHeader P)%nat \/
  (length response <=
     sizeof_TMDHeader P + sizeof_Content P * GetNumContents P (mkTMD response))%nat ->
  SplitTMD P response = Ok (empty_TMD, []) /\
  IsValid P empty_TMD = false /\
  exists w', DownloadTMD P E prefix_url title w = Ret (empty_TMD, []) w'.
Proof.
  intros Hoff Hget Hshort.
  assert (Hsplit : SplitTMD P response = Ok (empty_TMD, [])).
  { unfold SplitTMD.
    destruct (length response <=? sizeof_TMDHeader P)%nat eqn:Hhdr; [reflexivity|].
    apply Nat.leb_gt in Hhdr.
    destruct Hshort as [Hshort|Hshort]; [lia|].
    unfold GetNumContents in Hshort. simpl GetBytes in Hshort.
    destruct (swap16_in_bounds response (offsetof_num_contents P)) as [n Hn]; [lia|].
    rewrite Hn in *.
    apply Nat.leb_le in Hshort. now rewrite Hshort. }
  split; [exact Hsplit|]. split.
  - unfold IsValid. simpl.
    destruct (sizeof_TMDHeader P) eqn:Hsz; [lia|reflexivity].
  - unfold DownloadTMD, bind, HttpGet, call.
    destruct (Http_Get E (url_tmd prefix_url title) (ext w)) as [r s] eqn:Hcall.
    simpl in Hget. subst r. unfold lift_partial. rewrite Hsplit. eauto.
Qed.

(** A buffer of the console's layout that declares two contents and ends
    with its last entry is rejected. *)
Lemma DownloadTMD_rejects_truncated_witness :
  let response := Wii.make_tmd 0 5 1 [7; 9] in
  let w := Wii.start (Wii.mkSim [] [] [] None [] 0
                        [("http://x/0000000000000005/tmd.1"%string, response)] [] []) true in
  SplitTMD Wii.wii response = Ok (empty_TMD, []) /\
  IsValid Wii.wii empty_TMD = false /\
  exists w', DownloadTMD Wii.wii Examples.lenient "http://x" (mkTitle 5 1) w = Ret (empty_TMD, []) w'.
Proof.
  cbv zeta.
  apply (DownloadTMD_rejects_truncated Wii.wii Examples.lenient "http://x" (mkTitle 5 1)).
  - vm_compute. lia.
  - vm_compute. reflexivity.
  - right. vm_compute. lia.
Defined.

(** ** The content phase *)

Lemma grows_refl {St} (w : World St) (Phi : list Event -> Prop) :
  Phi [] -> grows w w Phi.
Proof. intros H. exists []. now rewrite app_nil_r. Qed.

Lemma grows_trans {St} (w w1 w2 : World St) (Phi1 Phi2 Phi : list Event -> Prop) :
  grows w w1 Phi1 -> grows w1 w2 Phi2 ->
  (forall l1 l2, Phi1 l1 -> Phi2 l2 -> Phi (l1 ++ l2)) ->
  grows w w2 Phi.
Proof.
  intros (l1 & E1 & H1) (l2 & E2 & H2) H.
  exists (l1 ++ l2). split; [|auto].
  now rewrite E2, E1, app_assoc.
Qed.

(** Closes [grows w w' Phi] when the log of [w'] is written out. *)
Ltac grows_now :=
  first
    [ apply grows_refl
    | unfold grows; cbn [calls]; eexists; split;
      [ rewrite <- ?app_assoc; reflexivity | cbn [app] ] ].

Lemma Zltb_neg (r : Z) : (r <? 0) = true -> r < 0.
Proof. apply Z.ltb_lt. Qed.

Lemma Zltb_nonneg (r : Z) : (r <? 0) = false -> 0 <= r.
Proof. intros H. apply Z.ltb_ge in H. exact H. Qed.

#[local] Hint Resolve Zltb_neg Zltb_nonneg : core.

Lemma nus_contents_log {St} (E : Env St) prefix_url title stored contents :
  forall w,
    wp (nus_contents E prefix_url title stored contents)
       (fun r w' =>
          m_enable_signature_checks w' = m_enable_signature_checks w /\
          grows w w' (fun log => nus_content_log prefix_url title stored contents log r))
       w.
Proof.
  induction contents as [|c rest IH]; intros w; cbn [nus_contents].
  - wp_steps. split; [reflexivity|]. apply grows_refl. constructor.
  - destruct (is_already_installed stored c) eqn:Hin.
    + wp_use IH. intros r w' [Hc (log & Hlog & Hrest)].
      split; [exact Hc|]. exists log. split; [exact Hlog|]. now constructor.
    + wp_steps; try (split; [reflexivity|]; grows_now; econstructor; eauto; fail).
      all: wp_use IH; intros r w' [Hc (log & Hlog & Hrest)]; split; [exact Hc|].
      all: cbn [calls] in Hlog; unfold grows; rewrite Hlog.
      all: eexists; split; [rewrite <- !app_assoc; reflexivity|].
      all: cbn [app]; eapply ncl_imported; eauto.
Qed.

Lemma wad_contents_log {St} (E : Env St) wad title_id contents :
  forall w,
    wp (wad_contents E wad title_id contents)
       (fun b w' =>
          m_enable_signature_checks w' = m_enable_signature_checks w /\
          grows w w' (fun log => wad_content_log wad title_id contents log b))
       w.
Proof.
  induction contents as [|c rest IH]; intros w; cbn [wad_contents].
  - wp_steps. split; [reflexivity|]. apply grows_refl. constructor.
  - wp_steps; try (split; [reflexivity|]; grows_now; econstructor; eauto; fail).
    all: wp_use IH; intros r w' [Hc (log & Hlog & Hrest)]; split; [exact Hc|].
    all: cbn [calls] in Hlog; unfold grows; rewrite Hlog.
    all: eexists; split; [rewrite <- !app_assoc; reflexivity|].
    all: cbn [app]; eapply wcl_imported; eauto.
Qed.

Lemma stored_is_installed (stored : list Content) (c c0 : Content) :
  In c0 stored -> content_id c0 = content_id c ->
  is_already_installed stored c = true.
Proof.
  intros Hin Hid. unfold is_already_installed. apply existsb_exists.
  exists c0. split; [exact Hin|]. now apply Z.eqb_eq.
Qed.

Lemma nus_content_log_skips prefix_url title stored contents log r :
  nus_content_log prefix_url title stored contents log r ->
  skips_stored stored log.
Proof.
  unfold skips_stored.
  induction 1 as [ | c rest log r Hc Hrest IH | c rest r1 Hc Hr1 | c rest r1 Hc Hr1
                 | c rest r1 data r2 Hc Hr1 Hr2 | c rest r1 data r2 r3 Hc Hr1 Hr2 Hr3
                 | c rest r1 data r2 r3 log r Hc Hr1 Hr2 Hr3 Hrest IH ];
    intros c0 title_id r0 Hin Hlog; cbn [In] in Hlog;
    try (eapply IH; eauto; fail);
    repeat match goal with
           | H : _ \/ _ |- _ => destruct H as [H|H]
           | H : False |- _ => destruct H
           | H : EvImportContentBegin _ _ _ = EvImportContentBegin _ _ _ |- _ =>
               injection H as _ Hid _;
               rewrite (stored_is_installed stored c c0 Hin (eq_sym Hid)) in Hc;
               discriminate
           | H : _ = EvImportContentBegin _ _ _ |- _ => discriminate H
           end.
  eapply IH; eauto.
Qed.

(** C5, as the code has it.  In both installs the content entries are
    handled in list order, each by begin-content, content-data and
    end-content, and the first failure ends the phase with nothing done for
    the entries after it.  The update planner skips, without a call, every
    entry whose id secure storage already holds for the title, and fetches
    the bytes of the others between begin-content and content-data.  The
    direct package install skips nothing: it imports every entry of the
    metadata, with the bytes the package holds for the entry's index. *)
Theorem content_phase_in_list_order {St} (E : Env St) :
  (forall prefix_url title stored contents w r w',
     nus_contents E prefix_url title stored contents w = Ret r w' ->
     grows w w' (fun log =>
       nus_content_log prefix_url title stored contents log r /\
       skips_stored stored log)) /\
  (forall wad title_id contents w b w',
     wad_contents E wad title_id contents w = Ret b w' ->
     grows w w' (fun log => wad_content_log wad title_id contents log b)).
Proof.
  split.
  - intros prefix_url title stored contents w r w' Hrun.
    destruct (wp_elim _ _ _ _ _ (nus_contents_log E prefix_url title stored contents w) Hrun)
      as [_ (log & Hlog & Hcl)].
    exists log. split; [exact Hlog|]. split; [exact Hcl|].
    eapply nus_content_log_skips; eauto.
  - intros wad title_id contents w b w' Hrun.
    destruct (wp_elim _ _ _ _ _ (wad_contents_log E wad title_id contents w) Hrun)
      as [_ (log & Hlog & Hcl)].
    exists log. split; [exact Hlog|exact Hcl].
Qed.

(** The update planner, with content 7 already stored, imports content 9
    only; the direct package install, on the same NAND, imports both. *)
Lemma content_phase_in_list_order_witness :
  match nus_contents Examples.lenient Examples.PREFIX (mkTitle Examples.APP 3)
                     Examples.stored_with_7 (GetContents Wii.wii (mkTMD Examples.app_tmd))
                     (Wii.start Examples.nand_importing true),
        wad_contents Examples.lenient (Examples.wad Examples.signed) Examples.APP
                     (GetContents Wii.wii (mkTMD Examples.app_tmd))
                     (Wii.start Examples.nand_importing true) with
  | Ret r w1, Ret b w2 =>
      (r = Succeeded /\ b = true /\
       length (calls w1) = 4%nat /\ length (calls w2) = 6%nat) /\
      grows (Wii.start Examples.nand_importing true) w1 (fun log =>
        nus_content_log Examples.PREFIX (mkTitle Examples.APP 3) Examples.stored_with_7
                        (GetContents Wii.wii (mkTMD Examples.app_tmd)) log r /\
        skips_stored Examples.stored_with_7 log) /\
      grows (Wii.start Examples.nand_importing true) w2 (fun log =>
        wad_content_log (Examples.wad Examples.signed) Examples.APP
                        (GetContents Wii.wii (mkTMD Examples.app_tmd)) log b)
  | _, _ => False
  end.
Proof.
  assert (Hval :
    match nus_contents Examples.lenient Examples.PREFIX (mkTitle Examples.APP 3)
                       Examples.stored_with_7 (GetContents Wii.wii (mkTMD Examples.app_tmd))
                       (Wii.start Examples.nand_importing true),
          wad_contents Examples.lenient (Examples.wad Examples.signed) Examples.APP
                       (GetContents Wii.wii (mkTMD Examples.app_tmd))
                       (Wii.start Examples.nand_importing true) with
    | Ret r w1, Ret b w2 =>
        r = Succeeded /\ b = true /\
        length (calls w1) = 4%nat /\ length (calls w2) = 6%nat
    | _, _ => False
    end) by (vm_compute; repeat split; reflexivity).
  remember (nus_contents Examples.lenient Examples.PREFIX (mkTitle Examples.APP 3)
                         Examples.stored_with_7 (GetContents Wii.wii (mkTMD Examples.app_tmd))
                         (Wii.start Examples.nand_importing true)) as run1 eqn:Hnus in *.
  remember (wad_contents Examples.lenient (Examples.wad Examples.signed) Examples.APP
                         (GetContents Wii.wii (mkTMD Examples.app_tmd))
                         (Wii.start Examples.nand_importing true)) as run2 eqn:Hwad in *.
  destruct run1 as [r w1| |]; [ | exact Hval | exact Hval ].
  destruct run2 as [b w2| |]; [ | exact Hval | exact Hval ].
  split; [exact Hval|]. split.
  - exact (proj1 (content_phase_in_list_order Examples.lenient)
             Examples.PREFIX (mkTitle Examples.APP 3) Examples.stored_with_7
             (GetContents Wii.wii (mkTMD Examples.app_tmd))
             (Wii.start Examples.nand_importing true) r w1 (eq_sym Hnus)).
  - exact (proj2 (content_phase_in_list_order Examples.lenient)
             (Examples.wad Examples.signed) Examples.APP
             (GetContents Wii.wii (mkTMD Examples.app_tmd))
             (Wii.start Examples.nand_importing true) b w2 (eq_sym Hwad)).
Defined.

(** C5 as stated fails for the direct package install: with content 7 of the
    title already in secure storage, [InstallWAD] still calls begin-content
    for it. *)
Lemma direct_install_does_not_skip :
  match Examples.run_wad_with_7 with
  | Ret _ w' => ~ skips_stored Examples.stored_with_7 (calls w')
  | _ => False
  end.
Proof.
  vm_compute. intros H.
  eapply (H _ 281479271677957 0); [left; reflexivity|].
  do 2 right. left. reflexivity.
Qed.
(** ** The log of an install from the update server *)

Lemma is_Succeeded_true (r : UpdateResult) : is_Succeeded r = true -> r = Succeeded.
Proof. destruct r; simpl; congruence. Qed.

Lemma is_Succeeded_false (r : UpdateResult) : is_Succeeded r = false -> r <> Succeeded.
Proof. destruct r; simpl; congruence. Qed.

Lemma nus_import_refines {St} (P : Platform) (E : Env St) prefix_url title tmd updated_titles :
  forall w,
    wp (nus_import P E prefix_url title tmd updated_titles)
       (fun res w' =>
          m_enable_signature_checks w' = m_enable_signature_checks w /\
          grows w w' (fun log =>
            nus_import_log prefix_url title (GetContents P (fst tmd))
              (GetBytes (fst tmd)) (snd tmd) (m_enable_signature_checks w)
              log (fst res)) /\
          (snd res = updated_titles \/
           (fst res = Succeeded /\ snd res = {[id title]} ∪ updated_titles)))
       w.
Proof.
  intros w. unfold nus_import. wp_steps.
  - split; [reflexivity|]. split; [|now left]. grows_now. constructor. auto.
  - wp_use (@nus_contents_log St E). intros r w1 [Hc (clog & Hlog & Hclog)].
    cbn [calls] in Hlog.
    assert (Hfin : forall rf s,
      grows w (mkWorld s (m_enable_signature_checks w1) (calls w1 ++ [settle_event r rf]))
        (fun log => nus_import_log prefix_url title (GetContents P (fst tmd))
           (GetBytes (fst tmd)) (snd tmd) (m_enable_signature_checks w) log
           (if rf <? 0 then ImportFailed else r))).
    { intros rf s1. unfold grows. cbn [calls]. rewrite Hlog.
      eexists. split; [rewrite <- !app_assoc; reflexivity|].
      cbn [app]. eapply nil_settled; eauto. }
    unfold settle_event in Hfin.
    wp_steps; cbn [fst snd]; (split; [congruence|]).
    all: match goal with
         | Hr : (?rf <? 0) = _, Hc : _ = (?rf, ?s) |- _ =>
             specialize (Hfin rf s); rewrite Hr in Hfin
         end.
    all: try (split; [apply Hfin | now left]).
    split; [|right; split; reflexivity].
    apply is_Succeeded_true in Heqb0. subst r. apply Hfin.
Qed.

Lemma nus_required_ios_refines {St} (P : Platform) (E : Env St) prefix_url
    (self : TitleInfo -> gset Z -> M St (UpdateResult * gset Z)) :
  (forall title updated_titles w,
     wp (self title updated_titles)
        (fun res w' =>
           m_enable_signature_checks w' = m_enable_signature_checks w /\
           grows w w' (fun log =>
             nus_log P prefix_url (m_enable_signature_checks w) title log (fst res)))
        w) ->
  forall tmd updated_titles w,
    wp (nus_required_ios P E self tmd updated_titles)
       (fun res w' =>
          m_enable_signature_checks w' = m_enable_signature_checks w /\
          grows w w' (fun log =>
            nus_log P prefix_url (m_enable_signature_checks w)
                    (mkTitle (GetIOSId P tmd) 0) log (fst res)))
       w.
Proof.
  intros Hself tmd updated_titles w. unfold nus_required_ios.
  wp_steps; cbn [fst snd];
    try (split; [reflexivity|]; grows_now; constructor; fail).
  apply Hself.
Qed.

Lemma InstallTitleFromNUS_refines {St} (P : Platform) (E : Env St) prefix_url :
  forall fuel title updated_titles w,
    wp (InstallTitleFromNUS P E fuel prefix_url title updated_titles)
       (fun res w' =>
          m_enable_signature_checks w' = m_enable_signature_checks w /\
          grows w w' (fun log =>
            nus_log P prefix_url (m_enable_signature_checks w) title log (fst res)))
       w.
Proof.
  induction fuel as [|fuel IH]; intros title updated_titles w; cbn [InstallTitleFromNUS].
  - wp_steps.
  - wp_steps; cbn [fst snd];
      try (split; [reflexivity|]; grows_now; econstructor; eauto; fail).
    unfold nus_after_ticket. wp_steps; cbn [fst snd];
      try (split; [reflexivity|]; grows_now; econstructor; eauto; fail).
    all: wp_use (nus_required_ios_refines P E prefix_url _ IH).
    all: intros [res upd1] w1 (Hc1 & ioslog & Hlog1 & Hios); cbn [calls fst snd] in *.
    all: wp_steps.
    all: try match goal with
             | Hn : negb (is_Succeeded _) = true |- _ =>
                 apply negb_true_iff, is_Succeeded_false in Hn;
                 split; [congruence|]; unfold grows; rewrite Hlog1;
                 eexists; (split; [rewrite <- !app_assoc; reflexivity|]);
                 cbn [app]; eapply nl_required_failed; eauto
             | Hn : negb (is_Succeeded _) = false |- _ =>
                 apply negb_false_iff, is_Succeeded_true in Hn; subst
             end.
    all: wp_use (@nus_import_refines St P E).
    all: intros [res2 upd2] w2 (Hc2 & (ilog & Hlog2 & Hil) & _); cbn [fst snd] in *.
    all: split; [congruence|]; unfold grows; rewrite Hlog2, Hlog1.
    all: eexists; (split; [rewrite <- !app_assoc; reflexivity|]).
    all: cbn [app]; rewrite Hc1 in Hil.
    all: eapply (nl_import P prefix_url _ title _ _ _ _ _ _ ioslog ilog); eauto.
Qed.
(** ** The log of a direct package install *)

Lemma answers_intro {St A} (f : St -> A * St) s a s' : f s = (a, s') -> answers f a.
Proof. intros H. exists s. now rewrite H. Qed.

#[local] Hint Resolve answers_intro : core.

Lemma import_loop_refines {St} (P : Platform) (E : Env St) wad checks_enabled :
  forall fuel w,
    wp (import_loop P E fuel wad checks_enabled)
       (fun entered w' =>
          (entered = false -> m_enable_signature_checks w' = checks_enabled) /\
          grows w w' (fun log =>
            wad_loop_log P E wad checks_enabled (m_enable_signature_checks w) log entered))
       w.
Proof.
  induction fuel as [|fuel IH]; intros w; cbn [import_loop].
  - wp_steps.
  - wp_steps.
    all: try match goal with
             | Hc : (_ && (_ =? _))%bool = true |- _ =>
                 apply andb_prop in Hc; destruct Hc as [Hce Hfail];
                 apply Z.eqb_eq in Hfail
             end.
    all: try (wp_use IH; intros entered w' [Hflag (rest & Hlog & Hrest)];
              split; [exact Hflag|]; cbn [calls] in Hlog; unfold grows; rewrite Hlog;
              eexists; (split; [rewrite <- !app_assoc; reflexivity|]); cbn [app];
              first [ eapply (wl_retry _ _ _ _ _ [_]) | eapply (wl_retry _ _ _ _ _ [_; _]) ];
              eauto; constructor; eauto; fail).
    all: split; [congruence|]; grows_now.
    all: try (first [ eapply (wl_declined _ _ _ _ _ [_]) | eapply (wl_declined _ _ _ _ _ [_; _]) ];
              eauto; constructor; eauto; fail).
    all: try (first [ eapply (wl_failed _ _ _ _ _ [_]) | eapply (wl_failed _ _ _ _ _ [_; _]) ];
              eauto; constructor; eauto; fail).
    eapply wl_entered; [eapply al_ticket_imported|]; eauto.
Qed.

Lemma InstallWAD_refines {St} (P : Platform) (E : Env St) fuel wad :
  forall w,
    wp (InstallWAD P E fuel wad)
       (fun b w' =>
          m_enable_signature_checks w' = m_enable_signature_checks w /\
          grows w w' (fun log => wad_log P E wad (m_enable_signature_checks w) log b))
       w.
Proof.
  intros w. unfold InstallWAD.
  destruct (wad_IsValid wad) eqn:Hvalid; cbn [negb].
  - wp_steps. wp_use (import_loop_refines P E wad (m_enable_signature_checks w) fuel).
    intros entered w1 [Hflag (log & Hlog & Hloop)].
    destruct entered; cbn [negb].
    + wp_steps. wp_use (@wad_contents_log St E).
      intros contents_imported w2 [Hflag2 (clog & Hclog & Hcontents)]. cbn [calls] in Hclog.
      assert (Hfin : forall rf s chk last,
        last = (if rf <? 0 then alert_finalise else EvClearCache) ->
        grows w (mkWorld s chk
                   ((calls w2 ++ [wad_settle_event contents_imported rf]) ++ [last]))
          (fun log => wad_log P E wad (m_enable_signature_checks w) log (negb (rf <? 0)))).
      { intros rf s2 chk last ->. unfold grows. cbn [calls]. rewrite Hclog, Hlog.
        eexists. split; [rewrite <- !app_assoc; reflexivity|].
        cbn [app]. eapply wg_settled; eauto. }
      unfold wad_settle_event in Hfin.
      wp_steps; (split; [exact Hflag2|]).
      all: match goal with
           | Hr : (?rf <? 0) = _ |- _ =>
               specialize (Hfin rf); rewrite Hr in Hfin; apply Hfin; reflexivity
           end.
    + wp_steps. split; [auto|].
      unfold grows. exists log. split; [exact Hlog|]. now apply wg_not_initialised.
  - wp_steps. split; [reflexivity|]. grows_now. now constructor.
Qed.
(** ** Every opened context is settled *)

Lemma ctx_run_snoc (c : ctx) (l : list Event) (e : Event) :
  ctx_run c (l ++ [e]) = ctx_step (ctx_run c l) e.
Proof. now rewrite ctx_run_app. Qed.

Lemma nus_content_log_neutral prefix_url title stored contents log r :
  nus_content_log prefix_url title stored contents log r ->
  forall c, ctx_run c log = c.
Proof. unfold ctx_run. induction 1; intros c0; cbn; auto. Qed.

Lemma wad_content_log_neutral wad title_id contents log b :
  wad_content_log wad title_id contents log b ->
  forall c, ctx_run c log = c.
Proof. unfold ctx_run. induction 1; intros c0; cbn; auto. Qed.

Lemma settle_event_closes r rf : ctx_step Open (settle_event r rf) = Closed.
Proof. unfold settle_event. now destruct (is_Succeeded r). Qed.

Lemma nus_import_log_settled prefix_url title contents tmd certs checks log res :
  nus_import_log prefix_url title contents tmd certs checks log res ->
  ctx_run Closed log = Closed.
Proof.
  destruct 1 as [r0 Hr0 | r0 stored clog r rf Hr0 Hclog].
  - cbn. apply Z.ltb_lt in Hr0. now rewrite Hr0.
  - change (EvImportTitleInit tmd certs checks r0 :: clog ++ [settle_event r rf])
      with ([EvImportTitleInit tmd certs checks r0] ++ clog ++ [settle_event r rf]).
    rewrite !ctx_run_app. cbn [ctx_run fold_left ctx_step].
    apply Z.ltb_ge in Hr0. rewrite Hr0.
    fold (ctx_run Open clog). rewrite (nus_content_log_neutral _ _ _ _ _ _ Hclog).
    apply settle_event_closes.
Qed.

Lemma nus_log_settled P prefix_url checks title log res :
  nus_log P prefix_url checks title log res ->
  ctx_run Closed log = Closed.
Proof.
  induction 1; try reflexivity.
  - rewrite ctx_run_app. cbn. exact IHnus_log.
  - rewrite !ctx_run_app. cbn [ctx_run fold_left ctx_step].
    fold (ctx_run Closed ioslog). rewrite IHnus_log.
    eapply nus_import_log_settled; eauto.
Qed.

Lemma attempt_log_ctx {St} (E : Env St) wad checks log r :
  attempt_log E wad checks log r ->
  ctx_run Closed log = if r <? 0 then Closed else Open.
Proof.
  destruct 1 as [r Hr Ha | r1 r Hr1 Ha]; cbn.
  - apply Z.ltb_lt in Hr. now rewrite Hr.
  - reflexivity.
Qed.

Lemma wad_loop_log_ctx {St} P (E : Env St) wad checks_enabled checks log entered :
  wad_loop_log P E wad checks_enabled checks log entered ->
  ctx_run Closed log = if entered then Open else Closed.
Proof.
  induction 1 as [checks log r Ha Hr | checks log r Ha Hr Hc | checks log r Ha Hr Hc Hf
                 | checks log r rest b Ha Hr Hc Hf Hrest IH];
    apply attempt_log_ctx in Ha.
  - apply Z.ltb_ge in Hr. now rewrite Hr in Ha.
  - apply Z.ltb_lt in Hr. rewrite Hr in Ha. rewrite ctx_run_app, Ha. reflexivity.
  - apply Z.ltb_lt in Hr. rewrite Hr in Ha. rewrite ctx_run_app, Ha. reflexivity.
  - apply Z.ltb_lt in Hr. rewrite Hr in Ha. rewrite ctx_run_app, Ha. exact IH.
Qed.

Lemma wad_log_settled {St} P (E : Env St) wad checks_enabled log b :
  wad_log P E wad checks_enabled log b ->
  ctx_run Closed log = Closed.
Proof.
  destruct 1 as [Hv | log Hv Hloop | log clog ci rf Hv Hloop Hclog].
  - reflexivity.
  - now apply wad_loop_log_ctx in Hloop.
  - apply wad_loop_log_ctx in Hloop.
    rewrite !ctx_run_app, Hloop, (wad_content_log_neutral _ _ _ _ _ Hclog).
    unfold wad_settle_event. destruct ci, (rf <? 0); reflexivity.
Qed.

(** A log that leaves the context as it found it, without breaking the
    protocol, has as many settling calls as successful title-inits. *)
Lemma ctx_run_counts (log : list Event) :
  forall c,
    ctx_run c log <> Broken ->
    (count opens log + (if c is Open then 1 else 0)
     = count settles log + (if ctx_run c log is Open then 1 else 0))%nat.
Proof.
  unfold count.
  induction log as [|e log IH]; intros c Hc.
  - cbn. lia.
  - cbn [ctx_run fold_left] in *. fold (ctx_run (ctx_step c e) log) in *.
    specialize (IH _ Hc).
    assert (Hstep : ctx_step c e <> Broken).
    { intros Hb. rewrite Hb, ctx_run_Broken in Hc. congruence. }
    destruct e; cbn [List.filter opens settles length] in *; try exact IH;
      destruct c; cbn [ctx_step] in *; try congruence;
      try (match goal with |- context [(?x <? 0)%Z] => destruct (x <? 0)%Z end;
           cbn [negb length] in * );
      try lia; try congruence.
Qed.

Lemma settled_counts (log : list Event) :
  ctx_run Closed log = Closed -> count opens log = count settles log.
Proof.
  intros H. pose proof (ctx_run_counts log Closed) as Hc.
  rewrite H in Hc. specialize (Hc ltac:(congruence)). lia.
Qed.

(** C1.  In a direct package install and in the install of one title by the
    update planner, the calls made between entry and return leave no
    title-import context open and never break the protocol: each successful
    title-init is followed by exactly one commit or cancel before the next
    title-init and before the return, so the log holds as many settling
    calls as successful title-inits. *)
Theorem import_context_settled {St} (P : Platform) (E : Env St) :
  (forall fuel wad w b w',
     InstallWAD P E fuel wad w = Ret b w' ->
     grows w w' (fun log =>
       ctx_run Closed log = Closed /\ count opens log = count settles log)) /\
  (forall fuel prefix_url title updated_titles w res w',
     InstallTitleFromNUS P E fuel prefix_url title updated_titles w = Ret res w' ->
     grows w w' (fun log =>
       ctx_run Closed log = Closed /\ count opens log = count settles log)).
Proof.
  split.
  - intros fuel wad w b w' Hrun.
    destruct (wp_elim _ _ _ _ _ (InstallWAD_refines P E fuel wad w) Hrun)
      as [_ (log & Hlog & Hwad)].
    exists log. split; [exact Hlog|].
    apply wad_log_settled in Hwad. split; [exact Hwad|]. now apply settled_counts.
  - intros fuel prefix_url title updated_titles w res w' Hrun.
    destruct (wp_elim _ _ _ _ _
                (InstallTitleFromNUS_refines P E prefix_url fuel title updated_titles w) Hrun)
      as [_ (log & Hlog & Hnus)].
    exists log. split; [exact Hlog|].
    apply nus_log_settled in Hnus. split; [exact Hnus|]. now apply settled_counts.
Qed.

(** A package whose second content cannot be imported is cancelled; a title
    fetched from the server together with the system title it requires is
    committed, after that system title. *)
Lemma import_context_settled_witness :
  match InstallWAD Wii.wii Examples.lenient 1 Examples.wad_broken (Wii.start Examples.nand true),
        InstallTitleFromNUS Wii.wii Examples.lenient 2 Examples.PREFIX
                            (mkTitle Examples.GAME 2) ∅ (Wii.start Examples.nand true) with
  | Ret b w1, Ret res w2 =>
      (count opens (calls w1) = 1%nat /\ count opens (calls w2) = 2%nat) /\
      grows (Wii.start Examples.nand true) w1 (fun log =>
        ctx_run Closed log = Closed /\ count opens log = count settles log) /\
      grows (Wii.start Examples.nand true) w2 (fun log =>
        ctx_run Closed log = Closed /\ count opens log = count settles log)
  | _, _ => False
  end.
Proof.
  assert (Hval :
    match InstallWAD Wii.wii Examples.lenient 1 Examples.wad_broken (Wii.start Examples.nand true),
          InstallTitleFromNUS Wii.wii Examples.lenient 2 Examples.PREFIX
                              (mkTitle Examples.GAME 2) ∅ (Wii.start Examples.nand true) with
    | Ret b w1, Ret res w2 =>
        count opens (calls w1) = 1%nat /\ count opens (calls w2) = 2%nat
    | _, _ => False
    end) by (vm_compute; split; reflexivity).
  remember (InstallWAD Wii.wii Examples.lenient 1 Examples.wad_broken
                       (Wii.start Examples.nand true)) as run1 eqn:Hwad in *.
  remember (InstallTitleFromNUS Wii.wii Examples.lenient 2 Examples.PREFIX
                                (mkTitle Examples.GAME 2) ∅ (Wii.start Examples.nand true))
    as run2 eqn:Hnus in *.
  destruct run1 as [b w1| |]; [ | exact Hval | exact Hval ].
  destruct run2 as [res w2| |]; [ | exact Hval | exact Hval ].
  split; [exact Hval|]. split.
  - exact (proj1 (import_context_settled Wii.wii Examples.lenient)
             1%nat Examples.wad_broken (Wii.start Examples.nand true) b w1 (eq_sym Hwad)).
  - exact (proj2 (import_context_settled Wii.wii Examples.lenient)
             2%nat Examples.PREFIX (mkTitle Examples.GAME 2) ∅
             (Wii.start Examples.nand true) res w2 (eq_sym Hnus)).
Defined.
(** ** The signature-check retry *)

Lemma count_app (p : Event -> bool) (l1 l2 : list Event) :
  count p (l1 ++ l2) = (count p l1 + count p l2)%nat.
Proof. unfold count. now rewrite List.filter_app, List.length_app. Qed.

Lemma count_cons (p : Event -> bool) (e : Event) (l : list Event) :
  count p (e :: l) = ((if p e then 1 else 0) + count p l)%nat.
Proof. unfold count. cbn. now destruct (p e). Qed.

Lemma count_none (p : Event -> bool) (l : list Event) :
  Forall (fun e => p e = false) l -> count p l = 0%nat.
Proof.
  induction 1 as [|e l He _ IH]; [reflexivity|].
  rewrite count_cons, He, IH. reflexivity.
Qed.

(** The events of a content phase are neither ticket imports, nor
    title-inits, nor prompts. *)
Definition plain (e : Event) : Prop :=
  is_ticket_import e = false /\ is_prompt e = false /\ is_confirmation e = false /\
  failed_import e = false /\ runs_unchecked e.

Lemma plain_now (e : Event) :
  match e with
  | EvImportTicket _ _ _ _ | EvImportTitleInit _ _ _ _ | EvAskYesNo _ => False
  | _ => True
  end -> plain e.
Proof. destruct e; intros []; repeat split. Qed.

Lemma nus_content_log_plain prefix_url title stored contents log r :
  nus_content_log prefix_url title stored contents log r -> Forall plain log.
Proof. induction 1; repeat constructor; auto; now apply plain_now. Qed.

Lemma wad_content_log_plain wad title_id contents log b :
  wad_content_log wad title_id contents log b -> Forall plain log.
Proof. induction 1; repeat constructor; auto; now apply plain_now. Qed.

Lemma plain_count (p : Event -> bool) (l : list Event) :
  (forall e, plain e -> p e = false) -> Forall plain l -> count p l = 0%nat.
Proof.
  intros Hp Hl. apply count_none. eapply List.Forall_impl; [|exact Hl]. exact Hp.
Qed.

Lemma after_first_confirmation_app (l1 l2 : list Event) :
  after_first_confirmation (l1 ++ l2) =
  if (count is_confirmation l1 =? 0)%nat then after_first_confirmation l2
  else after_first_confirmation l1 ++ l2.
Proof.
  induction l1 as [|e l1 IH]; [reflexivity|].
  cbn [app after_first_confirmation]. rewrite count_cons.
  destruct (is_confirmation e); [reflexivity|]. exact IH.
Qed.

Lemma after_first_confirmation_none (l : list Event) :
  count is_confirmation l = 0%nat -> after_first_confirmation l = [].
Proof.
  induction l as [|e l IH]; [reflexivity|].
  rewrite count_cons. cbn [after_first_confirmation].
  destruct (is_confirmation e); [discriminate|]. exact IH.
Qed.

Lemma attempt_log_counts {St} (E : Env St) wad checks log r :
  attempt_log E wad checks log r ->
  count is_ticket_import log = 1%nat /\ count is_confirmation log = 0%nat /\
  (checks = false -> Forall runs_unchecked log).
Proof. destruct 1; repeat split; intros; repeat constructor; auto. Qed.

Lemma attempt_log_honoured {St} P (E : Env St) wad log r :
  honours_policy P E -> attempt_log E wad false log r -> r <> IOSC_FAIL_CHECKVALUE P.
Proof.
  intros Hh Ha. destruct Ha as [r Hr [s Hs] | r1 r Hr1 [s Hs]]; subst r; apply Hh.
Qed.

Lemma wad_loop_log_retries {St} P (E : Env St) wad checks_enabled checks log entered :
  wad_loop_log P E wad checks_enabled checks log entered ->
  count is_ticket_import log = S (count is_confirmation log) /\
  (checks_enabled = false -> count is_confirmation log = 0%nat) /\
  unchecked_after_confirmation log /\
  (checks = false -> Forall runs_unchecked log) /\
  (honours_policy P E ->
   (count is_ticket_import log <= if checks then 2 else 1)%nat).
Proof.
  unfold unchecked_after_confirmation.
  induction 1 as [checks log r Ha Hr | checks log r Ha Hr Hc | checks log r Ha Hr Hc Hf
                 | checks log r rest b Ha Hr Hc Hf Hrest IH].
  - destruct (attempt_log_counts _ _ _ _ _ Ha) as (Hi & Hn & Hu).
    rewrite Hi, Hn, (after_first_confirmation_none _ Hn).
    repeat split; auto. intros _. destruct checks; lia.
  - destruct (attempt_log_counts _ _ _ _ _ Ha) as (Hi & Hn & Hu).
    rewrite !count_app, after_first_confirmation_app, Hi, Hn. cbn.
    repeat split; auto.
    + intros ->. apply List.Forall_app. split; [auto|repeat constructor].
    + intros _. destruct checks; lia.
  - destruct (attempt_log_counts _ _ _ _ _ Ha) as (Hi & Hn & Hu).
    rewrite !count_app, after_first_confirmation_app, Hi, Hn. cbn.
    repeat split; auto; try congruence.
    + intros ->. apply List.Forall_app. split; [auto|repeat constructor].
    + intros _. destruct checks; lia.
  - destruct (attempt_log_counts _ _ _ _ _ Ha) as (Hi & Hn & Hu).
    destruct IH as (IHi & IHn & IHu & IHf & IHh).
    rewrite !count_app, after_first_confirmation_app, Hi, Hn.
    rewrite !count_cons. cbn [is_ticket_import is_confirmation after_first_confirmation Nat.eqb].
    repeat split.
    + lia.
    + congruence.
    + auto.
    + intros ->. apply List.Forall_app. split; [auto|]. constructor; [exact I|auto].
    + intros Hh. specialize (IHh Hh). cbn in IHh. destruct checks; [lia|].
      exfalso. exact (attempt_log_honoured P E wad log r Hh Ha Hf).
Qed.

Lemma wad_log_retries {St} P (E : Env St) wad checks_enabled log b :
  wad_log P E wad checks_enabled log b ->
  (wad_IsValid wad = true -> count is_ticket_import log = S (count is_confirmation log)) /\
  (checks_enabled = false -> count is_confirmation log = 0%nat) /\
  unchecked_after_confirmation log /\
  (honours_policy P E -> retries_at_most_once log).
Proof.
  unfold retries_at_most_once.
  destruct 1 as [Hv | log Hv Hloop | log clog ci rf Hv Hloop Hclog].
  - repeat split; try (cbn; auto; lia). congruence. constructor.
  - destruct (wad_loop_log_retries _ _ _ _ _ _ _ Hloop) as (Hi & Hn & Hu & _ & Hh).
    repeat split; auto. intros H. specialize (Hh H). destruct checks_enabled; lia.
  - destruct (wad_loop_log_retries _ _ _ _ _ _ _ Hloop) as (Hi & Hn & Hu & _ & Hh).
    set (rest := clog ++ [wad_settle_event ci rf; if rf <? 0 then alert_finalise else EvClearCache]).
    assert (Hplain : Forall plain rest).
    { apply List.Forall_app. split; [eapply wad_content_log_plain; eauto|].
      constructor; [|constructor; [|constructor]]; apply plain_now;
        unfold wad_settle_event; destruct ci, (rf <? 0); exact I. }
    assert (Hz : forall p, (forall e, plain e -> p e = false) -> count p rest = 0%nat).
    { intros p Hp. now apply plain_count. }
    rewrite !count_app, !Hz by (intros e He; apply He).
    rewrite !Nat.add_0_r. repeat split; auto.
    + unfold unchecked_after_confirmation in *. rewrite after_first_confirmation_app.
      destruct (count is_confirmation log =? 0)%nat.
      * rewrite after_first_confirmation_none; [constructor|].
        apply Hz. intros e He. apply He.
      * apply List.Forall_app. split; [exact Hu|].
        eapply List.Forall_impl; [|exact Hplain]. intros e He. apply He.
    + intros H. specialize (Hh H). destruct checks_enabled; lia.
Qed.

Lemma failed_import_is_last_app (l1 l2 : list Event) :
  Forall (fun e => failed_import e = false) l1 ->
  failed_import_is_last l2 -> failed_import_is_last (l1 ++ l2).
Proof.
  induction 1 as [|e l1 He _ IH]; intros H2; [exact H2|].
  cbn. split; [congruence|auto].
Qed.

Lemma no_failed_import_is_last (l : list Event) :
  Forall (fun e => failed_import e = false) l -> failed_import_is_last l.
Proof.
  intros H. rewrite <- (app_nil_r l). apply failed_import_is_last_app; [exact H|exact I].
Qed.

Lemma plain_not_failed (l : list Event) :
  Forall plain l -> Forall (fun e => failed_import e = false) l.
Proof. apply List.Forall_impl. intros e He. apply He. Qed.

Lemma settle_event_plain r rf : plain (settle_event r rf).
Proof. apply plain_now. unfold settle_event. destruct (is_Succeeded r); exact I. Qed.

Lemma nus_import_log_policy prefix_url title contents tmd certs checks log res :
  nus_import_log prefix_url title contents tmd certs checks log res ->
  count is_prompt log = 0%nat /\ failed_import_is_last log /\
  (res = Succeeded -> Forall (fun e => failed_import e = false) log).
Proof.
  destruct 1 as [r0 Hr0 | r0 stored clog r rf Hr0 Hclog].
  - split; [|split]; cbn; auto. discriminate.
  - assert (Hplain : Forall plain (clog ++ [settle_event r rf])).
    { apply List.Forall_app. split; [eapply nus_content_log_plain; eauto|].
      constructor; [apply settle_event_plain|constructor]. }
    assert (Hok : Forall (fun e => failed_import e = false)
                    (EvImportTitleInit tmd certs checks r0 :: clog ++ [settle_event r rf])).
    { constructor; [cbn; now apply Z.ltb_ge|now apply plain_not_failed]. }
    split; [|split]; auto using no_failed_import_is_last.
    rewrite count_cons. cbn. apply plain_count; [|exact Hplain]. intros e He. apply He.
Qed.

Lemma nus_log_policy P prefix_url checks title log res :
  nus_log P prefix_url checks title log res ->
  count is_prompt log = 0%nat /\ failed_import_is_last log /\
  (res = Succeeded -> Forall (fun e => failed_import e = false) log).
Proof.
  induction 1 as [ | | title ticket certs r Hr | title ticket certs r answered Hr
                 | title ticket certs r answered tmd ioslog res Hr Hios IH Hres
                 | title ticket certs r answered tmd tmd_certs ioslog ilog res Hr Hios IH Hil ].
  - split; [|split]; cbn; auto.
  - split; [|split]; cbn; auto; (tauto || discriminate).
  - split; [|split]; cbn; auto; try discriminate. repeat split; auto; discriminate.
  - split; [|split]; cbn; auto; try discriminate.
    repeat split; auto; try discriminate. apply Z.ltb_ge in Hr. congruence.
  - destruct IH as (IHp & IHl & _).
    assert (Hpre : Forall (fun e => failed_import e = false)
              [EvHttpGet (url_cetk prefix_url title) true;
               EvImportTicket ticket certs checks r;
               EvHttpGet (url_tmd prefix_url title) answered]).
    { repeat constructor. cbn. now apply Z.ltb_ge. }
    split; [|split].
    + rewrite count_app, IHp. reflexivity.
    + now apply failed_import_is_last_app.
    + congruence.
  - destruct IH as (IHp & _ & IHs). specialize (IHs eq_refl).
    destruct (nus_import_log_policy _ _ _ _ _ _ _ _ Hil) as (Hip & Hil' & His).
    assert (Hpre : Forall (fun e => failed_import e = false)
              [EvHttpGet (url_cetk prefix_url title) true;
               EvImportTicket ticket certs checks r;
               EvHttpGet (url_tmd prefix_url title) answered]).
    { repeat constructor. cbn. now apply Z.ltb_ge. }
    split; [|split].
    + rewrite !count_app, IHp, Hip. reflexivity.
    + apply failed_import_is_last_app; [exact Hpre|].
      now apply failed_import_is_last_app.
    + intros Hs. apply List.Forall_app. split; [exact Hpre|].
      apply List.Forall_app. split; auto.
Qed.


Lemma lenient_honours_policy : honours_policy Wii.wii Examples.lenient.
Proof.
  intros a b s. cbn. unfold Wii.sim_ImportTicket, Wii.sim_ImportTitleInit, Wii.refuses.
  cbn. split; discriminate.
Qed.


(** ** Which titles need an install *)

Lemma filter_shorter {A} (p : A -> bool) (l : list A) :
  (exists x, In x l /\ p x = false) -> (length (List.filter p l) < length l)%nat.
Proof.
  induction l as [|a l IH]; intros (x & Hx & Hp); [destruct Hx|].
  pose proof (List.filter_length_le p l) as Hle.
  cbn [List.filter]. destruct Hx as [->|Hx].
  - rewrite Hp. cbn. lia.
  - specialize (IH (ex_intro _ x (conj Hx Hp))).
    destruct (p a); cbn; lia.
Qed.

(** C3.  [ShouldInstallTitle] is a query: it returns in the world it was
    called in.  It returns [false] exactly when the installed metadata of
    the title is valid, its version is at least the requested one, and the
    number of stored contents that secure storage reports for it equals its
    declared content count.  So it returns [true] when the installed version
    is lower; and, secure storage reporting the declared contents that are
    present, it returns [true] when a declared content is missing. *)
Theorem ShouldInstallTitle_needs_install {St} (P : Platform) (E : Env St)
    (title : TitleInfo) (w : World St) :
  let installed := ES_FindInstalledTMD E (id title) (ext w) in
  let stored := ES_GetStoredContentsFromTMD E installed (ext w) in
  exists b,
    ShouldInstallTitle P E title w = Ret b w /\
    (b = false <->
     IsValid P installed = true /\
     version title <= GetTitleVersion P installed /\
     length stored = GetNumContents P installed) /\
    (GetTitleVersion P installed < version title -> b = true) /\
    (forall present : Content -> bool,
       stored = List.filter present (GetContents P installed) ->
       length (GetContents P installed) = GetNumContents P installed ->
       (exists c, In c (GetContents P installed) /\ present c = false) ->
       b = true).
Proof.
  cbv zeta. eexists. split; [reflexivity|].
  set (installed := ES_FindInstalledTMD E (id title) (ext w)).
  set (stored := ES_GetStoredContentsFromTMD E installed (ext w)).
  split; [|split].
  - rewrite negb_false_iff, !andb_true_iff, Z.leb_le, Nat.eqb_eq. tauto.
  - intros Hlt. apply negb_true_iff.
    apply Z.leb_gt in Hlt. rewrite Hlt, andb_false_r. reflexivity.
  - intros present Hstored Hcount Hmissing. apply negb_true_iff.
    apply filter_shorter in Hmissing. rewrite <- Hstored, Hcount in Hmissing.
    assert (Hne : length stored <> GetNumContents P installed) by lia.
    apply Nat.eqb_neq in Hne. rewrite Hne. apply andb_false_r.
Qed.

(** A title installed at the requested version with one of its two contents
    missing needs an install. *)
Lemma ShouldInstallTitle_needs_install_witness :
  let s := Wii.mkSim [] [(Examples.APP, mkTMD Examples.app_tmd)] [7] None [] 0 [] [] [] in
  ShouldInstallTitle Wii.wii Examples.lenient (mkTitle Examples.APP 3) (Wii.start s true)
  = Ret true (Wii.start s true).
Proof.
  cbv zeta.
  destruct (ShouldInstallTitle_needs_install Wii.wii Examples.lenient (mkTitle Examples.APP 3)
              (Wii.start (Wii.mkSim [] [(Examples.APP, mkTMD Examples.app_tmd)] [7]
                            None [] 0 [] [] []) true))
    as (b & Hrun & _ & _ & Hmissing).
  rewrite Hrun. f_equal.
  apply (Hmissing (fun c => existsb (Z.eqb (content_id c)) [7])).
  - vm_compute. reflexivity.
  - vm_compute. reflexivity.
  - exists (mkContent 9 1 0 0 (repeat x00 20)). split; vm_compute; auto.
Defined.
(** ** Required system titles *)

Lemma nus_import_starts {St} (P : Platform) (E : Env St) prefix_url title tmd updated_titles
    w res w' :
  nus_import P E prefix_url title tmd updated_titles w = Ret res w' ->
  grows w w' (starts_with_title_init (GetBytes (fst tmd)) (snd tmd)).
Proof.
  intros Hrun.
  destruct (wp_elim _ _ _ _ _ (nus_import_refines P E prefix_url title tmd updated_titles w) Hrun)
    as (_ & (log & Hlog & Hil) & _).
  exists log. split; [exact Hlog|].
  destruct Hil; unfold starts_with_title_init; eauto.
Qed.



(** ** The update run *)

Lemma update_loop_refines {St} (P : Platform) (E : Env St) fuel prefix_url total :
  forall remaining processed updated_titles w,
    wp (update_loop P E fuel prefix_url total remaining processed updated_titles)
       (fun out w' =>
          m_enable_signature_checks w' = m_enable_signature_checks w /\
          grows w w' (fun log =>
            loop_log P prefix_url (m_enable_signature_checks w) total
                     remaining processed log (fst out)))
       w.
Proof.
  induction remaining as [|title rest IH]; intros processed updated_titles w;
    cbn [update_loop].
  - wp_steps. split; [reflexivity|]. grows_now. constructor.
  - wp_steps.
    + apply negb_true_iff in Heqb. subst a.
      split; [reflexivity|]. grows_now. constructor.
    + wp_use (InstallTitleFromNUS_refines P E prefix_url fuel title updated_titles).
      apply negb_false_iff in Heqb. subst a.
      intros [res updated] w1 (Hflag1 & ilog & Hlog1 & Hnus).
      cbn [calls fst snd] in *. wp_steps.
      * apply negb_true_iff, is_Succeeded_false in Heqb.
        split; [exact Hflag1|]. unfold grows. rewrite Hlog1.
        eexists. split; [rewrite <- !app_assoc; reflexivity|].
        cbn [app fst]. now apply ll_failed.
      * apply negb_false_iff, is_Succeeded_true in Heqb. subst res.
        wp_use IH. intros out w2 (Hflag2 & log & Hlog2 & Hloop).
        cbn [calls] in Hlog2. split; [congruence|].
        unfold grows. rewrite Hlog2, Hlog1.
        eexists. split; [rewrite <- !app_assoc; reflexivity|].
        cbn [app]. rewrite Hflag1 in Hloop. eapply ll_next; eauto.
Qed.

(** C6.  In the loop of the update run, every title starts with one call
    of the progress callback, with the number of titles handled so far, the
    number of titles and the title id.  If the callback refuses, the loop
    returns [Cancelled] with nothing added to the log after that callback: no
    download, no import for the title.  After a title has been handled the
    callback is called once more, with the count increased, and the loop goes
    on with the next title whatever it answers.  So a log of the loop never
    holds a cancellation between the calls of one title. *)
Theorem progress_callback_at_title_boundaries {St} (P : Platform) (E : Env St)
    (fuel : nat) (prefix_url : string) (total : nat) :
  (forall remaining processed updated_titles w out w',
     update_loop P E fuel prefix_url total remaining processed updated_titles w = Ret out w' ->
     grows w w' (fun log =>
       loop_log P prefix_url (m_enable_signature_checks w) total
                remaining processed log (fst out))) /\
  (forall title rest processed updated_titles w,
     fst (update_callback E processed total (id title) (ext w)) = false ->
     update_loop P E fuel prefix_url total (title :: rest) processed updated_titles w
     = Ret (Some Cancelled, updated_titles)
           (mkWorld (snd (update_callback E processed total (id title) (ext w)))
                    (m_enable_signature_checks w)
                    (calls w ++ [EvCallback processed total (id title) false]))) /\
  (forall title rest processed updated_titles w w1 updated w2,
     m_update_callback E processed total (id title) w = Ret true w1 ->
     InstallTitleFromNUS P E fuel prefix_url title updated_titles w1
     = Ret (Succeeded, updated) w2 ->
     update_loop P E fuel prefix_url total (title :: rest) processed updated_titles w
     = update_loop P E fuel prefix_url total rest (S processed) updated
         (mkWorld (snd (update_callback E (S processed) total (id title) (ext w2)))
                  (m_enable_signature_checks w2)
                  (calls w2 ++ [EvCallback (S processed) total (id title)
                                  (fst (update_callback E (S processed) total (id title)
                                                        (ext w2)))]))).
Proof.
  split; [|split].
  - intros remaining processed updated_titles w out w' Hrun.
    exact (proj2 (wp_elim _ _ _ _ _
                    (update_loop_refines P E fuel prefix_url total remaining processed
                                         updated_titles w) Hrun)).
  - intros title rest processed updated_titles w Hno.
    cbn [update_loop]. unfold bind, m_update_callback, call.
    destruct (update_callback E processed total (id title) (ext w)) as [go_on s].
    cbn [fst snd] in *. subst go_on. reflexivity.
  - intros title rest processed updated_titles w w1 updated w2 Hgo Hinstall.
    cbn [update_loop]. unfold bind at 1. rewrite Hgo. cbn [negb].
    unfold bind at 1. rewrite Hinstall. cbn [is_Succeeded negb].
    unfold bind at 1. unfold m_update_callback at 1, call.
    destruct (update_callback E (S processed) total (id title) (ext w2)) as [answer s].
    reflexivity.
Qed.

(** The callback agrees before the first title, refuses after it (which
    counts for nothing) and refuses before the second: the first title is
    installed and the run is cancelled before anything is done for the
    second. *)
Lemma progress_callback_at_title_boundaries_witness :
  match update_loop Wii.wii Examples.lenient 2 Examples.PREFIX 2 Examples.two_titles 0 ∅
                    (Wii.start (Examples.nand_progress [true; false; false]) true) with
  | Ret out w' =>
      (fst out = Some Cancelled /\ elements (snd out) = [Examples.APP]) /\
      grows (Wii.start (Examples.nand_progress [true; false; false]) true) w' (fun log =>
        loop_log Wii.wii Examples.PREFIX
                 (m_enable_signature_checks
                    (Wii.start (Examples.nand_progress [true; false; false]) true))
                 2 Examples.two_titles 0 log (fst out))
  | _ => False
  end.
Proof.
  assert (Hval :
    match update_loop Wii.wii Examples.lenient 2 Examples.PREFIX 2 Examples.two_titles 0 ∅
                      (Wii.start (Examples.nand_progress [true; false; false]) true) with
    | Ret out _ => fst out = Some Cancelled /\ elements (snd out) = [Examples.APP]
    | _ => False
    end) by (vm_compute; split; reflexivity).
  remember (update_loop Wii.wii Examples.lenient 2 Examples.PREFIX 2 Examples.two_titles 0 ∅
              (Wii.start (Examples.nand_progress [true; false; false]) true))
    as run eqn:Hrun in *.
  destruct run as [out w'| |]; [ | exact Hval | exact Hval ].
  split; [exact Hval|].
  exact (proj1 (progress_callback_at_title_boundaries Wii.wii Examples.lenient 2
                  Examples.PREFIX 2)
           Examples.two_titles 0%nat ∅
           (Wii.start (Examples.nand_progress [true; false; false]) true) out w'
           (eq_sym Hrun)).
Defined.
(** ** The result of an update run *)

Lemma nus_content_log_results prefix_url title stored contents log r :
  nus_content_log prefix_url title stored contents log r ->
  r = Succeeded \/ r = DownloadFailed \/ r = ImportFailed.
Proof. induction 1; auto. Qed.

Lemma nus_log_results P prefix_url checks title log res :
  nus_log P prefix_url checks title log res ->
  res = Succeeded \/ res = DownloadFailed \/ res = ImportFailed.
Proof.
  induction 1 as [ | | | | | title ticket certs r answered tmd tmd_certs ioslog ilog res
                              Hr Hios IH Hil ]; auto.
  destruct Hil as [r0 Hr0 | r0 stored clog r1 rf Hr0 Hclog]; auto.
  destruct (rf <? 0); auto. eapply nus_content_log_results; eauto.
Qed.

Lemma loop_log_results P prefix_url checks total remaining processed log out :
  loop_log P prefix_url checks total remaining processed log out ->
  match out with
  | Some res => res = Cancelled \/ res = DownloadFailed \/ res = ImportFailed
  | None => True
  end.
Proof.
  induction 1 as [ | | title rest processed ilog res Hnus Hres | ]; auto.
  destruct (nus_log_results _ _ _ _ _ _ Hnus) as [->|[->| ->]]; auto. congruence.
Qed.


(** ** Decoding the catalog response *)

Lemma parse_titles_Ok (P : Platform) (nodes : list xml_node) (l : list TitleInfo) :
  parse_titles P nodes = Ok l <-> Forall2 (decodes_to P) nodes l.
Proof.
  revert l. induction nodes as [|n nodes IH]; intros l; cbn [parse_titles].
  - split.
    + intros H. injection H as <-. constructor.
    + intros H. inversion H. reflexivity.
  - destruct (stoull16 P (child_text "TitleId" n)) as [title_id|] eqn:Hid.
    + destruct (parse_titles P nodes) as [l'|] eqn:Hrest.
      * split.
        -- intros H. injection H as <-. constructor; [|now apply IH].
           split; [exact Hid|reflexivity].
        -- intros H. inversion H as [|n0 t nodes0 l0 [Ht Hv] Hl]; subst.
           apply IH in Hl. injection Hl as <-.
           destruct t as [tid tv]. cbn [id version] in *.
           rewrite Hid in Ht. injection Ht as <-. now rewrite Hv.
      * split; [discriminate|].
        intros H. inversion H as [|n0 t nodes0 l0 _ Hl]; subst.
        apply IH in Hl. discriminate.
    + split; [discriminate|].
      intros H. inversion H as [|n0 t nodes0 l0 [Ht _] _]; subst.
      rewrite Hid in Ht. discriminate.
Qed.

Lemma parse_titles_Fault (P : Platform) (nodes : list xml_node) :
  parse_titles P nodes = Fault <->
  Exists (fun n => stoull16 P (child_text "TitleId" n) = None) nodes.
Proof.
  induction nodes as [|n nodes IH]; cbn [parse_titles].
  - split; [discriminate|]. intros H. inversion H.
  - destruct (stoull16 P (child_text "TitleId" n)) as [title_id|] eqn:Hid.
    + destruct (parse_titles P nodes) as [l'|] eqn:Hrest.
      * split; [discriminate|].
        intros H. inversion H as [? ? Hn|? ? Hn]; subst; [congruence|].
        apply IH in Hn. discriminate.
      * split; [|reflexivity]. intros _. apply Exists_cons_tl. now apply IH.
    + split; [|reflexivity]. intros _. now apply Exists_cons_hd.
Qed.

(** C8, as the code has it.  The decoder returns the empty result when the
    response does not parse, when the expected root node is absent, when the
    status code in it is not zero, and when the content prefix is empty once
    every [https://] in it has been replaced by [http://].  Otherwise it
    returns that prefix together with one title for each [TitleVersion] child
    of the root node, in document order, the id read in base 16 and the
    version cut to 16 bits; unless the id of some title cannot be read, in
    which case the conversion throws and nothing is returned. *)
Theorem ParseTitlesResponse_decodes (P : Platform) (response : bytes) :
  match load_buffer P response with
  | None => ParseTitlesResponse P response = Ok empty_Response
  | Some doc =>
      match select_node "GetSystemUpdateResponse" doc with
      | None => ParseTitlesResponse P response = Ok empty_Response
      | Some node =>
          let url := ReplaceAll (child_text "ContentPrefixURL" node) "https://" "http://" in
          let nodes := children_named "TitleVersion" node in
          (as_int P (child_text "ErrorCode" node) <> 0 ->
           ParseTitlesResponse P response = Ok empty_Response) /\
          (as_int P (child_text "ErrorCode" node) = 0 -> url = EmptyString ->
           ParseTitlesResponse P response = Ok empty_Response) /\
          (as_int P (child_text "ErrorCode" node) = 0 -> url <> EmptyString ->
           (forall l, ParseTitlesResponse P response = Ok (mkResponse url l) <->
                      Forall2 (decodes_to P) nodes l) /\
           (ParseTitlesResponse P response = Fault <->
            Exists (fun n => stoull16 P (child_text "TitleId" n) = None) nodes) /\
           (forall info, ParseTitlesResponse P response = Ok info ->
                         content_prefix_url info = url))
      end
  end.
Proof.
  unfold ParseTitlesResponse.
  destruct (load_buffer P response) as [doc|]; [|reflexivity].
  destruct (select_node "GetSystemUpdateResponse" doc) as [node|]; [|reflexivity].
  cbv zeta.
  set (url := ReplaceAll (child_text "ContentPrefixURL" node) "https://" "http://").
  set (nodes := children_named "TitleVersion" node).
  split; [|split].
  - intros Hcode. apply Z.eqb_neq in Hcode. now rewrite Hcode.
  - intros Hcode Hurl. rewrite Hcode, Hurl. reflexivity.
  - intros Hcode Hurl. rewrite Hcode. cbn [Z.eqb negb].
    apply String.eqb_neq in Hurl. rewrite Hurl.
    split; [|split].
    + intros l. rewrite <- parse_titles_Ok.
      destruct (parse_titles P nodes) as [l'|]; split; intros H;
        try discriminate; congruence.
    + rewrite <- parse_titles_Fault.
      destruct (parse_titles P nodes) as [l'|]; split; intros H;
        try discriminate; try reflexivity.
    + intros info. destruct (parse_titles P nodes) as [l'|]; [|discriminate].
      intros H. injection H as <-. reflexivity.
Qed.

(** The sample catalog decodes to its prefix, with the scheme replaced, and
    its one title. *)
Lemma ParseTitlesResponse_decodes_witness :
  ParseTitlesResponse Examples.wii_catalog []
  = Ok (mkResponse Examples.PREFIX [mkTitle Examples.APP 3]).
Proof.
  pose proof (ParseTitlesResponse_decodes Examples.wii_catalog []) as H.
  cbn [load_buffer Examples.wii_catalog Wii.platform] in H.
  destruct (select_node "GetSystemUpdateResponse" Examples.catalog) as [node|] eqn:Hnode;
    [|vm_compute in Hnode; discriminate Hnode].
  vm_compute in Hnode. injection Hnode as <-.
  destruct H as (_ & _ & H).
  destruct H as (H & _ & _); [vm_compute; reflexivity|vm_compute; discriminate|].
  apply (H [mkTitle Examples.APP 3]).
  repeat constructor; vm_compute; reflexivity.
Defined.

(** C8 as stated fails: the sample catalog holds the expected root node, and
    the result is not empty. *)
Lemma root_node_present_is_not_a_failure :
  ~ empty_when_root_present Examples.wii_catalog [].
Proof.
  intros H.
  specialize (H Examples.catalog).
  destruct (select_node "GetSystemUpdateResponse" Examples.catalog) as [node|] eqn:Hnode;
    [|vm_compute in Hnode; discriminate Hnode].
  specialize (H node eq_refl eq_refl).
  vm_compute in H. discriminate H.
Qed.
(** ** An imported ticket stays *)

Lemma invariant_bind {St A B} (I : World St -> Prop) (c : M St A) (k : A -> M St B) :
  invariant I c -> (forall a, invariant I (k a)) -> invariant I (bind c k).
Proof.
  intros Hc Hk w Hw. apply wp_bind. eapply wp_conseq; [apply Hc, Hw|].
  intros a w' Hw'. now apply Hk.
Qed.

Lemma invariant_ret {St A} (I : World St -> Prop) (a : A) : invariant I (@ret St A a).
Proof. intros w Hw. exact Hw. Qed.

Lemma invariant_out_of_fuel {St A} (I : World St -> Prop) : invariant I (@out_of_fuel St A).
Proof. intros w Hw. exact Logic.I. Qed.

Lemma invariant_lift_partial {St A} (I : World St -> Prop) (p : partial A) :
  invariant I (@lift_partial St A p).
Proof. intros w Hw. apply wp_lift_partial. auto. Qed.

Section Tickets.
Context {St : Type} (E : Env St) (T : bytes -> St -> Prop) (HE : keeps_tickets E T).

Lemma kept_query {A} (f : St -> A) : invariant (tickets_kept T) (query f).
Proof. intros w Hw. exact Hw. Qed.

Lemma kept_get_checks : invariant (tickets_kept T) (@get_checks St).
Proof. intros w Hw. exact Hw. Qed.

Lemma kept_set_checks b : invariant (tickets_kept T) (@set_checks St b).
Proof. intros w Hw. exact Hw. Qed.

Lemma kept_emit (e : Event) :
  is_ticket_import e = false -> invariant (tickets_kept T) (@emit St e).
Proof.
  intros He w Hw. apply wp_emit. intros ticket certs checks r Hin Hr.
  cbn [calls ext] in *. apply in_app_or in Hin. destruct Hin as [Hin|[Heq|[]]].
  - eapply Hw; eauto.
  - rewrite Heq in He. discriminate He.
Qed.

(** A logged call that is not a ticket import keeps the agreement when it
    keeps the held tickets. *)
Lemma kept_call {A} (f : St -> A * St) (ev : A -> Event) :
  (forall a, is_ticket_import (ev a) = false) ->
  (forall t s, T t s -> T t (snd (f s))) ->
  invariant (tickets_kept T) (call f ev).
Proof.
  intros Hev Hf w Hw. apply wp_call. intros a s Hcall ticket certs checks r Hin Hr.
  cbn [calls ext] in *. apply in_app_or in Hin. destruct Hin as [Hin|[Heq|[]]].
  - replace s with (snd (f (ext w))) by now rewrite Hcall.
    apply Hf. eapply Hw; eauto.
  - specialize (Hev a). rewrite Heq in Hev. discriminate Hev.
Qed.

Lemma kept_ImportTicket ticket certs : invariant (tickets_kept T) (ImportTicket E ticket certs).
Proof.
  intros w Hw. unfold ImportTicket. apply wp_bind, wp_get_checks, wp_call.
  intros a s Hcall t certs' checks r Hin Hr.
  cbn [calls ext] in *. apply in_app_or in Hin.
  replace s with (snd (ES_ImportTicket E ticket certs (m_enable_signature_checks w) (ext w)))
    by now rewrite Hcall.
  destruct Hin as [Hin|[Heq|[]]].
  - apply (kt_ticket E T HE). eapply Hw; eauto.
  - injection Heq as <- _ _ <-. apply (kt_imported E T HE). now rewrite Hcall.
Qed.

Lemma kept_ImportTitleInit tmd certs :
  invariant (tickets_kept T) (ImportTitleInit E tmd certs).
Proof.
  unfold ImportTitleInit. apply invariant_bind; [apply kept_get_checks|].
  intros checks. apply kept_call; [reflexivity|]. intros t s. apply (kt_init E T HE).
Qed.

Lemma kept_ImportContentBegin title_id cid :
  invariant (tickets_kept T) (ImportContentBegin E title_id cid).
Proof. apply kept_call; [reflexivity|]. intros t s. apply (kt_begin E T HE). Qed.

Lemma kept_ImportContentData data : invariant (tickets_kept T) (ImportContentData E data).
Proof. apply kept_call; [reflexivity|]. intros t s. apply (kt_data E T HE). Qed.

Lemma kept_ImportContentEnd : invariant (tickets_kept T) (ImportContentEnd E).
Proof. apply kept_call; [reflexivity|]. intros t s. apply (kt_end E T HE). Qed.

Lemma kept_ImportTitleDone : invariant (tickets_kept T) (ImportTitleDone E).
Proof. apply kept_call; [reflexivity|]. intros t s. apply (kt_done E T HE). Qed.

Lemma kept_ImportTitleCancel : invariant (tickets_kept T) (ImportTitleCancel E).
Proof. apply kept_call; [reflexivity|]. intros t s. apply (kt_cancel E T HE). Qed.

Lemma kept_HttpGet url : invariant (tickets_kept T) (HttpGet E url).
Proof. apply kept_call; [reflexivity|]. intros t s. apply (kt_get E T HE). Qed.

Lemma kept_AskYesNo : invariant (tickets_kept T) (AskYesNo E).
Proof. apply kept_call; [reflexivity|]. intros t s. apply (kt_ask E T HE). Qed.

Lemma kept_PanicAlertT message : invariant (tickets_kept T) (@PanicAlertT St message).
Proof. now apply kept_emit. Qed.

Lemma kept_ClearCache : invariant (tickets_kept T) (@ClearCache St).
Proof. now apply kept_emit. Qed.

(** Goes through a command built from those above. *)
Ltac kept :=
  repeat first
    [ apply invariant_ret
    | apply invariant_out_of_fuel
    | apply invariant_lift_partial
    | apply kept_query
    | apply kept_get_checks
    | apply kept_set_checks
    | apply kept_ImportTicket
    | apply kept_ImportTitleInit
    | apply kept_ImportContentBegin
    | apply kept_ImportContentData
    | apply kept_ImportContentEnd
    | apply kept_ImportTitleDone
    | apply kept_ImportTitleCancel
    | apply kept_HttpGet
    | apply kept_AskYesNo
    | apply kept_PanicAlertT
    | apply kept_ClearCache
    | solve [auto]
    | apply invariant_bind; [|intros ?]
    | match goal with
      | |- invariant _ (if ?b then _ else _) => destruct b
      | |- invariant _ (match ?x with Some _ => _ | None => _ end) => destruct x
      | |- invariant _ (let '(_, _) := ?x in _) => destruct x
      end ].

Lemma kept_nus_contents prefix_url title stored contents :
  invariant (tickets_kept T) (nus_contents E prefix_url title stored contents).
Proof.
  induction contents as [|c rest IH]; cbn [nus_contents]; unfold DownloadContent; kept.
Qed.

Lemma kept_wad_contents wad title_id contents :
  invariant (tickets_kept T) (wad_contents E wad title_id contents).
Proof. induction contents as [|c rest IH]; cbn [wad_contents]; kept. Qed.

Lemma kept_import_loop P fuel wad checks_enabled :
  invariant (tickets_kept T) (import_loop P E fuel wad checks_enabled).
Proof. induction fuel as [|fuel IH]; cbn [import_loop]; kept. Qed.

Lemma kept_InstallWAD P fuel wad : invariant (tickets_kept T) (InstallWAD P E fuel wad).
Proof.
  unfold InstallWAD. pose proof kept_import_loop. pose proof kept_wad_contents. kept.
Qed.

Lemma kept_InstallTitleFromNUS P prefix_url fuel :
  forall title updated_titles,
    invariant (tickets_kept T) (InstallTitleFromNUS P E fuel prefix_url title updated_titles).
Proof.
  induction fuel as [|fuel IH]; intros title updated_titles; cbn [InstallTitleFromNUS].
  - kept.
  - pose proof kept_nus_contents.
    unfold nus_after_ticket, nus_required_ios, nus_import, ShouldInstallTitle,
      DownloadTicket, DownloadTMD, FindInstalledTMD, GetStoredContentsFromTMD.
    kept.
Qed.
End Tickets.

(** C10.  Whatever secure storage is, as long as a successful ticket
    import leaves the ticket in storage and the calls that the installs make
    (ticket import, title-init, content begin, data and end, done, cancel,
    downloads, the prompt) do not remove a held ticket: when an install
    returns, with whatever result, every ticket whose import succeeded
    during it is in storage.  The installs make no other call on secure
    storage; in particular a failure is followed by a cancel of the context
    at most, never by the removal of a ticket. *)
Theorem imported_ticket_stays {St} (P : Platform) (E : Env St) (T : bytes -> St -> Prop) :
  keeps_tickets E T ->
  (forall fuel wad w b w',
     tickets_kept T w ->
     InstallWAD P E fuel wad w = Ret b w' -> tickets_kept T w') /\
  (forall fuel prefix_url title updated_titles w res w',
     tickets_kept T w ->
     InstallTitleFromNUS P E fuel prefix_url title updated_titles w = Ret res w' ->
     tickets_kept T w').
Proof.
  intros HE. split.
  - intros fuel wad w b w' Hw Hrun.
    exact (wp_elim _ _ _ _ _ (kept_InstallWAD E T HE P fuel wad w Hw) Hrun).
  - intros fuel prefix_url title updated_titles w res w' Hw Hrun.
    exact (wp_elim _ _ _ _ _
             (kept_InstallTitleFromNUS E T HE P prefix_url fuel title updated_titles w Hw) Hrun).
Qed.

(** The simulated secure storage keeps its tickets. *)
Lemma simulated_storage_keeps_tickets (lenient : bool) :
  keeps_tickets (Wii.env lenient) (fun ticket s => In ticket (Wii.tickets s)).
Proof.
  constructor; cbn [ES_ImportTicket ES_ImportTitleInit ES_ImportContentBegin
                    ES_ImportContentData ES_ImportContentEnd ES_ImportTitleDone
                    ES_ImportTitleCancel Http_Get AskYesNoT Wii.env].
  - intros ticket certs checks s. unfold Wii.sim_ImportTicket.
    destruct (Wii.refuses lenient certs checks); cbn; [lia|auto].
  - intros t ticket certs checks s. unfold Wii.sim_ImportTicket.
    destruct (Wii.refuses lenient certs checks); cbn; auto.
  - intros t tmd certs checks s. unfold Wii.sim_ImportTitleInit.
    destruct (Wii.refuses lenient certs checks); cbn; auto.
  - intros t title_id cid s. unfold Wii.sim_ImportContentBegin.
    destruct (Wii.importing s); cbn; auto.
  - intros t data s. unfold Wii.sim_ImportContentData. destruct data; cbn; auto.
  - intros t s. cbn. auto.
  - intros t s. unfold Wii.sim_ImportTitleDone. destruct (Wii.importing s); cbn; auto.
  - intros t s. cbn. auto.
  - intros t url s. cbn. auto.
  - intros t s. unfold Wii.sim_AskYesNo. destruct (Wii.answers s); cbn; auto.
Qed.

(** The second content of this package cannot be imported: the title import
    is cancelled, and the ticket imported at the start is still there. *)
Lemma imported_ticket_stays_witness :
  match InstallWAD Wii.wii Examples.lenient 1 Examples.wad_broken
                   (Wii.start Examples.nand true) with
  | Ret _ w' =>
      count (fun e => match e with EvImportTitleCancel _ => true | _ => false end)
            (calls w') = 1%nat /\
      In Examples.a_ticket (Wii.tickets (ext w'))
  | _ => False
  end.
Proof.
  assert (Hval :
    match InstallWAD Wii.wii Examples.lenient 1 Examples.wad_broken
                     (Wii.start Examples.nand true) with
    | Ret _ w' =>
        count (fun e => match e with EvImportTitleCancel _ => true | _ => false end)
              (calls w') = 1%nat /\
        hd_error (calls w') = Some (EvImportTicket Examples.a_ticket Examples.signed true 0)
    | _ => False
    end) by (vm_compute; split; reflexivity).
  remember (InstallWAD Wii.wii Examples.lenient 1 Examples.wad_broken
                       (Wii.start Examples.nand true)) as run eqn:Hrun in *.
  destruct run as [b w'| |]; [ | exact Hval | exact Hval ].
  destruct Hval as [Hcancel Hfirst]. split; [exact Hcancel|].
  pose proof (proj1 (imported_ticket_stays Wii.wii Examples.lenient _
                       (simulated_storage_keeps_tickets true))
                1%nat Examples.wad_broken (Wii.start Examples.nand true) b w'
                (fun _ _ _ _ (H : In _ []) => match H with end) (eq_sym Hrun)) as Hkept.
  apply (Hkept Examples.a_ticket Examples.signed true 0); [|lia].
  destruct (calls w') as [|e log]; [discriminate Hfirst|].
  injection Hfirst as ->. left. reflexivity.
Defined.
(** * Further properties *)

(** ** Downloads *)

Lemma swap16_firstn (buf : bytes) (off n : nat) :
  (off + 2 <= n)%nat -> swap16 (firstn n buf) off = swap16 buf off.
Proof.
  intros Hle. unfold swap16, read_u8.
  rewrite !nth_error_firstn.
  destruct (Nat.ltb_spec off n); [|lia].
  destruct (Nat.ltb_spec (S off) n); [|lia].
  reflexivity.
Qed.



(** X2.  [DownloadTicket] always returns, with one GET added to the log.  It
    gives two empty vectors when there is no answer or the answer is not
    longer than a ticket; otherwise the first [sizeof(Ticket)] bytes of the
    answer and the rest, which is not empty.  So, a ticket having a size,
    either both vectors are empty or neither is: the test of
    [InstallTitleFromNUS] on either being empty fires exactly when the
    download failed or was too short. *)
Theorem DownloadTicket_cuts_the_response {St} (P : Platform) (E : Env St)
    (prefix_url : string) (title : TitleInfo) (w : World St) :
  let answer := Http_Get E (url_cetk prefix_url title) (ext w) in
  exists r,
    DownloadTicket P E prefix_url title w
    = Ret r (mkWorld (snd answer) (m_enable_signature_checks w)
                     (calls w ++ [EvHttpGet (url_cetk prefix_url title)
                                    (match fst answer with Some _ => true | None => false end)]))
    /\
    match fst answer with
    | None => r = ([], [])
    | Some response =>
        if (length response <=? sizeof_Ticket P)%nat then r = ([], [])
        else fst r ++ snd r = response /\ length (fst r) = sizeof_Ticket P /\ snd r <> []
    end /\
    ((0 < sizeof_Ticket P)%nat -> (fst r = [] \/ snd r = []) -> r = ([], [])).
Proof.
  intros answer. unfold DownloadTicket, bind, HttpGet, call. fold answer.
  destruct answer as [[response|] s]; cbn [fst snd]; [|eauto].
  unfold lift_partial, SplitTicket.
  destruct (length response <=? sizeof_Ticket P)%nat eqn:Hshort; [eauto|].
  apply Nat.leb_gt in Hshort.
  rewrite !vec_range_in_bounds by lia.
  rewrite Nat.sub_0_r. change (skipn 0 response) with response.
  rewrite firstn_all2 with (n := (length response - _)%nat) by (rewrite length_skipn; lia).
  eexists. split; [reflexivity|]. cbn [fst snd].
  assert (Hrest : skipn (sizeof_Ticket P) response <> []).
  { intros Hnil. apply (f_equal (@length byte)) in Hnil.
    rewrite length_skipn in Hnil. cbn in Hnil. lia. }
  split; [split; [apply firstn_skipn|split; [rewrite length_firstn; apply Nat.min_l; lia|exact Hrest]]|].
  intros Hsize [Hnil|Hnil]; [|contradiction].
  apply (f_equal (@length byte)) in Hnil.
  rewrite length_firstn, Nat.min_l in Hnil by lia. cbn in Hnil. lia.
Qed.

(** The ticket of the sample game comes with a one-byte certificate chain. *)
Lemma DownloadTicket_cuts_the_response_witness :
  (exists w', DownloadTicket Wii.wii Examples.lenient Examples.PREFIX
                             (mkTitle Examples.GAME 2) (Wii.start Examples.nand true)
              = Ret (Examples.a_ticket, Examples.signed) w') /\
  let answer := Http_Get Examples.lenient (url_cetk Examples.PREFIX (mkTitle Examples.GAME 2))
                         (ext (Wii.start Examples.nand true)) in
  exists r,
    DownloadTicket Wii.wii Examples.lenient Examples.PREFIX (mkTitle Examples.GAME 2)
                   (Wii.start Examples.nand true)
    = Ret r (mkWorld (snd answer) (m_enable_signature_checks (Wii.start Examples.nand true))
                     (calls (Wii.start Examples.nand true)
                      ++ [EvHttpGet (url_cetk Examples.PREFIX (mkTitle Examples.GAME 2))
                            (match fst answer with Some _ => true | None => false end)]))
    /\
    match fst answer with
    | None => r = ([], [])
    | Some response =>
        if (length response <=? sizeof_Ticket Wii.wii)%nat then r = ([], [])
        else fst r ++ snd r = response /\ length (fst r) = sizeof_Ticket Wii.wii /\ snd r <> []
    end /\
    ((0 < sizeof_Ticket Wii.wii)%nat -> (fst r = [] \/ snd r = []) -> r = ([], [])).
Proof.
  split.
  - eexists. vm_compute. reflexivity.
  - exact (DownloadTicket_cuts_the_response Wii.wii Examples.lenient Examples.PREFIX
             (mkTitle Examples.GAME 2) (Wii.start Examples.nand true)).
Defined.
(** ** What a result says about the calls *)

Lemma count_zero_app (p : Event -> bool) (l1 l2 : list Event) :
  count p (l1 ++ l2) = 0%nat <-> count p l1 = 0%nat /\ count p l2 = 0%nat.
Proof. rewrite count_app. lia. Qed.

(** Turns the sign facts in the context into values of the tests. *)
Ltac signs :=
  repeat match goal with
         | H : _ < 0 |- _ => apply Z.ltb_lt in H
         | H : 0 <= _ |- _ => apply Z.ltb_ge in H
         end.

Ltac count_now :=
  unfold count; cbn [List.filter app failed_es unanswered is_cancel commits is_done
                     is_cache_clear is_alert is_post negb length];
  repeat match goal with
         | H : (_ <? 0) = _ |- _ => rewrite H
         end;
  cbn [List.filter negb length].

(** A content phase: it fails with [ImportFailed] exactly when one of its
    calls on secure storage failed, and it succeeds only if every download was
    answered. *)
Lemma nus_content_log_failures prefix_url title stored contents log r :
  nus_content_log prefix_url title stored contents log r ->
  (r = ImportFailed <-> count failed_es log <> 0%nat) /\
  (r = Succeeded -> count unanswered log = 0%nat) /\
  count is_cancel log = 0%nat /\ count is_done log = 0%nat /\
  count is_cache_clear log = 0%nat /\ count is_post log = 0%nat.
Proof.
  induction 1 as [ | c rest log r Hc Hrest IH | c rest r1 Hc Hr1 | c rest r1 Hc Hr1
                 | c rest r1 data r2 Hc Hr1 Hr2 | c rest r1 data r2 r3 Hc Hr1 Hr2 Hr3
                 | c rest r1 data r2 r3 log r Hc Hr1 Hr2 Hr3 Hrest IH ];
    signs; try exact IH;
    try (count_now; repeat split; intros; try reflexivity; try congruence; try lia; fail).
  destruct IH as (IHf & IHu & IHc & IHd & IHk & IHp).
  unfold count in *. cbn [List.filter failed_es unanswered is_cancel is_done
                           is_cache_clear is_post negb].
  rewrite Hr1, Hr2, Hr3. repeat split; auto; apply IHf.
Qed.

Lemma nus_import_log_failures prefix_url title contents tmd certs checks log res :
  nus_import_log prefix_url title contents tmd certs checks log res ->
  (res = ImportFailed <-> count failed_es log <> 0%nat) /\
  (res = Succeeded -> count unanswered log = 0%nat /\ count is_cancel log = 0%nat) /\
  count is_cache_clear log = 0%nat /\ count is_post log = 0%nat.
Proof.
  destruct 1 as [r0 Hr0 | r0 stored clog r rf Hr0 Hclog].
  - signs. count_now. repeat split; intros; try reflexivity; try congruence; lia.
  - destruct (nus_content_log_failures _ _ _ _ _ _ Hclog) as (Hf & Hu & Hc & Hd & Hk & Hp).
    signs.
    change (EvImportTitleInit tmd certs checks r0 :: clog ++ [settle_event r rf])
      with ([EvImportTitleInit tmd certs checks r0] ++ clog ++ [settle_event r rf]).
    rewrite !count_app, Hk, Hp.
    replace (count failed_es [EvImportTitleInit tmd certs checks r0]) with 0%nat
      by (count_now; reflexivity).
    replace (count unanswered [EvImportTitleInit tmd certs checks r0]) with 0%nat
      by reflexivity.
    replace (count is_cancel [EvImportTitleInit tmd certs checks r0]) with 0%nat
      by reflexivity.
    replace (count is_cache_clear [EvImportTitleInit tmd certs checks r0]) with 0%nat
      by reflexivity.
    replace (count is_post [EvImportTitleInit tmd certs checks r0]) with 0%nat
      by reflexivity.
    rewrite Hc.
    assert (Hsettle : count failed_es [settle_event r rf] = (if rf <? 0 then 1%nat else 0%nat) /\
                      count unanswered [settle_event r rf] = 0%nat /\
                      count is_cancel [settle_event r rf]
                      = (if is_Succeeded r then 0%nat else 1%nat) /\
                      count is_cache_clear [settle_event r rf] = 0%nat /\
                      count is_post [settle_event r rf] = 0%nat).
    { unfold settle_event. destruct (is_Succeeded r), (rf <? 0) eqn:Hrf;
        count_now; repeat split; reflexivity. }
    destruct Hsettle as (-> & -> & -> & -> & ->).
    cbn [Nat.add]. rewrite !Nat.add_0_r.
    destruct (rf <? 0) eqn:Hrf.
    + repeat split; intros; try reflexivity; try congruence; lia.
    + rewrite Nat.add_0_r. split; [exact Hf|]. split; [|split; reflexivity].
      intros ->. split; [apply Hu|]; reflexivity.
Qed.

Lemma nus_log_failures P prefix_url checks title log res :
  nus_log P prefix_url checks title log res ->
  (res = ImportFailed <-> count failed_es log <> 0%nat) /\
  (res = Succeeded -> count is_cancel log = 0%nat) /\
  count is_cache_clear log = 0%nat /\ count is_post log = 0%nat.
Proof.
  induction 1 as [ | title answered | title ticket certs r Hr | title ticket certs r answered Hr
                 | title ticket certs r answered tmd ioslog res Hr Hios IH Hres
                 | title ticket certs r answered tmd tmd_certs ioslog ilog res Hr Hios IH Hil ];
    signs;
    try (count_now; repeat split; intros; try reflexivity; try congruence; try lia; fail).
  - destruct IH as (IHf & IHu & IHk & IHp).
    rewrite !count_app, IHk, IHp.
    replace (count failed_es _) with 0%nat at 1 by (count_now; reflexivity).
    cbn [Nat.add]. repeat split; auto; try apply IHf.
  - destruct IH as (IHf & IHu & IHk & IHp).
    specialize (IHu eq_refl).
    destruct (nus_import_log_failures _ _ _ _ _ _ _ _ Hil) as (Hf & Hu & Hk & Hp).
    assert (Hios0 : count failed_es ioslog = 0%nat).
    { destruct (count failed_es ioslog) eqn:Hn; [reflexivity|].
      assert (Succeeded = ImportFailed) by (apply IHf; lia). discriminate. }
    rewrite !count_app, IHk, IHp, Hk, Hp, Hios0, IHu.
    replace (count failed_es _) with 0%nat at 1 by (count_now; reflexivity).
    replace (count is_cancel _) with 0%nat at 1 by reflexivity.
    cbn [Nat.add].
    replace (count is_cache_clear _) with 0%nat at 1 by reflexivity.
    replace (count is_post _) with 0%nat at 1 by reflexivity.
    split; [exact Hf|]. split; [|split; reflexivity].
    intros Hs. apply Hu, Hs.
Qed.



(** ** What [InstallWAD] returns *)

Lemma attempt_log_quiet {St} (E : Env St) wad checks log r :
  attempt_log E wad checks log r ->
  count is_cache_clear log = 0%nat /\ count is_alert log = 0%nat.
Proof. destruct 1; split; reflexivity. Qed.

Lemma wad_loop_log_alerts {St} (P : Platform) (E : Env St) wad checks_enabled checks log b :
  wad_loop_log P E wad checks_enabled checks log b ->
  count is_cache_clear log = 0%nat /\
  (if b then count is_alert log = 0%nat
   else exists pre, log = pre ++ [alert_initialise]).
Proof.
  induction 1 as [ checks log r Ha Hr | checks log r Ha Hr Hno | checks log r Ha Hr Hen Hcode
                 | checks log r rest b Ha Hr Hen Hcode Hrest IH ];
    destruct (attempt_log_quiet _ _ _ _ _ Ha) as [Hk Hal].
  - split; assumption.
  - rewrite count_app, Hk. split; [reflexivity|]. exists log. reflexivity.
  - rewrite count_app, Hk. split; [reflexivity|].
    exists (log ++ [EvAskYesNo false]). rewrite <- app_assoc. reflexivity.
  - destruct IH as [IHk IHb].
    change (EvAskYesNo true :: rest) with ([EvAskYesNo true] ++ rest).
    rewrite !count_app, Hk, IHk. split; [reflexivity|].
    destruct b.
    + rewrite Hal, IHb. reflexivity.
    + destruct IHb as [pre ->]. exists (log ++ [EvAskYesNo true] ++ pre).
      rewrite <- !app_assoc. reflexivity.
Qed.

Lemma wad_content_log_alerts wad title_id contents log b :
  wad_content_log wad title_id contents log b ->
  count is_cache_clear log = 0%nat /\
  count is_alert log = (if b then 0%nat else 1%nat).
Proof.
  induction 1; try (split; reflexivity). assumption.
Qed.


(** ** The set of updated titles *)

Lemma count_le (p q : Event -> bool) (log : list Event) :
  (forall e, p e = true -> q e = true) -> (count p log <= count q log)%nat.
Proof.
  intros Hpq. induction log as [|e log IH]; [reflexivity|].
  rewrite !count_cons. specialize (Hpq e).
  destruct (p e), (q e); try lia; discriminate (Hpq eq_refl).
Qed.

Lemma commits_is_done (e : Event) : commits e = true -> is_done e = true.
Proof. destruct e; simpl; congruence. Qed.

Lemma tracks_same (updated : gset Z) (log : list Event) :
  count commits log = 0%nat -> tracks updated updated log.
Proof. intros H. split; [reflexivity|]. split; [reflexivity|]. intros Hn. contradiction. Qed.

Lemma tracks_app (u0 u1 u2 : gset Z) (l1 l2 : list Event) :
  tracks u0 u1 l1 -> tracks u1 u2 l2 -> tracks u0 u2 (l1 ++ l2).
Proof.
  intros (Hsub1 & Hsame1 & Hne1) (Hsub2 & Hsame2 & Hne2).
  unfold tracks. rewrite count_app. split; [etransitivity; eassumption|]. split.
  - intros H. rewrite Hsame2; [apply Hsame1|]; lia.
  - intros H. destruct (count commits l2) eqn:H2.
    + rewrite Hsame2; [|reflexivity]. apply Hne1. lia.
    + apply Hne2. lia.
Qed.

Lemma grows_after {St} (w w0 w1 : World St) (pre : list Event)
    (Phi Psi : list Event -> Prop) :
  calls w0 = calls w ++ pre -> grows w0 w1 Phi ->
  (forall l, Phi l -> Psi (pre ++ l)) ->
  grows w w1 Psi.
Proof.
  intros Hpre (l & Hl & Hphi) H. exists (pre ++ l). split; [|auto].
  now rewrite Hl, Hpre, app_assoc.
Qed.

Lemma nus_contents_commits {St} (E : Env St) prefix_url title stored contents :
  forall w,
    wp (nus_contents E prefix_url title stored contents)
       (fun r w' => grows w w' (fun log => count commits log = 0%nat))
       w.
Proof.
  intros w. wp_use (@nus_contents_log St E).
  intros r w' [_ (log & Hlog & Hclog)]. exists log. split; [exact Hlog|].
  destruct (nus_content_log_failures _ _ _ _ _ _ Hclog) as (_ & _ & _ & Hd & _).
  pose proof (count_le commits is_done log commits_is_done). lia.
Qed.

Lemma nus_import_tracks {St} (P : Platform) (E : Env St) prefix_url title tmd updated_titles :
  forall w,
    wp (nus_import P E prefix_url title tmd updated_titles)
       (fun res w' => grows w w' (tracks updated_titles (snd res)))
       w.
Proof.
  intros w. unfold nus_import. wp_steps.
  - grows_now. apply tracks_same. reflexivity.
  - wp_use (@nus_contents_commits St E). intros r w1 (clog & Hlog & Hclog).
    cbn [calls] in Hlog.
    wp_steps; cbn [fst snd]; unfold grows; cbn [calls]; rewrite Hlog;
      (eexists; split; [rewrite <- !app_assoc; reflexivity|]);
      cbn [app];
      match goal with
      | |- tracks _ _ (?e :: clog ++ [?s]) => change (e :: clog ++ [s]) with ([e] ++ clog ++ [s])
      end.
    all: try (apply tracks_same; rewrite !count_app, Hclog; unfold count;
              cbn [List.filter commits negb length];
              repeat match goal with H : (_ <? 0) = _ |- _ => rewrite H end;
              reflexivity).
    split; [set_solver|]. split.
    + rewrite !count_app, Hclog. unfold count. cbn [List.filter commits].
      match goal with H : (_ <? 0) = false |- _ => rewrite H end.
      cbn. discriminate.
    + intros _. set_solver.
Qed.

Lemma nus_required_ios_tracks {St} (P : Platform) (E : Env St)
    (self : TitleInfo -> gset Z -> M St (UpdateResult * gset Z)) :
  (forall title updated_titles w,
     wp (self title updated_titles)
        (fun res w' => grows w w' (tracks updated_titles (snd res))) w) ->
  forall tmd updated_titles w,
    wp (nus_required_ios P E self tmd updated_titles)
       (fun res w' => grows w w' (tracks updated_titles (snd res))) w.
Proof.
  intros Hself tmd updated_titles w. unfold nus_required_ios.
  wp_steps; cbn [fst snd]; try (grows_now; apply tracks_same; reflexivity).
  apply Hself.
Qed.

Lemma InstallTitleFromNUS_tracks {St} (P : Platform) (E : Env St) prefix_url :
  forall fuel title updated_titles w,
    wp (InstallTitleFromNUS P E fuel prefix_url title updated_titles)
       (fun res w' => grows w w' (tracks updated_titles (snd res))) w.
Proof.
  induction fuel as [|fuel IH]; intros title updated_titles w; cbn [InstallTitleFromNUS].
  - wp_steps.
  - wp_steps; cbn [fst snd]; try (grows_now; apply tracks_same; reflexivity).
    unfold nus_after_ticket.
    wp_steps; cbn [fst snd]; try (grows_now; apply tracks_same; reflexivity).
    all: wp_use (nus_required_ios_tracks P E _ IH).
    all: intros [res upd1] w1 Hios; cbn [fst snd] in *.
    all: wp_steps; cbn [fst snd].
    all: try (eapply grows_after; [ | exact Hios | ];
              [ cbn [calls]; rewrite <- ?app_assoc; reflexivity
              | intros l Hl; apply tracks_app with (u1 := updated_titles);
                [apply tracks_same; reflexivity | exact Hl] ]; fail).
    all: wp_use (@nus_import_tracks St P E).
    all: intros [res2 upd2] w2 Himp; cbn [fst snd] in *.
    all: eapply grows_trans;
           [ eapply grows_after; [ | exact Hios | ];
             [ cbn [calls]; rewrite <- ?app_assoc; reflexivity
             | intros l Hl; apply tracks_app with (u1 := updated_titles);
                [apply tracks_same; reflexivity | exact Hl] ]
           | exact Himp
           | intros l1 l2 Ht1 Ht2; apply (tracks_app _ _ _ l1 l2 Ht1 Ht2) ].
Qed.

Lemma update_loop_tracks {St} (P : Platform) (E : Env St) fuel prefix_url total :
  forall remaining processed updated_titles w,
    wp (update_loop P E fuel prefix_url total remaining processed updated_titles)
       (fun out w' => grows w w' (tracks updated_titles (snd out))) w.
Proof.
  induction remaining as [|title rest IH]; intros processed updated_titles w;
    cbn [update_loop].
  - wp_steps. grows_now. apply tracks_same. reflexivity.
  - wp_steps.
    + grows_now. apply tracks_same. reflexivity.
    + wp_use (InstallTitleFromNUS_tracks P E prefix_url fuel title updated_titles).
      intros [res updated] w1 Hnus. cbn [fst snd] in *. wp_steps.
      * eapply grows_after; [ | exact Hnus | ];
          [ cbn [calls]; reflexivity
          | intros l Hl; apply tracks_app with (u1 := updated_titles);
            [apply tracks_same; reflexivity | exact Hl] ].
      * wp_use IH. intros out w2 (l2 & Hl2 & Ht2).
        destruct Hnus as (l1 & Hl1 & Ht1). cbn [calls] in *.
        unfold grows. rewrite Hl2, Hl1.
        eexists. split; [rewrite <- !app_assoc; reflexivity|].
        apply tracks_app with (u1 := updated_titles); [apply tracks_same; reflexivity|].
        apply tracks_app with (u1 := updated); [exact Ht1|].
        apply tracks_app with (u1 := updated); [apply tracks_same; reflexivity|].
        exact Ht2.
Qed.

(** ** The update run as a whole *)

Lemma GetSystemTitles_posts {St} (P : Platform) (E : Env St) region :
  forall w,
    wp (GetSystemTitles P E region)
       (fun info w' =>
          m_enable_signature_checks w' = m_enable_signature_checks w /\
          exists payload answered,
            calls w' = calls w ++ [EvHttpPost NUS_URL payload answered] /\
            (answered = false -> info = empty_Response))
       w.
Proof.
  intros w. unfold GetSystemTitles, GetDeviceId, GetDeviceRegion.
  wp_steps; (split; [reflexivity|]); eexists _, _; (split; [reflexivity|]);
    intros; try discriminate; reflexivity.
Qed.

Lemma loop_log_quiet P prefix_url checks total remaining processed log out :
  loop_log P prefix_url checks total remaining processed log out ->
  count is_post log = 0%nat /\ count is_cache_clear log = 0%nat.
Proof.
  induction 1 as [ | | title rest processed ilog res Hnus Hres
                 | title rest processed ilog answer log out Hnus Hloop IH ];
    try (split; reflexivity).
  - destruct (nus_log_failures _ _ _ _ _ _ Hnus) as (_ & _ & Hk & Hp).
    rewrite !count_cons, Hk, Hp. split; reflexivity.
  - destruct (nus_log_failures _ _ _ _ _ _ Hnus) as (_ & _ & Hk & Hp).
    destruct IH as [IHp IHk].
    rewrite !count_cons, !count_app, !count_cons, Hk, Hp, IHp, IHk. split; reflexivity.
Qed.

(** An update run, taken apart: the catalog request, then the loop. *)
Lemma update_run_log {St} (P : Platform) (E : Env St) fuel region w r w' :
  OnlineSystemUpdater_DoOnlineUpdate P E fuel region w = Ret r w' ->
  exists info w0 payload answered,
    GetSystemTitles P E region w = Ret info w0 /\
    calls w0 = calls w ++ [EvHttpPost NUS_URL payload answered] /\
    (answered = false -> info = empty_Response) /\
    match titles info with
    | [] => r = ServerFailed /\ w' = w0
    | _ :: _ =>
        exists out log,
          calls w' = calls w0 ++ log /\
          loop_log P (content_prefix_url info) (m_enable_signature_checks w)
                   (length (titles info)) (titles info) 0 log (fst out) /\
          tracks ∅ (snd out) log /\
          r = match fst out with
              | Some res => res
              | None => if bool_decide (snd out = ∅) then AlreadyUpToDate else Succeeded
              end
    end.
Proof.
  unfold OnlineSystemUpdater_DoOnlineUpdate, bind. intros Hrun.
  destruct (GetSystemTitles P E region w) as [info w0| |] eqn:Hinfo; try discriminate.
  destruct (wp_elim _ _ _ _ _ (GetSystemTitles_posts P E region w) Hinfo)
    as (Hflag & payload & answered & Hpost & Hanswered).
  exists info, w0, payload, answered.
  split; [reflexivity|]. split; [exact Hpost|]. split; [exact Hanswered|].
  destruct (titles info) as [|title rest] eqn:Htitles.
  - injection Hrun as <- <-. auto.
  - destruct (update_loop P E fuel _ _ _ _ _ w0) as [out w1| |] eqn:Hloop; try discriminate.
    destruct (wp_elim _ _ _ _ _
                (update_loop_refines P E fuel (content_prefix_url info)
                   (length (title :: rest)) (title :: rest) 0%nat ∅ w0) Hloop)
      as (_ & log & Hlog & Hll).
    destruct (wp_elim _ _ _ _ _
                (update_loop_tracks P E fuel (content_prefix_url info)
                   (length (title :: rest)) (title :: rest) 0%nat ∅ w0) Hloop)
      as (log' & Hlog' & Htracks).
    assert (log' = log) as -> by (apply (app_inv_head (calls w0)); congruence).
    rewrite Hflag in Hll.
    exists out, log.
    destruct (fst out) as [res|] eqn:Hout.
    + injection Hrun as <- <-. auto.
    + destruct (bool_decide (snd out = ∅)); injection Hrun as <- <-; auto.
Qed.

(** X5.  What an update run committed.  A run that returns
    [AlreadyUpToDate] committed no title import, and a run that returns
    [Succeeded] committed at least one; a run that returns [ServerFailed]
    committed none either. *)
Theorem update_run_result_counts_commits {St} (P : Platform) (E : Env St)
    (fuel : nat) (region : string) (w : World St) (r : UpdateResult) (w' : World St) :
  OnlineSystemUpdater_DoOnlineUpdate P E fuel region w = Ret r w' ->
  grows w w' (fun log =>
    (r = AlreadyUpToDate -> count commits log = 0%nat) /\
    (r = Succeeded -> count commits log <> 0%nat) /\
    (r = ServerFailed -> count commits log = 0%nat)).
Proof.
  intros Hrun.
  destruct (update_run_log P E fuel region w r w' Hrun)
    as (info & w0 & payload & answered & _ & Hpost & _ & Hrest).
  destruct (titles info) as [|title rest].
  - destruct Hrest as [-> ->]. exists [EvHttpPost NUS_URL payload answered].
    split; [exact Hpost|]. repeat split; intros; try discriminate; reflexivity.
  - destruct Hrest as (out & log & Hlog & Hll & (_ & Hsame & Hne) & Hr).
    exists ([EvHttpPost NUS_URL payload answered] ++ log).
    split; [rewrite Hlog, Hpost, <- app_assoc; reflexivity|].
    rewrite count_app. change (count commits [EvHttpPost NUS_URL payload answered]) with 0%nat.
    cbn [Nat.add].
    apply loop_log_results in Hll.
    destruct (fst out) as [res|].
    + subst r. repeat split; intros ->; destruct Hll as [?|[?|?]]; discriminate.
    + destruct (bool_decide (snd out = ∅)) eqn:Hempty; subst r;
        repeat split; intros; try discriminate.
      * apply bool_decide_eq_true in Hempty.
        destruct (count commits log) eqn:Hn; [reflexivity|].
        exfalso. apply Hne; [lia | exact Hempty].
      * apply bool_decide_eq_false in Hempty. intros Hn. apply Hempty.
        apply Hsame, Hn.
Qed.

(** On an empty NAND the run installs the one title of the catalog and
    returns [Succeeded] after one commit; on a NAND that holds it, the run
    returns [AlreadyUpToDate] and commits nothing. *)
Lemma update_run_result_counts_commits_witness :
  match OnlineSystemUpdater_DoOnlineUpdate Examples.wii_catalog Examples.lenient 2 EmptyString
                                           (Wii.start Examples.nand true) with
  | Ret r w' =>
      (r = Succeeded /\ count commits (calls w') = 1%nat) /\
      grows (Wii.start Examples.nand true) w' (fun log =>
        (r = AlreadyUpToDate -> count commits log = 0%nat) /\
        (r = Succeeded -> count commits log <> 0%nat) /\
        (r = ServerFailed -> count commits log = 0%nat))
  | _ => False
  end.
Proof.
  assert (Hval :
    match OnlineSystemUpdater_DoOnlineUpdate Examples.wii_catalog Examples.lenient 2 EmptyString
                                             (Wii.start Examples.nand true) with
    | Ret r w' => r = Succeeded /\ count commits (calls w') = 1%nat
    | _ => False
    end) by (vm_compute; split; reflexivity).
  remember (OnlineSystemUpdater_DoOnlineUpdate Examples.wii_catalog Examples.lenient 2
              EmptyString (Wii.start Examples.nand true)) as run eqn:Hrun in *.
  destruct run as [r w'| |]; [ | exact Hval | exact Hval ].
  split; [exact Hval|].
  exact (update_run_result_counts_commits Examples.wii_catalog Examples.lenient 2%nat
           EmptyString (Wii.start Examples.nand true) r w' (eq_sym Hrun)).
Defined.

Lemma loop_log_not_empty P prefix_url checks total title rest processed log out :
  loop_log P prefix_url checks total (title :: rest) processed log out -> log <> [].
Proof. inversion 1; discriminate. Qed.

(** X6.  An update run asks the server once.  Its first call is the POST
    of the catalog request to the update server's address, and it makes no
    other POST.  If that POST gets no answer the run returns [ServerFailed];
    and a run returns [ServerFailed] exactly when the POST is its only call:
    nothing is downloaded or imported, and the progress callback is never
    called. *)
Theorem update_run_asks_the_server_once {St} (P : Platform) (E : Env St)
    (fuel : nat) (region : string) (w : World St) (r : UpdateResult) (w' : World St) :
  OnlineSystemUpdater_DoOnlineUpdate P E fuel region w = Ret r w' ->
  grows w w' (fun log =>
    exists payload answered rest,
      log = EvHttpPost NUS_URL payload answered :: rest /\
      count is_post rest = 0%nat /\
      (answered = false -> r = ServerFailed) /\
      (r = ServerFailed <-> rest = [])).
Proof.
  intros Hrun.
  destruct (update_run_log P E fuel region w r w' Hrun)
    as (info & w0 & payload & answered & _ & Hpost & Hanswered & Hrest).
  destruct (titles info) as [|title rest] eqn:Htitles.
  - destruct Hrest as [-> ->]. exists [EvHttpPost NUS_URL payload answered].
    split; [exact Hpost|]. exists payload, answered, [].
    repeat split; reflexivity.
  - destruct Hrest as (out & log & Hlog & Hll & _ & Hr).
    exists ([EvHttpPost NUS_URL payload answered] ++ log).
    split; [rewrite Hlog, Hpost, <- app_assoc; reflexivity|].
    exists payload, answered, log. split; [reflexivity|].
    split; [apply (loop_log_quiet _ _ _ _ _ _ _ _ Hll)|]. split.
    + intros Hno. apply Hanswered in Hno. subst info. discriminate Htitles.
    + pose proof (loop_log_not_empty _ _ _ _ _ _ _ _ _ Hll) as Hne.
      pose proof (loop_log_results _ _ _ _ _ _ _ _ Hll) as Hres.
      split; [|intros Hnil; contradiction].
      intros ->. exfalso.
      destruct (fst out) as [res|].
      * subst res. destruct Hres as [?|[?|?]]; discriminate.
      * destruct (bool_decide (snd out = ∅)); discriminate.
Qed.

(** With no server to answer, the run stops after the request. *)
Lemma update_run_asks_the_server_once_witness :
  match OnlineSystemUpdater_DoOnlineUpdate Examples.wii_catalog Examples.lenient 2 EmptyString
                                           (Wii.start Wii.blank true) with
  | Ret r w' =>
      r = ServerFailed /\
      grows (Wii.start Wii.blank true) w' (fun log =>
        exists payload answered rest,
          log = EvHttpPost NUS_URL payload answered :: rest /\
          count is_post rest = 0%nat /\
          (answered = false -> r = ServerFailed) /\
          (r = ServerFailed <-> rest = []))
  | _ => False
  end.
Proof.
  assert (Hval :
    match OnlineSystemUpdater_DoOnlineUpdate Examples.wii_catalog Examples.lenient 2 EmptyString
                                             (Wii.start Wii.blank true) with
    | Ret r w' => r = ServerFailed
    | _ => False
    end) by (vm_compute; reflexivity).
  remember (OnlineSystemUpdater_DoOnlineUpdate Examples.wii_catalog Examples.lenient 2
              EmptyString (Wii.start Wii.blank true)) as run eqn:Hrun in *.
  destruct run as [r w'| |]; [ | exact Hval | exact Hval ].
  split; [exact Hval|].
  exact (update_run_asks_the_server_once Examples.wii_catalog Examples.lenient 2%nat
           EmptyString (Wii.start Wii.blank true) r w' (eq_sym Hrun)).
Defined.

(** X7.  [WiiUtils::DoOnlineUpdate] returns what the updater's run
    returns, whatever that is, and clears the content cache once, as its last
    call: the run itself never clears it. *)
Theorem DoOnlineUpdate_clears_the_cache_last {St} (P : Platform) (E : Env St)
    (fuel : nat) (region : string) (w : World St) (r : UpdateResult) (w' : World St) :
  DoOnlineUpdate P E fuel region w = Ret r w' ->
  exists w1,
    OnlineSystemUpdater_DoOnlineUpdate P E fuel region w = Ret r w1 /\
    w' = mkWorld (ext w1) (m_enable_signature_checks w1) (calls w1 ++ [EvClearCache]) /\
    grows w w1 (fun log => count is_cache_clear log = 0%nat).
Proof.
  unfold DoOnlineUpdate, bind, ClearCache, emit, ret. intros Hrun.
  destruct (OnlineSystemUpdater_DoOnlineUpdate P E fuel region w) as [r1 w1| |] eqn:Hinner;
    try discriminate.
  injection Hrun as <- <-. exists w1. split; [reflexivity|]. split; [reflexivity|].
  destruct (update_run_log P E fuel region w r1 w1 Hinner)
    as (info & w0 & payload & answered & _ & Hpost & _ & Hrest).
  destruct (titles info) as [|title rest].
  - destruct Hrest as [_ ->]. exists [EvHttpPost NUS_URL payload answered].
    split; [exact Hpost|reflexivity].
  - destruct Hrest as (out & log & Hlog & Hll & _).
    exists ([EvHttpPost NUS_URL payload answered] ++ log).
    split; [rewrite Hlog, Hpost, <- app_assoc; reflexivity|].
    rewrite count_app. rewrite (proj2 (loop_log_quiet _ _ _ _ _ _ _ _ Hll)). reflexivity.
Qed.

(** The cache is cleared after a run that failed at the server, too. *)
Lemma DoOnlineUpdate_clears_the_cache_last_witness :
  match DoOnlineUpdate Examples.wii_catalog Examples.lenient 2 EmptyString
                       (Wii.start Wii.blank true) with
  | Ret r w' =>
      r = ServerFailed /\
      exists w1,
        OnlineSystemUpdater_DoOnlineUpdate Examples.wii_catalog Examples.lenient 2 EmptyString
                                           (Wii.start Wii.blank true) = Ret r w1 /\
        w' = mkWorld (ext w1) (m_enable_signature_checks w1) (calls w1 ++ [EvClearCache]) /\
        grows (Wii.start Wii.blank true) w1 (fun log => count is_cache_clear log = 0%nat)
  | _ => False
  end.
Proof.
  assert (Hval :
    match DoOnlineUpdate Examples.wii_catalog Examples.lenient 2 EmptyString
                         (Wii.start Wii.blank true) with
    | Ret r w' => r = ServerFailed
    | _ => False
    end) by (vm_compute; reflexivity).
  remember (DoOnlineUpdate Examples.wii_catalog Examples.lenient 2 EmptyString
                           (Wii.start Wii.blank true)) as run eqn:Hrun in *.
  destruct run as [r w'| |]; [ | exact Hval | exact Hval ].
  split; [exact Hval|].
  exact (DoOnlineUpdate_clears_the_cache_last Examples.wii_catalog Examples.lenient 2%nat
           EmptyString (Wii.start Wii.blank true) r w' (eq_sym Hrun)).
Defined.

(** ** The progress reports of a run *)

Lemma callback_args_app (l1 l2 : list Event) :
  callback_args (l1 ++ l2) = callback_args l1 ++ callback_args l2.
Proof. apply flat_map_app. Qed.

Lemma nus_content_log_callbacks prefix_url title stored contents log r :
  nus_content_log prefix_url title stored contents log r -> callback_args log = [].
Proof. induction 1; try reflexivity; assumption. Qed.

Lemma nus_import_log_callbacks prefix_url title contents tmd certs checks log res :
  nus_import_log prefix_url title contents tmd certs checks log res ->
  callback_args log = [].
Proof.
  destruct 1 as [r0 Hr0 | r0 stored clog r rf Hr0 Hclog]; [reflexivity|].
  change (EvImportTitleInit tmd certs checks r0 :: clog ++ [settle_event r rf])
    with ([EvImportTitleInit tmd certs checks r0] ++ clog ++ [settle_event r rf]).
  rewrite !callback_args_app, (nus_content_log_callbacks _ _ _ _ _ _ Hclog).
  unfold settle_event. destruct (is_Succeeded r); reflexivity.
Qed.

Lemma nus_log_callbacks P prefix_url checks title log res :
  nus_log P prefix_url checks title log res -> callback_args log = [].
Proof.
  induction 1 as [ | | | | title ticket certs r answered tmd ioslog res Hr Hios IH Hres
                 | title ticket certs r answered tmd tmd_certs ioslog ilog res Hr Hios IH Hil ];
    try reflexivity.
  - rewrite callback_args_app, IH. reflexivity.
  - rewrite !callback_args_app, IH, (nus_import_log_callbacks _ _ _ _ _ _ _ _ Hil).
    reflexivity.
Qed.

Lemma loop_log_callbacks P prefix_url checks total remaining processed log out :
  loop_log P prefix_url checks total remaining processed log out ->
  exists rest,
    expected_callbacks total remaining processed = callback_args log ++ rest /\
    (rest = [] <-> out = None).
Proof.
  induction 1 as [ | | title rest processed ilog res Hnus Hres
                 | title rest processed ilog answer log out Hnus Hloop IH ].
  - exists []. split; [reflexivity|]. split; reflexivity.
  - eexists. split; [reflexivity|]. split; discriminate.
  - change (EvCallback processed total (id title) true :: ilog)
      with ([EvCallback processed total (id title) true] ++ ilog).
    rewrite callback_args_app, (nus_log_callbacks _ _ _ _ _ _ Hnus).
    eexists. split; [reflexivity|]. split; discriminate.
  - destruct IH as (more & Hmore & Hnone).
    exists more. split; [|exact Hnone].
    change (EvCallback processed total (id title) true :: ilog ++
            EvCallback (S processed) total (id title) answer :: log)
      with ([EvCallback processed total (id title) true] ++ ilog ++
            [EvCallback (S processed) total (id title) answer] ++ log).
    rewrite !callback_args_app, (nus_log_callbacks _ _ _ _ _ _ Hnus).
    cbn [expected_callbacks]. rewrite Hmore. reflexivity.
Qed.

(** X8.  The progress reports of an update run.  With [n] titles in the
    catalog, the callback is meant to be called twice per title in catalog
    order: before the title with the number of titles handled so far, after it
    with one more, both times with [n] and the title id.  The calls a run
    makes are always a beginning of that sequence, and they are the whole
    sequence, ending with a report of [n] out of [n], exactly when the run
    returns [Succeeded], [AlreadyUpToDate] or, with an empty catalog,
    [ServerFailed]. *)
Theorem update_run_reports_progress {St} (P : Platform) (E : Env St)
    (fuel : nat) (region : string) (w : World St) (r : UpdateResult) (w' : World St) :
  OnlineSystemUpdater_DoOnlineUpdate P E fuel region w = Ret r w' ->
  exists info w0,
    GetSystemTitles P E region w = Ret info w0 /\
    grows w w' (fun log =>
      exists rest,
        expected_callbacks (length (titles info)) (titles info) 0
        = callback_args log ++ rest /\
        (rest = [] <-> r = Succeeded \/ r = AlreadyUpToDate \/ r = ServerFailed)).
Proof.
  intros Hrun.
  destruct (update_run_log P E fuel region w r w' Hrun)
    as (info & w0 & payload & answered & Hinfo & Hpost & _ & Hrest).
  exists info, w0. split; [exact Hinfo|].
  destruct (titles info) as [|title rest] eqn:Htitles.
  - destruct Hrest as [-> ->]. exists [EvHttpPost NUS_URL payload answered].
    split; [exact Hpost|]. exists []. split; [reflexivity|]. split; auto.
  - destruct Hrest as (out & log & Hlog & Hll & _ & Hr).
    exists ([EvHttpPost NUS_URL payload answered] ++ log).
    split; [rewrite Hlog, Hpost, <- app_assoc; reflexivity|].
    pose proof (loop_log_results _ _ _ _ _ _ _ _ Hll) as Hres.
    destruct (loop_log_callbacks _ _ _ _ _ _ _ _ Hll) as (more & Hmore & Hnone).
    exists more. rewrite callback_args_app. split; [exact Hmore|].
    rewrite Hnone. destruct (fst out) as [res|].
    + subst res. split; [discriminate|].
      intros [->|[->| ->]]; destruct Hres as [?|[?|?]]; discriminate.
    + split; [|reflexivity]. intros _.
      destruct (bool_decide (snd out = ∅)); subst r; auto.
Qed.

(** The catalog of the example lists one title: the reports are 0 of 1
    before it and 1 of 1 after it. *)
Lemma update_run_reports_progress_witness :
  match OnlineSystemUpdater_DoOnlineUpdate Examples.wii_catalog Examples.lenient 2 EmptyString
                                           (Wii.start Examples.nand true) with
  | Ret r w' =>
      callback_args (calls w') = [(0%nat, 1%nat, Examples.APP); (1%nat, 1%nat, Examples.APP)] /\
      exists info w0,
        GetSystemTitles Examples.wii_catalog Examples.lenient EmptyString
                        (Wii.start Examples.nand true) = Ret info w0 /\
        grows (Wii.start Examples.nand true) w' (fun log =>
          exists rest,
            expected_callbacks (length (titles info)) (titles info) 0
            = callback_args log ++ rest /\
            (rest = [] <-> r = Succeeded \/ r = AlreadyUpToDate \/ r = ServerFailed))
  | _ => False
  end.
Proof.
  assert (Hval :
    match OnlineSystemUpdater_DoOnlineUpdate Examples.wii_catalog Examples.lenient 2 EmptyString
                                             (Wii.start Examples.nand true) with
    | Ret r w' =>
        callback_args (calls w')
        = [(0%nat, 1%nat, Examples.APP); (1%nat, 1%nat, Examples.APP)]
    | _ => False
    end) by (vm_compute; reflexivity).
  remember (OnlineSystemUpdater_DoOnlineUpdate Examples.wii_catalog Examples.lenient 2
              EmptyString (Wii.start Examples.nand true)) as run eqn:Hrun in *.
  destruct run as [r w'| |]; [ | exact Hval | exact Hval ].
  split; [exact Hval|].
  exact (update_run_reports_progress Examples.wii_catalog Examples.lenient 2%nat
           EmptyString (Wii.start Examples.nand true) r w' (eq_sym Hrun)).
Defined.
(** ** What an install from the update server never calls *)

Section Appended.
Context {St : Type} (P : Platform) (E : Env St).

(** A property of the log that stays true when a call is appended, unless
    the call begins a content of boot2. *)
Variable Phi : list Event -> Prop.
Hypothesis Phi_snoc :
  forall log e, Phi log -> never_begins (BOOT2 P) e -> Phi (log ++ [e]).

Ltac appended :=
  repeat (apply Phi_snoc; [| first [exact I | assumption]]); assumption.

Lemma nus_contents_appends prefix_url title stored contents :
  id title <> BOOT2 P ->
  forall w, Phi (calls w) ->
    wp (nus_contents E prefix_url title stored contents) (fun _ w' => Phi (calls w')) w.
Proof.
  intros Hid. induction contents as [|c rest IH]; intros w Hw; cbn [nus_contents].
  - wp_steps. exact Hw.
  - destruct (is_already_installed stored c).
    + apply IH, Hw.
    + wp_steps; try (cbn [never_begins] in *; appended).
      all: apply IH; cbn [calls]; cbn [never_begins] in *; appended.
Qed.

Lemma nus_import_appends prefix_url title tmd updated_titles :
  id title <> BOOT2 P ->
  forall w, Phi (calls w) ->
    wp (nus_import P E prefix_url title tmd updated_titles) (fun _ w' => Phi (calls w')) w.
Proof.
  intros Hid w Hw. unfold nus_import. wp_steps; try appended.
  eapply wp_conseq; [apply (nus_contents_appends _ _ _ _ Hid); cbn [calls]; appended|].
  cbv beta. intros r w1 Hw1. wp_steps; appended.
Qed.

Lemma InstallTitleFromNUS_appends prefix_url :
  forall fuel title updated_titles w, Phi (calls w) ->
    wp (InstallTitleFromNUS P E fuel prefix_url title updated_titles)
       (fun _ w' => Phi (calls w')) w.
Proof.
  induction fuel as [|fuel IH]; intros title updated_titles w Hw;
    cbn [InstallTitleFromNUS].
  - wp_steps.
  - destruct (id title =? BOOT2 P) eqn:Hid; [wp_steps; exact Hw|].
    apply Z.eqb_neq in Hid.
    wp_steps; try appended.
    all: unfold nus_after_ticket, nus_required_ios; wp_steps; try appended.
    all: try (eapply wp_conseq; [apply IH; cbn [calls]; appended|];
              cbv beta; intros [res upd1] w1 Hw1; wp_steps; try exact Hw1;
              apply (nus_import_appends _ _ _ _ Hid), Hw1).
    all: apply (nus_import_appends _ _ _ _ Hid); cbn [calls]; appended.
Qed.

Lemma nus_after_ticket_appends prefix_url fuel title updated_titles :
  id title <> BOOT2 P ->
  forall w, Phi (calls w) ->
    wp (nus_after_ticket P E (InstallTitleFromNUS P E fuel prefix_url)
                         prefix_url title updated_titles)
       (fun _ w' => Phi (calls w')) w.
Proof.
  intros Hid w Hw. unfold nus_after_ticket, nus_required_ios. wp_steps; try appended.
  all: try (eapply wp_conseq; [apply InstallTitleFromNUS_appends; cbn [calls]; appended|];
            cbv beta; intros [res upd1] w1 Hw1; wp_steps; try exact Hw1;
            apply (nus_import_appends _ _ _ _ Hid), Hw1).
  all: apply (nus_import_appends _ _ _ _ Hid); cbn [calls]; appended.
Qed.

Lemma update_loop_appends fuel prefix_url total :
  forall remaining processed updated_titles w, Phi (calls w) ->
    wp (update_loop P E fuel prefix_url total remaining processed updated_titles)
       (fun _ w' => Phi (calls w')) w.
Proof.
  induction remaining as [|title rest IH]; intros processed updated_titles w Hw;
    cbn [update_loop].
  - wp_steps. exact Hw.
  - wp_steps; try appended.
    eapply wp_conseq; [apply InstallTitleFromNUS_appends; cbn [calls]; appended|].
    cbv beta. intros [res upd1] w1 Hw1. wp_steps; try exact Hw1.
    apply IH. cbn [calls]. appended.
Qed.

Lemma update_run_appends fuel region :
  forall w, Phi (calls w) ->
    wp (OnlineSystemUpdater_DoOnlineUpdate P E fuel region) (fun _ w' => Phi (calls w')) w.
Proof.
  intros w Hw. unfold OnlineSystemUpdater_DoOnlineUpdate.
  apply wp_bind. eapply wp_conseq; [apply GetSystemTitles_posts|].
  cbv beta. intros info w0 (_ & payload & answered & Hpost & _).
  assert (Hw0 : Phi (calls w0)) by (rewrite Hpost; appended).
  destruct (titles info) as [|title rest]; [wp_steps; exact Hw0|].
  apply wp_bind. eapply wp_conseq; [apply update_loop_appends, Hw0|].
  cbv beta. intros out w1 Hw1. wp_steps; exact Hw1.
Qed.
End Appended.

Lemma extends_snoc (P : Platform) (log0 : list Event) (log : list Event) (e : Event) :
  (exists rest, log = log0 ++ rest /\ Forall (never_begins (BOOT2 P)) rest) ->
  never_begins (BOOT2 P) e ->
  exists rest, log ++ [e] = log0 ++ rest /\ Forall (never_begins (BOOT2 P)) rest.
Proof.
  intros (rest & -> & Hrest) He. exists (rest ++ [e]).
  split; [now rewrite app_assoc|].
  apply List.Forall_app. split; [exact Hrest|]. constructor; [exact He|constructor].
Qed.

Lemma extends_refl (P : Platform) (log0 : list Event) :
  exists rest, log0 = log0 ++ rest /\ Forall (never_begins (BOOT2 P)) rest.
Proof. exists []. split; [now rewrite app_nil_r|constructor]. Qed.



(** ** When an install from the update server does nothing *)

Lemma after_snoc (P : Platform) (log0 : list Event) (log : list Event) (e : Event) :
  (exists rest, log = log0 ++ rest) ->
  never_begins (BOOT2 P) e ->
  exists rest, log ++ [e] = log0 ++ rest.
Proof.
  intros (rest & ->) _. exists (rest ++ [e]). now rewrite app_assoc.
Qed.


(** ** A commit comes after every content *)

Lemma begun_app (l1 l2 : list Event) : begun (l1 ++ l2) = begun l1 ++ begun l2.
Proof. apply flat_map_app. Qed.

Lemma written_app (l1 l2 : list Event) : written (l1 ++ l2) = written l1 ++ written l2.
Proof. apply flat_map_app. Qed.

Lemma attempt_log_writes_nothing {St} (E : Env St) wad checks log r :
  attempt_log E wad checks log r ->
  begun log = [] /\ written log = [] /\ count failed_content log = 0%nat /\
  count is_done log = 0%nat /\ count is_cancel log = 0%nat.
Proof. destruct 1; repeat split; reflexivity. Qed.

Lemma wad_loop_log_writes_nothing {St} (P : Platform) (E : Env St)
    wad checks_enabled checks log b :
  wad_loop_log P E wad checks_enabled checks log b ->
  begun log = [] /\ written log = [] /\ count failed_content log = 0%nat /\
  count is_done log = 0%nat /\ count is_cancel log = 0%nat.
Proof.
  induction 1 as [ checks log r Ha Hr | checks log r Ha Hr Hno | checks log r Ha Hr Hen Hcode
                 | checks log r rest b Ha Hr Hen Hcode Hrest IH ];
    destruct (attempt_log_writes_nothing _ _ _ _ _ Ha) as (Hb & Hw & Hf & Hd & Hc).
  - repeat split; assumption.
  - rewrite begun_app, written_app, !count_app, Hb, Hw, Hf, Hd, Hc. repeat split; reflexivity.
  - rewrite begun_app, written_app, !count_app, Hb, Hw, Hf, Hd, Hc. repeat split; reflexivity.
  - destruct IH as (IHb & IHw & IHf & IHd & IHc).
    change (EvAskYesNo true :: rest) with ([EvAskYesNo true] ++ rest).
    rewrite !begun_app, !written_app, !count_app, Hb, Hw, Hf, Hd, Hc, IHb, IHw, IHf, IHd, IHc.
    repeat split; reflexivity.
Qed.

Lemma wad_content_log_complete wad title_id contents log b :
  wad_content_log wad title_id contents log b ->
  count is_done log = 0%nat /\ count is_cancel log = 0%nat /\
  (b = true ->
   begun log = map content_id contents /\
   written log = map (fun c => wad_GetContent wad (content_index c)) contents /\
   count failed_content log = 0%nat).
Proof.
  induction 1 as [ | | | | c rest r1 r2 r3 log b Hr1 Hr2 Hr3 Hrest IH ];
    try (repeat split; try reflexivity; discriminate).
  destruct IH as (IHd & IHc & IH). split; [exact IHd|]. split; [exact IHc|].
  intros Hb. destruct (IH Hb) as (IHb & IHw & IHf). signs.
  cbn [begun written flat_map map app]. fold (begun log). fold (written log).
  rewrite IHb, IHw. split; [reflexivity|]. split; [reflexivity|].
  rewrite !count_cons. cbn [failed_content]. rewrite Hr1, Hr2, Hr3. exact IHf.
Qed.

(** X11.  [InstallWAD] commits a title only after all its contents.  If
    the log of a call holds a commit at all, it holds exactly one, and before
    it one begin-content call per entry of the package's content list, in list
    order and none left out, each followed by the data the package holds for
    the entry's index; no call of the content phase failed and nothing was
    cancelled. *)
Theorem InstallWAD_commits_after_every_content {St} (P : Platform) (E : Env St)
    (fuel : nat) (wad : WiiWAD) (w : World St) (b : bool) (w' : World St) :
  InstallWAD P E fuel wad w = Ret b w' ->
  grows w w' (fun log =>
    count is_done log <> 0%nat ->
    count is_done log = 1%nat /\
    begun log = map content_id (GetContents P (wad_GetTMD wad)) /\
    written log = map (fun c => wad_GetContent wad (content_index c))
                      (GetContents P (wad_GetTMD wad)) /\
    count failed_content log = 0%nat /\
    count is_cancel log = 0%nat).
Proof.
  intros Hrun.
  destruct (wp_elim _ _ _ _ _ (InstallWAD_refines P E fuel wad w) Hrun)
    as [_ (log & Hlog & Hwad)].
  exists log. split; [exact Hlog|].
  destruct Hwad as [Hinvalid | log Hvalid Hloop | log clog imported rf Hvalid Hloop Hclog].
  - intros Hdone. contradiction Hdone. reflexivity.
  - destruct (wad_loop_log_writes_nothing _ _ _ _ _ _ _ Hloop) as (_ & _ & _ & Hd & _).
    intros Hdone. contradiction.
  - destruct (wad_loop_log_writes_nothing _ _ _ _ _ _ _ Hloop) as (Hb & Hw & Hf & Hd & Hc).
    destruct (wad_content_log_complete _ _ _ _ _ Hclog) as (Hcd & Hcc & Hcomplete).
    rewrite !begun_app, !written_app, !count_app, Hb, Hw, Hf, Hd, Hc, Hcd, Hcc.
    cbn [app Nat.add].
    destruct imported; cbn [wad_settle_event].
    + destruct (Hcomplete eq_refl) as (Hcb & Hcw & Hcf). rewrite Hcb, Hcw, Hcf.
      intros _. destruct (rf <? 0); cbn; rewrite ?app_nil_r; repeat split; reflexivity.
    + intros Hdone. exfalso. apply Hdone. destruct (rf <? 0); reflexivity.
Qed.

(** The sample package with both contents in good order is committed after
    contents 7 and 9. *)
Lemma InstallWAD_commits_after_every_content_witness :
  match InstallWAD Wii.wii Examples.lenient 1 (Examples.wad Examples.signed)
                   (Wii.start Examples.nand true) with
  | Ret b w' =>
      (count is_done (calls w') = 1%nat /\ begun (calls w') = [7; 9]) /\
      grows (Wii.start Examples.nand true) w' (fun log =>
        count is_done log <> 0%nat ->
        count is_done log = 1%nat /\
        begun log = map content_id (GetContents Wii.wii (wad_GetTMD (Examples.wad Examples.signed))) /\
        written log = map (fun c => wad_GetContent (Examples.wad Examples.signed)
                                                   (content_index c))
                          (GetContents Wii.wii (wad_GetTMD (Examples.wad Examples.signed))) /\
        count failed_content log = 0%nat /\
        count is_cancel log = 0%nat)
  | _ => False
  end.
Proof.
  assert (Hval :
    match InstallWAD Wii.wii Examples.lenient 1 (Examples.wad Examples.signed)
                     (Wii.start Examples.nand true) with
    | Ret b w' => count is_done (calls w') = 1%nat /\ begun (calls w') = [7; 9]
    | _ => False
    end) by (vm_compute; split; reflexivity).
  remember (InstallWAD Wii.wii Examples.lenient 1 (Examples.wad Examples.signed)
                       (Wii.start Examples.nand true)) as run eqn:Hrun in *.
  destruct run as [b w'| |]; [ | exact Hval | exact Hval ].
  split; [exact Hval|].
  exact (InstallWAD_commits_after_every_content Wii.wii Examples.lenient 1%nat
           (Examples.wad Examples.signed) (Wii.start Examples.nand true) b w' (eq_sym Hrun)).
Defined.

Lemma nus_content_log_complete prefix_url title stored contents log r :
  nus_content_log prefix_url title stored contents log r ->
  r = Succeeded ->
  begun log = map content_id (missing stored contents) /\
  count failed_content log = 0%nat.
Proof.
  induction 1 as [ | c rest log r Hc Hrest IH | c rest r1 Hc Hr1 | c rest r1 Hc Hr1
                 | c rest r1 data r2 Hc Hr1 Hr2 | c rest r1 data r2 r3 Hc Hr1 Hr2 Hr3
                 | c rest r1 data r2 r3 log r Hc Hr1 Hr2 Hr3 Hrest IH ];
    intros Hr; try discriminate Hr.
  - split; reflexivity.
  - unfold missing. cbn [List.filter]. rewrite Hc. cbn [negb]. apply IH, Hr.
  - destruct (IH Hr) as [IHb IHf]. signs.
    unfold missing. cbn [List.filter]. rewrite Hc. cbn [negb map].
    cbn [begun flat_map app]. fold (begun log). rewrite IHb. split; [reflexivity|].
    rewrite !count_cons. cbn [failed_content]. rewrite Hr1, Hr2, Hr3. exact IHf.
Qed.

(** The log of lines 379-436, with the stored contents as secure storage
    lists them right after the title-init. *)
Lemma nus_import_stored {St} (P : Platform) (E : Env St) prefix_url title tmd updated_titles :
  forall w,
    wp (nus_import P E prefix_url title tmd updated_titles)
       (fun res w' =>
          grows w w' (fun log =>
            count is_done log <> 0%nat ->
            exists r0 clog rf,
              log = EvImportTitleInit (GetBytes (fst tmd)) (snd tmd)
                                      (m_enable_signature_checks w) r0
                    :: clog ++ [EvImportTitleDone rf] /\
              nus_content_log prefix_url title
                (ES_GetStoredContentsFromTMD E (fst tmd)
                   (snd (ES_ImportTitleInit E (GetBytes (fst tmd)) (snd tmd)
                           (m_enable_signature_checks w) (ext w))))
                (GetContents P (fst tmd)) clog Succeeded))
       w.
Proof.
  intros w. unfold nus_import. wp_steps.
  - grows_now. intros Hdone. contradiction Hdone. reflexivity.
  - match goal with H : ES_ImportTitleInit _ _ _ _ _ = _ |- _ => rewrite H end.
    cbn [snd].
    wp_use (@nus_contents_log St E). intros r w1 [_ (clog & Hlog & Hclog)].
    cbn [calls] in Hlog.
    destruct (nus_content_log_failures _ _ _ _ _ _ Hclog) as (_ & _ & _ & Hd & _).
    wp_steps; cbn [fst snd]; unfold grows; cbn [calls]; rewrite Hlog;
      (eexists; split; [rewrite <- !app_assoc; reflexivity|]); cbn [app].
    all: try match goal with
             | Hs : is_Succeeded ?x = true |- _ => apply is_Succeeded_true in Hs; subst x
             end.
    all: try (intros _; eexists _, clog, _; split; [reflexivity|exact Hclog]).
    all: intros Hdone; exfalso; apply Hdone.
    all: match goal with
         | |- count is_done (?e :: ?c ++ ?l) = _ =>
             change (e :: c ++ l) with ([e] ++ c ++ l);
             rewrite !count_app, Hd; reflexivity
         end.
Qed.

(** X12.  The update planner commits a title only after every content
    that was missing.  If the log of lines 379-436 holds a commit, then
    between the title-init and the commit there is one begin-content call per
    entry of the metadata's content list that secure storage did not list as
    stored right after the title-init, in list order and none left out; every
    download was answered, no call of the content phase failed and nothing was
    cancelled. *)
Theorem nus_import_commits_after_every_missing_content {St} (P : Platform) (E : Env St)
    (prefix_url : string) (title : TitleInfo) (tmd : TMDReader * bytes)
    (updated_titles : gset Z) (w : World St) (res : UpdateResult * gset Z) (w' : World St) :
  nus_import P E prefix_url title tmd updated_titles w = Ret res w' ->
  grows w w' (fun log =>
    count is_done log <> 0%nat ->
    begun log
    = map content_id
          (missing (ES_GetStoredContentsFromTMD E (fst tmd)
                      (snd (ES_ImportTitleInit E (GetBytes (fst tmd)) (snd tmd)
                              (m_enable_signature_checks w) (ext w))))
                   (GetContents P (fst tmd))) /\
    count failed_content log = 0%nat /\
    count unanswered log = 0%nat /\
    count is_cancel log = 0%nat /\
    count is_done log = 1%nat).
Proof.
  intros Hrun.
  destruct (wp_elim _ _ _ _ _
              (nus_import_stored P E prefix_url title tmd updated_titles w) Hrun)
    as (log & Hlog & Hdone).
  exists log. split; [exact Hlog|]. intros Hd.
  destruct (Hdone Hd) as (r0 & clog & rf & -> & Hclog).
  destruct (nus_content_log_complete _ _ _ _ _ _ Hclog eq_refl) as [Hb Hf].
  destruct (nus_content_log_failures _ _ _ _ _ _ Hclog) as (_ & Hu & Hc & Hcd & _).
  match goal with
  | |- context [begun (?e :: ?c ++ ?l)] =>
      change (e :: c ++ l) with ([e] ++ c ++ l)
  end.
  rewrite !begun_app, !count_app, Hb, Hf, (Hu eq_refl), Hc, Hcd.
  cbn. rewrite app_nil_r. repeat split; reflexivity.
Qed.

(** With content 7 already stored, the application is committed after
    content 9 alone. *)
Lemma nus_import_commits_after_every_missing_content_witness :
  match nus_import Wii.wii Examples.lenient Examples.PREFIX (mkTitle Examples.APP 3)
                   (mkTMD Examples.app_tmd, Examples.signed) ∅
                   (Wii.start Examples.nand_with_7 true) with
  | Ret res w' =>
      (count is_done (calls w') = 1%nat /\ begun (calls w') = [9]) /\
      grows (Wii.start Examples.nand_with_7 true) w' (fun log =>
        count is_done log <> 0%nat ->
        begun log
        = map content_id
              (missing (ES_GetStoredContentsFromTMD Examples.lenient (mkTMD Examples.app_tmd)
                          (snd (ES_ImportTitleInit Examples.lenient Examples.app_tmd
                                  Examples.signed true Examples.nand_with_7)))
                       (GetContents Wii.wii (mkTMD Examples.app_tmd))) /\
        count failed_content log = 0%nat /\
        count unanswered log = 0%nat /\
        count is_cancel log = 0%nat /\
        count is_done log = 1%nat)
  | _ => False
  end.
Proof.
  assert (Hval :
    match nus_import Wii.wii Examples.lenient Examples.PREFIX (mkTitle Examples.APP 3)
                     (mkTMD Examples.app_tmd, Examples.signed) ∅
                     (Wii.start Examples.nand_with_7 true) with
    | Ret res w' => count is_done (calls w') = 1%nat /\ begun (calls w') = [9]
    | _ => False
    end) by (vm_compute; split; reflexivity).
  remember (nus_import Wii.wii Examples.lenient Examples.PREFIX (mkTitle Examples.APP 3)
                       (mkTMD Examples.app_tmd, Examples.signed) ∅
                       (Wii.start Examples.nand_with_7 true)) as run eqn:Hrun in *.
  destruct run as [res w'| |]; [ | exact Hval | exact Hval ].
  split; [exact Hval|].
  exact (nus_import_commits_after_every_missing_content Wii.wii Examples.lenient
           Examples.PREFIX (mkTitle Examples.APP 3) (mkTMD Examples.app_tmd, Examples.signed)
           ∅ (Wii.start Examples.nand_with_7 true) res w' (eq_sym Hrun)).
Defined.
(** ** Addresses and the device id *)

Lemma string_app_inv_head (p s t : string) : (p ++ s = p ++ t)%string -> s = t.
Proof. induction p as [|c p IH]; cbn; [auto|]. intros H. injection H as H. auto. Qed.

Lemma string_app_inj (a b s t : string) :
  String.length a = String.length b -> (a ++ s = b ++ t)%string -> a = b /\ s = t.
Proof.
  revert b. induction a as [|c a IH]; intros [|d b] Hlen H; cbn in *; try discriminate.
  - auto.
  - injection H as -> H. injection Hlen as Hlen.
    destruct (IH b Hlen H) as [-> ->]. auto.
Qed.

Lemma string_length_app (a b : string) :
  String.length (a ++ b) = (String.length a + String.length b)%nat.
Proof. induction a as [|c a IH]; simpl; [reflexivity|]. f_equal. exact IH. Qed.

Lemma hex_fixed_length (width : nat) (x : Z) : String.length (hex_fixed width x) = width.
Proof.
  revert x. induction width as [|width IH]; intros x; cbn [hex_fixed]; [reflexivity|].
  rewrite string_length_app, IH. cbn. lia.
Qed.

Lemma hex_digit_inj (d1 d2 : Z) :
  0 <= d1 < 16 -> 0 <= d2 < 16 -> hex_digit d1 = hex_digit d2 -> d1 = d2.
Proof.
  intros H1 H2 Heq. unfold hex_digit in Heq.
  assert (Hn : Z.to_nat d1 = Z.to_nat d2).
  { revert Heq.
    assert (Hb1 : (Z.to_nat d1 < 16)%nat) by lia.
    assert (Hb2 : (Z.to_nat d2 < 16)%nat) by lia.
    generalize dependent (Z.to_nat d2). generalize dependent (Z.to_nat d1).
    intros n1 Hn1 n2 Hn2.
    do 16 (destruct n1 as [|n1]; [do 16 (destruct n2 as [|n2]; [cbn; congruence|]); lia|]).
    lia. }
  lia.
Qed.

Lemma hex_digit_is_not_t (d : Z) : hex_digit d <> "t"%char.
Proof.
  unfold hex_digit.
  generalize (Z.to_nat d). intros n.
  do 16 (destruct n as [|n]; [cbn; congruence|]). destruct n; cbn; congruence.
Qed.

Lemma hex_fixed_inj (width : nat) :
  forall x y, 0 <= x < 16 ^ Z.of_nat width -> 0 <= y < 16 ^ Z.of_nat width ->
    hex_fixed width x = hex_fixed width y -> x = y.
Proof.
  induction width as [|width IH]; intros x y Hx Hy Heq.
  - cbn in Hx, Hy. lia.
  - cbn [hex_fixed] in Heq.
    apply string_app_inj in Heq; [|now rewrite !hex_fixed_length].
    destruct Heq as [Hhigh Hlow]. injection Hlow as Hlow.
    rewrite Nat2Z.inj_succ, Z.pow_succ_r in Hx, Hy by lia.
    apply hex_digit_inj in Hlow; try (apply Z.mod_pos_bound; lia).
    apply IH in Hhigh;
      try (split; [apply Z.div_pos; lia | apply Z.div_lt_upper_bound; lia]).
    rewrite (Z.div_mod x 16), (Z.div_mod y 16) by lia. congruence.
Qed.

Lemma hex_fixed_head (width : nat) (x : Z) :
  exists d rest, hex_fixed (S width) x = String (hex_digit d) rest.
Proof.
  revert x. induction width as [|width IH]; intros x.
  - eexists _, _. reflexivity.
  - destruct (IH (x / 16)) as (d & rest & Hd).
    change (hex_fixed (S (S width)) x)
      with (hex_fixed (S width) (x / 16) ++ String (hex_digit (x mod 16)) EmptyString)%string.
    rewrite Hd. eexists _, _. reflexivity.
Qed.

Lemma string_head_inv (c d : ascii) (a b : string) : String c a = String d b -> c = d.
Proof. intros H. now injection H. Qed.

Lemma decimal_inj (x y : Z) : 0 <= x -> 0 <= y -> decimal x = decimal y -> x = y.
Proof.
  intros Hx Hy Heq. unfold decimal in Heq.
  assert (Hnil : forall n, N.to_uint n <> Decimal.Nil).
  { intros n Hn. pose proof (DecimalN.Unsigned.of_to n) as Hof. rewrite Hn in Hof.
    pose proof (DecimalN.Unsigned.of_to 0) as H0.
    destruct n; [discriminate Hn|]. cbn in Hof. discriminate Hof. }
  pose proof (NilZero.usu _ (Hnil (Z.to_N x))) as Hux.
  pose proof (NilZero.usu _ (Hnil (Z.to_N y))) as Huy.
  rewrite Heq, Huy in Hux. injection Hux as Hux.
  apply DecimalN.Unsigned.to_uint_inj in Hux. lia.
Qed.

(** X13.  The addresses the downloads use never collide.  Under one
    prefix, with title ids that fit 64 bits, content ids that fit 32 bits and
    versions that are not negative: the content address determines the title
    id and the content id, the ticket address the title id, the metadata
    address the title id and the version; and a ticket address, a metadata
    address and a content address are never the same text. *)
Theorem download_addresses_are_distinct (prefix_url : string) (t1 t2 : TitleInfo)
    (c1 c2 : Z) :
  0 <= id t1 < 2 ^ 64 -> 0 <= id t2 < 2 ^ 64 ->
  0 <= version t1 -> 0 <= version t2 ->
  0 <= c1 < 2 ^ 32 -> 0 <= c2 < 2 ^ 32 ->
  (url_content prefix_url t1 c1 = url_content prefix_url t2 c2 -> id t1 = id t2 /\ c1 = c2) /\
  (url_cetk prefix_url t1 = url_cetk prefix_url t2 -> id t1 = id t2) /\
  (url_tmd prefix_url t1 = url_tmd prefix_url t2 ->
   id t1 = id t2 /\ version t1 = version t2) /\
  url_cetk prefix_url t1 <> url_content prefix_url t2 c2 /\
  url_cetk prefix_url t1 <> url_tmd prefix_url t2 /\
  url_tmd prefix_url t1 <> url_content prefix_url t2 c2.
Proof.
  intros Hid1 Hid2 Hv1 Hv2 Hc1 Hc2.
  assert (Hdir : forall s1 s2,
    (prefix_url ++ "/" ++ hex_fixed 16 (id t1) ++ s1
     = prefix_url ++ "/" ++ hex_fixed 16 (id t2) ++ s2)%string ->
    id t1 = id t2 /\ s1 = s2).
  { intros s1 s2 H. apply string_app_inv_head in H. apply (string_app_inv_head "/") in H.
    apply string_app_inj in H; [|now rewrite !hex_fixed_length].
    destruct H as [H ->]. split; [|reflexivity].
    apply (hex_fixed_inj 16); [exact Hid1 | exact Hid2 | exact H]. }
  assert (Hshort : forall s c, String.length s <> 8%nat -> s <> hex_fixed 8 c).
  { intros s c Hlen ->. apply Hlen, hex_fixed_length. }
  unfold url_content, url_cetk, url_tmd.
  split; [|split; [|split; [|split; [|split]]]].
  - intros H. apply Hdir in H. destruct H as [Hid H]. split; [exact Hid|].
    apply (string_app_inv_head "/") in H. apply (hex_fixed_inj 8); assumption.
  - intros H. apply Hdir in H. apply H.
  - intros H.
    destruct (version t1 =? 0) eqn:E1, (version t2 =? 0) eqn:E2;
      apply Hdir in H; destruct H as [Hid H]; (split; [exact Hid|]).
    + apply Z.eqb_eq in E1, E2. congruence.
    + discriminate H.
    + discriminate H.
    + apply (string_app_inv_head "/tmd.") in H. now apply decimal_inj.
  - intros H. apply Hdir in H. destruct H as [_ H].
    apply (string_app_inv_head "/") in H. revert H. apply Hshort. discriminate.
  - intros H. destruct (version t2 =? 0); apply Hdir in H; destruct H as [_ H];
      discriminate H.
  - intros H.
    assert (Htext : exists rest, ("t" ++ rest)%string = hex_fixed 8 c2).
    { destruct (version t1 =? 0); apply Hdir in H; destruct H as [_ H];
        apply (string_app_inv_head "/") in H; eexists; exact H. }
    destruct Htext as (rest & Htext).
    destruct (hex_fixed_head 7 c2) as (d & more & Hd). rewrite Hd in Htext.
    apply string_head_inv in Htext. symmetry in Htext.
    exact (hex_digit_is_not_t d Htext).
Qed.

(** The addresses of the sample game. *)
Lemma download_addresses_are_distinct_witness :
  url_cetk Examples.PREFIX (mkTitle Examples.GAME 2)
  = "http://ccs.example/ccs/download/0001000100000006/cetk"%string /\
  url_tmd Examples.PREFIX (mkTitle Examples.GAME 2)
  = "http://ccs.example/ccs/download/0001000100000006/tmd.2"%string /\
  url_content Examples.PREFIX (mkTitle Examples.GAME 2) 5
  = "http://ccs.example/ccs/download/0001000100000006/00000005"%string /\
  url_cetk Examples.PREFIX (mkTitle Examples.GAME 2)
  <> url_content Examples.PREFIX (mkTitle Examples.IOS58 0) 1.
Proof.
  split; [reflexivity|]. split; [reflexivity|]. split; [reflexivity|].
  apply (download_addresses_are_distinct Examples.PREFIX
           (mkTitle Examples.GAME 2) (mkTitle Examples.IOS58 0) 5 1);
    cbn [id version]; unfold Examples.GAME, Examples.IOS58; lia.
Defined.

Lemma lor_bit_32 (x : Z) : 0 <= x < 2 ^ 32 -> Z.lor (Z.shiftl 1 32) x = 2 ^ 32 + x.
Proof.
  intros Hx. rewrite Z.shiftl_1_l. symmetry. apply Z.add_nocarry_lor.
  apply Z.bits_inj'. intros n Hn. rewrite Z.land_spec, Z.bits_0, Z.pow2_bits_eqb by lia.
  destruct (Z.eqb_spec 32 n) as [<-|Hne]; [|reflexivity].
  cbn [andb]. destruct (Z.eq_dec x 0) as [->|Hx0]; [apply Z.bits_0|].
  apply Z.bits_above_log2; [lia|]. apply Z.log2_lt_pow2; lia.
Qed.

Lemma decimal_not_empty (x : Z) : decimal x <> EmptyString.
Proof.
  unfold decimal. destruct (N.to_uint (Z.to_N x)); discriminate.
Qed.

(** X14.  [GetDeviceId] only asks secure storage.  When the call fails it
    returns the empty text; otherwise, for a 32-bit id, the decimal digits of
    2^32 + id, which is never the empty text, and different ids give different
    texts. *)
Theorem GetDeviceId_is_the_id_above_bit_32 {St} (E : Env St) (w : World St) :
  exists text,
    GetDeviceId E w = Ret text w /\
    (fst (ES_GetDeviceId E (ext w)) < 0 -> text = EmptyString) /\
    (0 <= fst (ES_GetDeviceId E (ext w)) ->
     0 <= snd (ES_GetDeviceId E (ext w)) < 2 ^ 32 ->
     text = decimal (2 ^ 32 + snd (ES_GetDeviceId E (ext w))) /\
     text <> EmptyString /\
     forall other, 0 <= other < 2 ^ 32 -> text = decimal (2 ^ 32 + other) ->
                   other = snd (ES_GetDeviceId E (ext w))).
Proof.
  unfold GetDeviceId, bind, query.
  destruct (ES_GetDeviceId E (ext w)) as [code device_id]. cbn [fst snd].
  destruct (code <? 0) eqn:Hcode.
  - eexists. split; [reflexivity|]. split; [reflexivity|].
    apply Z.ltb_lt in Hcode. lia.
  - eexists. split; [reflexivity|]. apply Z.ltb_ge in Hcode. split; [lia|].
    intros _ Hid. rewrite lor_bit_32 by exact Hid.
    split; [reflexivity|]. split; [apply decimal_not_empty|].
    intros other Hother Heq. apply decimal_inj in Heq; lia.
Qed.

(** The device id of the simulated console is 305419896. *)
Lemma GetDeviceId_is_the_id_above_bit_32_witness :
  GetDeviceId Examples.lenient (Wii.start Examples.nand true)
  = Ret "4600387192"%string (Wii.start Examples.nand true) /\
  exists text,
    GetDeviceId Examples.lenient (Wii.start Examples.nand true)
    = Ret text (Wii.start Examples.nand true) /\
    (fst (ES_GetDeviceId Examples.lenient Examples.nand) < 0 -> text = EmptyString) /\
    (0 <= fst (ES_GetDeviceId Examples.lenient Examples.nand) ->
     0 <= snd (ES_GetDeviceId Examples.lenient Examples.nand) < 2 ^ 32 ->
     text = decimal (2 ^ 32 + snd (ES_GetDeviceId Examples.lenient Examples.nand)) /\
     text <> EmptyString /\
     forall other, 0 <= other < 2 ^ 32 -> text = decimal (2 ^ 32 + other) ->
                   other = snd (ES_GetDeviceId Examples.lenient Examples.nand)).
Proof.
  split; [vm_compute; reflexivity|].
  exact (GetDeviceId_is_the_id_above_bit_32 Examples.lenient (Wii.start Examples.nand true)).
Defined.
(** ** The recursion on the required system title *)

(** X15.  The recursion of [InstallTitleFromNUS] has no guard against a
    cycle.  For a system title that is not installed and whose metadata names
    the title itself as the required system title, the install calls itself
    again after each download of ticket and metadata, so no depth of recursion
    is enough for it to return. *)
Theorem self_requiring_title_never_returns {St} (P : Platform) (E : Env St)
    (prefix_url : string) (title_id : Z) (Inv : St -> Prop) :
  requires_itself P E prefix_url title_id Inv ->
  forall fuel updated_titles w,
    Inv (ext w) -> title_id ∉ updated_titles ->
    InstallTitleFromNUS P E fuel prefix_url (mkTitle title_id 0) updated_titles w
    = OutOfFuel.
Proof.
  intros [Hboot2 [Hnonzero Hsystem] Hmissing Hticket Htmd].
  induction fuel as [|fuel IH]; intros updated_titles w Hinv Hnew; [reflexivity|].
  cbn [InstallTitleFromNUS id].
  apply Z.eqb_neq in Hboot2. rewrite Hboot2.
  unfold bind at 1. unfold ShouldInstallTitle, bind, FindInstalledTMD,
    GetStoredContentsFromTMD, query, ret. cbn [id].
  rewrite (Hmissing _ Hinv). cbn [andb negb orb].
  rewrite bool_decide_eq_false_2 by exact Hnew.
  destruct (Hticket _ Hinv) as (body & ticket & certs & s1 & Hget & Hsplit & Ht & Hc & Himport).
  unfold DownloadTicket, HttpGet, call, bind, lift_partial. rewrite Hget, Hsplit. cbn [fst snd].
  destruct ticket as [|t0 ticket]; [contradiction|].
  destruct certs as [|c0 certs]; [contradiction|]. cbn [orb].
  unfold ImportTicket, get_checks, call, bind. cbn [ext m_enable_signature_checks].
  destruct (Himport (m_enable_signature_checks w)) as [Hr Hinv2].
  destruct (ES_ImportTicket E (t0 :: ticket) (c0 :: certs) (m_enable_signature_checks w) s1)
    as [r s2] eqn:Himp.
  cbn [fst snd] in Hr, Hinv2. apply Z.ltb_ge in Hr. rewrite Hr.
  unfold nus_after_ticket, DownloadTMD, HttpGet, call, bind, lift_partial.
  cbn [ext m_enable_signature_checks calls].
  destruct (Htmd _ Hinv2) as (tbody & tmd & s3 & Hget2 & Hsplit2 & Hvalid & Hios & Hinv3).
  rewrite Hget2, Hsplit2, Hvalid. cbn [negb].
  unfold nus_required_ios, FindInstalledTMD, query, bind. cbn [ext].
  rewrite Hios, Hsystem. apply Z.eqb_neq in Hnonzero. rewrite Hnonzero. cbn [negb andb].
  cbn [ext]. rewrite (Hmissing _ Hinv3). cbn [negb].
  rewrite IH; [reflexivity | exact Hinv3 | exact Hnew].
Qed.

Lemma loop_server_requires_itself :
  requires_itself Wii.wii Examples.lenient Examples.PREFIX Examples.IOS58 loop_state.
Proof.
  constructor.
  - vm_compute. discriminate.
  - split; [vm_compute; discriminate | reflexivity].
  - intros s [Hserver Hinstalled].
    cbn [ES_FindInstalledTMD Examples.lenient Wii.env]. unfold Wii.sim_FindInstalledTMD.
    rewrite Hinstalled. reflexivity.
  - intros s [Hserver Hinstalled].
    exists (Examples.a_ticket ++ Examples.signed), Examples.a_ticket, Examples.signed, s.
    split; [|split; [|split; [|split]]].
    + cbn [Http_Get Examples.lenient Wii.env]. unfold Wii.sim_Get. rewrite Hserver.
      f_equal.
    + vm_compute. reflexivity.
    + vm_compute. discriminate.
    + discriminate.
    + intros checks.
      cbn [ES_ImportTicket Examples.lenient Wii.env]. unfold Wii.sim_ImportTicket.
      replace (Wii.refuses true Examples.signed checks) with false
        by (destruct checks; reflexivity).
      cbn [fst snd]. split; [lia|]. split; [exact Hserver | exact Hinstalled].
  - intros s [Hserver Hinstalled].
    exists (loop_tmd ++ Examples.signed), (mkTMD loop_tmd, Examples.signed), s.
    split; [|split; [|split; [|split]]].
    + cbn [Http_Get Examples.lenient Wii.env]. unfold Wii.sim_Get. rewrite Hserver.
      f_equal.
    + vm_compute. reflexivity.
    + vm_compute. reflexivity.
    + vm_compute. reflexivity.
    + split; [exact Hserver | exact Hinstalled].
Qed.

(** Against that server the install of the title runs out of any depth
    given, here a hundred. *)
Lemma self_requiring_title_never_returns_witness :
  requires_itself Wii.wii Examples.lenient Examples.PREFIX Examples.IOS58 loop_state /\
  InstallTitleFromNUS Wii.wii Examples.lenient 100 Examples.PREFIX
                      (mkTitle Examples.IOS58 0) ∅ (Wii.start loop_nand true)
  = OutOfFuel.
Proof.
  split; [exact loop_server_requires_itself|].
  apply (self_requiring_title_never_returns Wii.wii Examples.lenient Examples.PREFIX
           Examples.IOS58 loop_state loop_server_requires_itself 100%nat ∅
           (Wii.start loop_nand true)).
  - split; reflexivity.
  - apply not_elem_of_empty.
Defined.
(** ** The catalog request *)

Lemma GetDeviceId_returns {St} (E : Env St) (w : World St) :
  exists text, GetDeviceId E w = Ret text w.
Proof.
  unfold GetDeviceId, bind, query.
  destruct (ES_GetDeviceId E (ext w)) as [code device_id].
  destruct (code <? 0); eexists; reflexivity.
Qed.

Lemma GetDeviceRegion_returns {St} (P : Platform) (E : Env St) (w : World St) :
  exists text,
    GetDeviceRegion P E w = Ret text w /\
    if IsValid P (ES_FindInstalledTMD E (SYSTEM_MENU P) (ext w))
    then In text ["JPN"; "USA"; "EUR"; "KOR"]%string
    else text = EmptyString.
Proof.
  unfold GetDeviceRegion, FindInstalledTMD, bind, query.
  destruct (IsValid P (ES_FindInstalledTMD E (SYSTEM_MENU P) (ext w))).
  - eexists. split; [reflexivity|].
    destruct (GetRegion P (ES_FindInstalledTMD E (SYSTEM_MENU P) (ext w))); cbn; auto.
  - eexists. split; reflexivity.
Qed.

Lemma GetSystemTitles_posts_the_request {St} (P : Platform) (E : Env St)
    (region : string) (w : World St) (device_id device_region : string) :
  GetDeviceId E w = Ret device_id w ->
  GetDeviceRegion P E w = Ret device_region w ->
  let sent := if String.eqb region EmptyString then device_region else region in
  let answer := Http_Post E NUS_URL (save_request P device_id sent) (ext w) in
  let posted answered :=
    mkWorld (snd answer) (m_enable_signature_checks w)
            (calls w ++ [EvHttpPost NUS_URL (save_request P device_id sent) answered]) in
  GetSystemTitles P E region w
  = match fst answer with
    | None => Ret empty_Response (posted false)
    | Some body => lift_partial (ParseTitlesResponse P body) (posted true)
    end.
Proof.
  intros Hid Hregion. cbv zeta. unfold GetSystemTitles, bind. rewrite Hid.
  destruct (String.eqb region EmptyString); [rewrite Hregion|unfold ret];
    unfold HttpPost, call;
    match goal with
    | |- context [Http_Post E NUS_URL ?p (ext w)] =>
        destruct (Http_Post E NUS_URL p (ext w)) as [[body|] s]
    end; reflexivity.
Qed.

(** X16.  [GetSystemTitles] always sends its request: one POST to the
    update server with the device id text and a region.  The region is the
    requested one when one was given; otherwise the one [GetDeviceRegion]
    reads off the installed system menu, which is JPN, USA, EUR or KOR, or the
    empty text when no valid system menu is installed.  Without an answer the
    result is the empty response; with one it is whatever the decoder makes of
    it. *)
Theorem GetSystemTitles_sends_id_and_region {St} (P : Platform) (E : Env St)
    (region : string) (w : World St) :
  exists device_id sent,
    GetDeviceId E w = Ret device_id w /\
    (if String.eqb region EmptyString
     then GetDeviceRegion P E w = Ret sent w /\
          if IsValid P (ES_FindInstalledTMD E (SYSTEM_MENU P) (ext w))
          then In sent ["JPN"; "USA"; "EUR"; "KOR"]%string
          else sent = EmptyString
     else sent = region) /\
    let answer := Http_Post E NUS_URL (save_request P device_id sent) (ext w) in
    let posted answered :=
      mkWorld (snd answer) (m_enable_signature_checks w)
              (calls w ++ [EvHttpPost NUS_URL (save_request P device_id sent) answered]) in
    GetSystemTitles P E region w
    = match fst answer with
      | None => Ret empty_Response (posted false)
      | Some body => lift_partial (ParseTitlesResponse P body) (posted true)
      end.
Proof.
  destruct (GetDeviceId_returns E w) as (device_id & Hid).
  destruct (GetDeviceRegion_returns P E w) as (device_region & Hregion & Hname).
  exists device_id, (if String.eqb region EmptyString then device_region else region).
  split; [exact Hid|].
  split; [destruct (String.eqb region EmptyString); auto|].
  exact (GetSystemTitles_posts_the_request P E region w device_id device_region
           Hid Hregion).
Qed.

(** The simulated console has no system menu: the region sent is empty,
    next to the device id. *)
Lemma GetSystemTitles_sends_id_and_region_witness :
  (exists info w',
     GetSystemTitles Wii.wii Examples.lenient EmptyString (Wii.start Examples.nand true)
     = Ret info w' /\
     calls w' = [EvHttpPost NUS_URL (Wii.request_text "4600387192" EmptyString) true]) /\
  exists device_id sent,
    GetDeviceId Examples.lenient (Wii.start Examples.nand true)
    = Ret device_id (Wii.start Examples.nand true) /\
    (if String.eqb EmptyString EmptyString
     then GetDeviceRegion Wii.wii Examples.lenient (Wii.start Examples.nand true)
          = Ret sent (Wii.start Examples.nand true) /\
          if IsValid Wii.wii (ES_FindInstalledTMD Examples.lenient (SYSTEM_MENU Wii.wii)
                                (ext (Wii.start Examples.nand true)))
          then In sent ["JPN"; "USA"; "EUR"; "KOR"]%string
          else sent = EmptyString
     else sent = EmptyString) /\
    let answer := Http_Post Examples.lenient NUS_URL (save_request Wii.wii device_id sent)
                            (ext (Wii.start Examples.nand true)) in
    let posted answered :=
      mkWorld (snd answer) (m_enable_signature_checks (Wii.start Examples.nand true))
              (calls (Wii.start Examples.nand true)
               ++ [EvHttpPost NUS_URL (save_request Wii.wii device_id sent) answered]) in
    GetSystemTitles Wii.wii Examples.lenient EmptyString (Wii.start Examples.nand true)
    = match fst answer with
      | None => Ret empty_Response (posted false)
      | Some body => lift_partial (ParseTitlesResponse Wii.wii body) (posted true)
      end.
Proof.
  split.
  - eexists _, _. split; vm_compute; reflexivity.
  - exact (GetSystemTitles_sends_id_and_region Wii.wii Examples.lenient EmptyString
             (Wii.start Examples.nand true)).
Defined.

(** X17.  Nothing catches the exception of the decoder.  When the server
    answers the catalog request with a response in which some title id cannot
    be read, the conversion throws: the exception leaves the update run and
    [WiiUtils::DoOnlineUpdate] as well, which therefore does not get to clear
    the cache. *)
Theorem undecodable_catalog_escapes_the_run {St} (P : Platform) (E : Env St)
    (fuel : nat) (region : string) (w : World St) (body : bytes) :
  (forall payload, fst (Http_Post E NUS_URL payload (ext w)) = Some body) ->
  ParseTitlesResponse P body = Fault ->
  OnlineSystemUpdater_DoOnlineUpdate P E fuel region w = Crash /\
  DoOnlineUpdate P E fuel region w = Crash.
Proof.
  intros Hanswer Hfault.
  assert (Hinfo : GetSystemTitles P E region w = Crash).
  { destruct (GetDeviceId_returns E w) as (device_id & Hid).
    destruct (GetDeviceRegion_returns P E w) as (device_region & Hregion & _).
    pose proof (GetSystemTitles_posts_the_request P E region w device_id device_region
                  Hid Hregion) as Hpost.
    cbv zeta in Hpost. rewrite Hanswer in Hpost. rewrite Hpost.
    unfold lift_partial. rewrite Hfault. reflexivity. }
  assert (Hrun : OnlineSystemUpdater_DoOnlineUpdate P E fuel region w = Crash).
  { unfold OnlineSystemUpdater_DoOnlineUpdate, bind. rewrite Hinfo. reflexivity. }
  split; [exact Hrun|].
  unfold DoOnlineUpdate, bind. rewrite Hrun. reflexivity.
Qed.

(** A catalog whose title id reads xyz. *)
Lemma undecodable_catalog_escapes_the_run_witness :
  OnlineSystemUpdater_DoOnlineUpdate garbled_catalog Examples.lenient 2 EmptyString
                                     (Wii.start Examples.nand true) = Crash /\
  DoOnlineUpdate garbled_catalog Examples.lenient 2 EmptyString
                 (Wii.start Examples.nand true) = Crash.
Proof.
  apply (undecodable_catalog_escapes_the_run garbled_catalog Examples.lenient 2%nat
           EmptyString (Wii.start Examples.nand true) [x3c]).
  - intros payload. reflexivity.
  - vm_compute. reflexivity.
Defined.
